(** * STM32 OTGv1 USB low level driver: FIFO allocator, packet transfer
      primitives and transmit fill engine.

    A shallow embedding of [STM32/OTGv1/usb_lld.c].  Unsigned 32-bit
    quantities ([uint32_t], [size_t]) are integers in [Z] with the
    wrap-around written out through [u32]; addresses are integers; RAM is a
    total map from addresses to bytes; the memory mapped FIFO registers are
    an output log (TX side) and an input stream (RX side).  Loops whose
    iteration count is not fixed by their header run on fuel and return
    [None] when it is exhausted. *)

From Stdlib Require Import ZArith List Lia Bool Sorted.
From coqutil Require Import Byte Word.LittleEndianList.
Import ListNotations.
Local Open Scope Z_scope.

(** ** Machine arithmetic and loops *)

(** Value of an expression of type [uint32_t] / [size_t]. *)
Definition u32 (z : Z) : Z := z mod 2 ^ 32.

(** Outcome of one pass through a loop body: go round again ([continue], or
    the end of the body), or leave the loop ([break], [return], or a false
    loop condition). *)
Inductive ctl (S R : Type) : Type :=
| Next (s : S)
| Exit (r : R).
Arguments Next {S R} s.
Arguments Exit {S R} r.

(** [while (...) body], with a body that may itself fail to return. *)
Fixpoint iterate {S R : Type} (fuel : nat) (body : S -> option (ctl S R))
  (s : S) : option R :=
  match fuel with
  | O => None
  | Datatypes.S fuel' =>
      match body s with
      | None => None
      | Some (Exit r) => Some r
      | Some (Next s') => iterate fuel' body s'
      end
  end.

(** ** The FIFO RAM allocator *)

(** The slice of [USBDriver] the allocator works on. *)
Record USBDriver := mkUSBDriver {
  pmnext : Z      (* uint32_t pmnext: next free word of the FIFO RAM *)
}.

(** The result of a routine that goes through a kernel debug check: either
    it returns a value, or the system is halted in the state reached. *)
Inductive result (A : Type) : Type :=
| Ret (a : A) (usbp : USBDriver)
| Panic (usbp : USBDriver).
Arguments Ret {A} a usbp.
Arguments Panic {A} usbp.

Definition final_driver {A} (r : result A) : USBDriver :=
  match r with Ret _ u => u | Panic u => u end.

Section Allocator.

(** Build constants, defined by the board and kernel configuration
    headers. *)
Variable STM32_USB_OTG1_RX_FIFO_SIZE : Z.   (* bytes *)
Variable STM32_OTG_FIFO_MEM_SIZE : Z.       (* words *)
Variable CH_DBG_ENABLE_ASSERTS : bool.

(** Modelled from the spec: the kernel macro [chDbgAssert(c, m, r)], whose
    definition lives in the kernel debug header.  The allocation overflow
    "fails fatally ... this is a configuration-time assertion": with the
    assertions compiled in, a false condition halts the system; with the
    assertions compiled out the macro is empty. *)
Definition chDbgAssert {A} (c : bool) (k : result A) : result A :=
  if CH_DBG_ENABLE_ASSERTS && negb c then Panic (final_driver k) else k.

(** [usbp->pmnext = STM32_USB_OTG1_RX_FIFO_SIZE / 4;] *)
Definition otg_ram_reset (usbp : USBDriver) : USBDriver :=
  {| pmnext := u32 (Z.quot STM32_USB_OTG1_RX_FIFO_SIZE 4) |}.

(** [next = usbp->pmnext; usbp->pmnext += size; chDbgAssert(...);
    return next;] *)
Definition otg_ram_alloc (usbp : USBDriver) (size : Z) : result Z :=
  let next := pmnext usbp in
  let usbp := {| pmnext := u32 (pmnext usbp + size) |} in
  chDbgAssert (pmnext usbp <=? STM32_OTG_FIFO_MEM_SIZE)
              (Ret next usbp).

(** A run of allocations, as made by [usb_lld_reset] and by successive
    [usb_lld_init_endpoint] calls: the offsets are collected in call
    order, and a halt stops the run. *)
Fixpoint alloc_seq (usbp : USBDriver) (sizes : list Z) : result (list Z) :=
  match sizes with
  | [] => Ret [] usbp
  | size :: rest =>
      match otg_ram_alloc usbp size with
      | Panic u => Panic u
      | Ret next u =>
          match alloc_seq u rest with
          | Panic u' => Panic u'
          | Ret offs u' => Ret (next :: offs) u'
          end
      end
  end.

End Allocator.

(** The offsets a bump allocator hands out from [base]. *)
Fixpoint offsets_from (base : Z) (sizes : list Z) : list Z :=
  match sizes with
  | [] => []
  | size :: rest => base :: offsets_from (base + size) rest
  end.

Definition total (sizes : list Z) : Z := fold_right Z.add 0 sizes.

(** ** Memory, queues and the kernel's ready list *)

(** RAM: one byte per address. *)
Definition mem : Type := Z -> byte.

Definition mem_store (m : mem) (a : Z) (b : byte) : mem :=
  fun x => if x =? a then b else m x.

(** [*((uint32_t * )buf)]: an unaligned, LSB-first word read. *)
Definition load32 (m : mem) (a : Z) : Z :=
  Z.lor (byte.unsigned (m a))
    (Z.lor (Z.shiftl (byte.unsigned (m (a + 1))) 8)
       (Z.lor (Z.shiftl (byte.unsigned (m (a + 2))) 16)
              (Z.shiftl (byte.unsigned (m (a + 3))) 24))).

(** [*((uint32_t * )buf) = w]: an unaligned, LSB-first word write. *)
Definition store32 (m : mem) (a : Z) (w : Z) : mem :=
  let m := mem_store m a (byte.of_Z w) in
  let m := mem_store m (a + 1) (byte.of_Z (Z.shiftr w 8)) in
  let m := mem_store m (a + 2) (byte.of_Z (Z.shiftr w 16)) in
  mem_store m (a + 3) (byte.of_Z (Z.shiftr w 24)).

(** A thread is named by its [Thread *]. *)
Definition Thread : Type := nat.

(** The fields of the kernel's [GenericQueue] that the driver touches;
    [InputQueue] and [OutputQueue] are other names of this structure. *)
Record GenericQueue := mkQueue {
  q_waiting : list Thread;   (* ThreadsQueue, head first *)
  q_counter : Z;             (* size_t *)
  q_buffer : Z;              (* uint8_t *, first byte of the buffer *)
  q_top : Z;                 (* uint8_t *, one past the last byte *)
  q_wrptr : Z;               (* uint8_t * *)
  q_rdptr : Z                (* uint8_t * *)
}.
Abbreviation InputQueue := GenericQueue (only parsing).
Abbreviation OutputQueue := GenericQueue (only parsing).

Definition set_rdptr (q : GenericQueue) (p : Z) : GenericQueue :=
  mkQueue (q_waiting q) (q_counter q) (q_buffer q) (q_top q) (q_wrptr q) p.

Definition set_wrptr (q : GenericQueue) (p : Z) : GenericQueue :=
  mkQueue (q_waiting q) (q_counter q) (q_buffer q) (q_top q) p (q_rdptr q).

(** The scheduler state the wake-up touches: the ready list and the
    [p_u.rdymsg] field of every thread. *)
Record kernel := mkKernel {
  rlist : list Thread;
  rdymsg : Thread -> Z
}.

Section Kernel.

Variable Q_OK : Z.

(** Modelled from the spec: the kernel primitive [chSchReadyI], which is
    not part of this file.  It makes the thread ready ("wakes" it); the
    thread is returned to the caller. *)
Definition chSchReadyI (tp : Thread) (k : kernel) : Thread * kernel :=
  (tp, mkKernel (rlist k ++ [tp]) (rdymsg k)).

Definition set_rdymsg (tp : Thread) (msg : Z) (k : kernel) : kernel :=
  mkKernel (rlist k) (fun t => if Nat.eqb t tp then msg else rdymsg k t).

(** [while (notempty(&q->q_waiting))
       chSchReadyI(fifo_remove(&q->q_waiting))->p_u.rdymsg = Q_OK;]
    The kernel's threads queue is a list of threads, head first:
    [notempty] holds of a non-empty list and [fifo_remove] takes the head
    off.  The loop runs once per queued thread and hands back what is left
    of the queue. *)
Fixpoint wake_waiting (waiting : list Thread) (k : kernel)
  : list Thread * kernel :=
  match waiting with
  | [] => ([], k)
  | tp :: waiting' =>
      let '(tp, k) := chSchReadyI tp k in
      wake_waiting waiting' (set_rdymsg tp Q_OK k)
  end.

(** The "Updating queue" epilogue shared by both queue routines:
    [q_counter += n], then the wake-up loop.  [chSysLock], [chSysUnlock]
    and [chSchRescheduleS] have no effect on the data modelled here. *)
Definition queue_update (q : GenericQueue) (n : Z) (k : kernel)
  : GenericQueue * kernel :=
  let counter := u32 (q_counter q + n) in
  let '(waiting, k) := wake_waiting (q_waiting q) k in
  (mkQueue waiting counter (q_buffer q) (q_top q) (q_wrptr q) (q_rdptr q), k).

(** ** TX side primitives *)

(** [otg_do_push]: [n] words are read from [buf] onwards and written to
    the FIFO register; returns the words in push order and the pointer
    after the last word. *)
Fixpoint otg_do_push (m : mem) (buf : Z) (n : nat) : list Z * Z :=
  match n with
  | O => ([], buf)
  | Datatypes.S n' =>
      let w := load32 m buf in
      let '(ws, buf') := otg_do_push m (buf + 4) n' in
      (w :: ws, buf')
  end.

(** [otg_fifo_write_from_buffer]: [(n + 3) / 4] words from a linear
    buffer. *)
Definition otg_fifo_write_from_buffer (m : mem) (buf : Z) (n : Z) : list Z :=
  fst (otg_do_push m buf (Z.to_nat (u32 (n + 3) / 4))).

(** The "one byte at time" loop of [otg_fifo_write_from_queue]:
    [while ((ntogo > 0) && (i < 4))].  The counter [i] only grows, so the
    loop is left after at most [4 - i] rounds; [fuel] is that bound. *)
Fixpoint wq_bytes (fuel : nat) (m : mem) (oqp : OutputQueue)
  (ntogo w i : Z) : OutputQueue * Z * Z :=
  match fuel with
  | O => (oqp, ntogo, w)
  | Datatypes.S fuel' =>
      if (0 <? ntogo) && (i <? 4) then
        let w := Z.lor w (u32 (Z.shiftl (byte.unsigned (m (q_rdptr oqp)))
                                        (i * 8))) in
        let oqp := set_rdptr oqp (q_rdptr oqp + 1) in
        let oqp := if q_top oqp <=? q_rdptr oqp
                   then set_rdptr oqp (q_buffer oqp) else oqp in
        wq_bytes fuel' m oqp (u32 (ntogo - 1)) w (i + 1)
      else (oqp, ntogo, w)
  end.

(** State of the outer loop of [otg_fifo_write_from_queue]: the queue, the
    bytes still to go and the words pushed so far. *)
Definition wq_state : Type := OutputQueue * Z * list Z.

(** The streak of whole words pushed in one burst. *)
Definition wq_streak (oqp : OutputQueue) (ntogo : Z) : Z :=
  let nw := ntogo / 4 in
  let nw2end := u32 (Z.quot (q_top oqp - q_rdptr oqp) 4) in
  if nw <=? nw2end then nw else nw2end.

(** One round of [while (ntogo > 0)] in [otg_fifo_write_from_queue]. *)
Definition wq_body (m : mem) (s : wq_state) : option (ctl wq_state wq_state) :=
  let '(oqp, ntogo, fifo) := s in
  if negb (0 <? ntogo) then Some (Exit s) else
  let nw := ntogo / 4 in
  let '(oqp, ntogo, fifo, wrapped) :=
    if 0 <? nw then
      let streak := wq_streak oqp ntogo in
      let ntogo := u32 (ntogo - streak * 4) in
      let '(ws, p) := otg_do_push m (q_rdptr oqp) (Z.to_nat streak) in
      let oqp := set_rdptr oqp p in
      if q_top oqp <=? q_rdptr oqp
      then (set_rdptr oqp (q_buffer oqp), ntogo, fifo ++ ws, true)
      else (oqp, ntogo, fifo ++ ws, false)
    else (oqp, ntogo, fifo, false) in
  if wrapped then Some (Next (oqp, ntogo, fifo)) else      (* continue *)
  if ntogo <=? 0 then Some (Exit (oqp, ntogo, fifo)) else  (* break *)
  let '(oqp, ntogo, w) := wq_bytes 4 m oqp ntogo 0 0 in
  Some (Next (oqp, ntogo, fifo ++ [w])).

(** [otg_fifo_write_from_queue]: returns the words written to the TX FIFO,
    the queue and the kernel state. *)
Definition otg_fifo_write_from_queue (fuel : nat) (m : mem) (k : kernel)
  (oqp : OutputQueue) (n : Z) : option (list Z * OutputQueue * kernel) :=
  match iterate fuel (wq_body m) (oqp, n, []) with
  | None => None
  | Some (oqp, _, fifo) =>
      let '(oqp, k) := queue_update oqp n k in
      Some (fifo, oqp, k)
  end.

(** ** RX side primitives *)

(** The RX FIFO register [OTG->FIFO[0]]: every read pops the next word of
    the stream the core delivers; [rx_pos] counts the words popped. *)
Record rxfifo := mkRx {
  rx_words : nat -> Z;
  rx_pos : nat
}.

(** [w = *fifop] on the RX FIFO. *)
Definition rx_pop (rx : rxfifo) : Z * rxfifo :=
  (u32 (rx_words rx (rx_pos rx)), mkRx (rx_words rx) (Datatypes.S (rx_pos rx))).

(** [otg_do_pop]: [n] words are popped and stored from [buf] onwards;
    returns the memory, the FIFO and the pointer after the last word. *)
Fixpoint otg_do_pop (rx : rxfifo) (m : mem) (buf : Z) (n : nat)
  : rxfifo * mem * Z :=
  match n with
  | O => (rx, m, buf)
  | Datatypes.S n' =>
      let '(w, rx) := rx_pop rx in
      otg_do_pop rx (store32 m buf w) (buf + 4) n'
  end.

(** The [while (n)] loop of [otg_fifo_read_to_buffer], [n] and [max]
    counted in words. *)
Fixpoint rb_loop (n : nat) (rx : rxfifo) (m : mem) (buf max : Z)
  : rxfifo * mem :=
  match n with
  | O => (rx, m)
  | Datatypes.S n' =>
      let '(w, rx) := rx_pop rx in
      if negb (max =? 0)
      then rb_loop n' rx (store32 m buf w) (buf + 4) (u32 (max - 1))
      else rb_loop n' rx m buf max
  end.

(** [otg_fifo_read_to_buffer(buf, n, max)]. *)
Definition otg_fifo_read_to_buffer (rx : rxfifo) (m : mem) (buf n max : Z)
  : rxfifo * mem :=
  let n := u32 (n + 3) / 4 in
  let max := u32 (max + 3) / 4 in
  rb_loop (Z.to_nat n) rx m buf max.

(** The "one byte at time" loop of [otg_fifo_read_to_queue]. *)
Fixpoint rq_bytes (fuel : nat) (m : mem) (iqp : InputQueue)
  (ntogo w i : Z) : mem * InputQueue * Z :=
  match fuel with
  | O => (m, iqp, ntogo)
  | Datatypes.S fuel' =>
      if (0 <? ntogo) && (i <? 4) then
        let m := mem_store m (q_wrptr iqp) (byte.of_Z (Z.shiftr w (i * 8))) in
        let iqp := set_wrptr iqp (q_wrptr iqp + 1) in
        let iqp := if q_top iqp <=? q_wrptr iqp
                   then set_wrptr iqp (q_buffer iqp) else iqp in
        rq_bytes fuel' m iqp (u32 (ntogo - 1)) w (i + 1)
      else (m, iqp, ntogo)
  end.

(** State of the outer loop of [otg_fifo_read_to_queue]. *)
Definition rq_state : Type := rxfifo * mem * InputQueue * Z.

(** The words-until-wrap value as the source computes it: the write
    cursor minus the write cursor. *)
Definition rq_nw2end (iqp : InputQueue) : Z :=
  u32 (Z.quot (q_wrptr iqp - q_wrptr iqp) 4).

Definition rq_streak (iqp : InputQueue) (ntogo : Z) : Z :=
  let nw := ntogo / 4 in
  let nw2end := rq_nw2end iqp in
  if nw <=? nw2end then nw else nw2end.

(** One round of [while (ntogo > 0)] in [otg_fifo_read_to_queue]. *)
Definition rq_body (s : rq_state) : option (ctl rq_state rq_state) :=
  let '(rx, m, iqp, ntogo) := s in
  if negb (0 <? ntogo) then Some (Exit s) else
  let nw := ntogo / 4 in
  let '(rx, m, iqp, ntogo, wrapped) :=
    if 0 <? nw then
      let streak := rq_streak iqp ntogo in
      let ntogo := u32 (ntogo - streak * 4) in
      let '(rx, m, p) := otg_do_pop rx m (q_wrptr iqp) (Z.to_nat streak) in
      let iqp := set_wrptr iqp p in
      if q_top iqp <=? q_wrptr iqp
      then (rx, m, set_wrptr iqp (q_buffer iqp), ntogo, true)
      else (rx, m, iqp, ntogo, false)
    else (rx, m, iqp, ntogo, false) in
  if wrapped then Some (Next (rx, m, iqp, ntogo)) else      (* continue *)
  if ntogo <=? 0 then Some (Exit (rx, m, iqp, ntogo)) else  (* break *)
  let '(w, rx) := rx_pop rx in
  let '(m, iqp, ntogo) := rq_bytes 4 m iqp ntogo w 0 in
  Some (Next (rx, m, iqp, ntogo)).

(** [otg_fifo_read_to_queue]. *)
Definition otg_fifo_read_to_queue (fuel : nat) (rx : rxfifo) (m : mem)
  (k : kernel) (iqp : InputQueue) (n : Z)
  : option (rxfifo * mem * InputQueue * kernel) :=
  match iterate fuel rq_body (rx, m, iqp, n) with
  | None => None
  | Some (rx, m, iqp, _) =>
      let '(iqp, k) := queue_update iqp n k in
      Some (rx, m, iqp, k)
  end.

(** ** The transmit fill engine *)

(** The source of an IN transfer.  The C structure holds the flag
    [txqueued] and a union [mode]; the flag selects the live member, so the
    pair is one tagged value.  A queue is held by reference in C: the
    value carried here is the state of the queue pointed to. *)
Inductive tx_mode : Type :=
| Linear (txbuf : Z)               (* mode.linear.txbuf *)
| Queue (txqueue : OutputQueue).   (* mode.queue.txqueue *)

Record USBInEndpointState := mkInState {
  txsize : Z;      (* size_t: requested transmit transfer size *)
  txcnt : Z;       (* size_t: transmitted bytes so far *)
  mode : tx_mode
}.

Definition txqueued (isp : USBInEndpointState) : bool :=
  match mode isp with Queue _ => true | Linear _ => false end.

(** One packet handed to the TX FIFO: its size and the value of [txcnt]
    once it has been counted. *)
Record packet := mkPacket {
  pk_size : Z;
  pk_txcnt : Z
}.

(** What [otg_txfifo_handler] works on for its endpoint [ep]:
    [usbp->epc[ep]->in_state], the kernel, the number of reads of
    [OTG->ie[ep].DTXFSTS] made so far, the words written to
    [OTG->FIFO[ep]] and the packets pushed (ghost log, oldest first). *)
Record fill := mkFill {
  f_isp : USBInEndpointState;
  f_kernel : kernel;
  f_reads : nat;
  f_fifo : list Z;
  f_packets : list packet
}.

Section FillEngine.

(** [DTXFSTS_INEPTFSAV_MASK], from the register header. *)
Variable DTXFSTS_INEPTFSAV_MASK : Z.
(** The value the [k]-th read of [OTG->ie[ep].DTXFSTS] returns. *)
Variable DTXFSTS : nat -> Z.
(** [usbp->epc[ep]->in_maxsize], a [uint16_t]. *)
Variable in_maxsize : Z.
Variable m : mem.

(** TX FIFO free space in bytes, as the handler computes it from a
    register value. *)
Definition txfifo_space (reg : Z) : Z :=
  u32 (Z.land reg DTXFSTS_INEPTFSAV_MASK * 4).

(** Bytes of the next packet: what remains, capped by [in_maxsize]. *)
Definition next_packet (isp : USBInEndpointState) : Z :=
  let n := u32 (txsize isp - txcnt isp) in
  if in_maxsize <? n then in_maxsize else n.

(** One round of [while (TRUE)] in [otg_txfifo_handler].  The
    [__set_BASEPRI] calls under [STM32_USB_FIFO_FILL_PRIORITY_MASK] only
    change the interrupt priority mask and are left out. *)
Definition txfifo_body (fuel : nat) (s : fill)
  : option (ctl fill (bool * fill)) :=
  let isp := f_isp s in
  (* Transaction end condition. *)
  if txsize isp <=? txcnt isp then Some (Exit (true, s)) else
  let n := next_packet isp in
  let reg := DTXFSTS (f_reads s) in
  let s := mkFill isp (f_kernel s) (Datatypes.S (f_reads s))
                  (f_fifo s) (f_packets s) in
  if txfifo_space reg <? n then Some (Exit (false, s)) else
  match mode isp with
  | Queue txqueue =>
      match otg_fifo_write_from_queue fuel m (f_kernel s) txqueue n with
      | None => None
      | Some (ws, txqueue, k) =>
          let cnt := u32 (txcnt isp + n) in
          Some (Next (mkFill (mkInState (txsize isp) cnt (Queue txqueue)) k
                             (f_reads s) (f_fifo s ++ ws)
                             (f_packets s ++ [mkPacket n cnt])))
      end
  | Linear txbuf =>
      let ws := otg_fifo_write_from_buffer m txbuf n in
      let cnt := u32 (txcnt isp + n) in
      Some (Next (mkFill (mkInState (txsize isp) cnt (Linear (txbuf + n)))
                         (f_kernel s) (f_reads s) (f_fifo s ++ ws)
                         (f_packets s ++ [mkPacket n cnt])))
  end.

(** [otg_txfifo_handler]: [TRUE] when the transfer is complete, [FALSE]
    when the TX FIFO has no room for the next packet.  The same [fuel]
    bounds the rounds of the handler and of each queue write it makes. *)
Definition otg_txfifo_handler (fuel : nat) (s : fill) : option (bool * fill) :=
  iterate fuel (txfifo_body fuel) s.

End FillEngine.

End Kernel.

(** ** Reference definitions for the circular queues *)

(** The cursor after one byte: wraps to the buffer start at the top. *)
Definition circ_next (buffer top p : Z) : Z :=
  if top <=? p + 1 then buffer else p + 1.

Fixpoint circ_advance (buffer top p : Z) (n : nat) : Z :=
  match n with
  | O => p
  | Datatypes.S n' => circ_advance buffer top (circ_next buffer top p) n'
  end.

(** The [n] bytes found from cursor [p] on, going round the buffer. *)
Fixpoint circ_read (m : mem) (buffer top p : Z) (n : nat) : list byte :=
  match n with
  | O => []
  | Datatypes.S n' => m p :: circ_read m buffer top (circ_next buffer top p) n'
  end.

(** The pure byte-at-a-time copy loop: each byte is stored at the cursor,
    which then moves on and wraps. *)
Fixpoint byte_copy (bytes : list byte) (m : mem) (buffer top p : Z)
  : mem * Z :=
  match bytes with
  | [] => (m, p)
  | b :: rest => byte_copy rest (mem_store m p b) buffer top
                           (circ_next buffer top p)
  end.

(** Byte [k] of a packet read from the RX stream at word [pos]: byte
    [k mod 4] (LSB first) of word [k / 4]. *)
Definition packet_byte (rx : rxfifo) (k : nat) : byte :=
  byte.of_Z (Z.shiftr (u32 (rx_words rx (k / 4 + rx_pos rx)%nat))
                      (Z.of_nat (k mod 4) * 8)).

Definition packet_bytes (rx : rxfifo) (n : nat) : list byte :=
  map (packet_byte rx) (seq 0 n).

(** The specification of [otg_fifo_read_to_queue] as a byte-at-a-time
    copy: the [n] packet bytes are copied one by one at the write cursor,
    [ceil(n/4)] words are consumed, and the queue is updated. *)
Definition read_to_queue_bytewise (Q_OK : Z) (rx : rxfifo) (m : mem)
  (k : kernel) (iqp : InputQueue) (n : Z)
  : rxfifo * mem * InputQueue * kernel :=
  let '(m', p) := byte_copy (packet_bytes rx (Z.to_nat n)) m
                            (q_buffer iqp) (q_top iqp) (q_wrptr iqp) in
  let '(iqp', k') := queue_update Q_OK (set_wrptr iqp p) n k in
  (mkRx (rx_words rx) (Z.to_nat ((n + 3) / 4) + rx_pos rx), m', iqp', k').

(** All four bytes of every word of a list, LSB first. *)
Definition bytes_of (ws : list Z) : list byte := flat_map (le_split 4) ws.

(** The [n] bytes found from [p] on in a linear buffer. *)
Fixpoint linear_read (m : mem) (p : Z) (n : nat) : list byte :=
  match n with
  | O => []
  | Datatypes.S n' => m p :: linear_read m (p + 1) n'
  end.

(** The queue with its read cursor moved on by [c] bytes. *)
Definition rd_advance (q : GenericQueue) (c : nat) : GenericQueue :=
  set_rdptr q (circ_advance (q_buffer q) (q_top q) (q_rdptr q) c).

(** The queue with its write cursor moved on by [c] bytes. *)
Definition wr_advance (q : GenericQueue) (c : nat) : GenericQueue :=
  set_wrptr q (circ_advance (q_buffer q) (q_top q) (q_wrptr q) c).

(** [ws] are the [ceil(c/4)] words that carry exactly the [c] bytes found
    at the read cursor of [q]. *)
Definition chunk (m : mem) (ws : list Z) (c : nat) (q : GenericQueue) : Prop :=
  length ws = ((c + 3) / 4)%nat /\
  firstn c (bytes_of ws) =
  circ_read m (q_buffer q) (q_top q) (q_rdptr q) c.

(** What the "Updating queue" epilogue leaves behind. *)
Definition queue_updated (Q_OK : Z) (q : GenericQueue) (n : Z) (k : kernel)
  (q' : GenericQueue) (k' : kernel) : Prop :=
  q_counter q' = u32 (q_counter q + n) /\
  q_waiting q' = [] /\
  q_buffer q' = q_buffer q /\ q_top q' = q_top q /\
  q_wrptr q' = q_wrptr q /\ q_rdptr q' = q_rdptr q /\
  rlist k' = rlist k ++ q_waiting q /\
  (forall t, In t (q_waiting q) -> rdymsg k' t = Q_OK) /\
  (forall t, ~ In t (q_waiting q) -> rdymsg k' t = rdymsg k t).

(** A queue whose cursors lie inside its buffer. *)
Definition rd_ok (q : GenericQueue) : Prop :=
  q_buffer q <= q_rdptr q < q_top q.

Definition wr_ok (q : GenericQueue) : Prop :=
  q_buffer q <= q_wrptr q < q_top q.

(** A transfer in progress: the counters are [size_t] values with
    [txcnt <= txsize], and a queue source has its read cursor inside its
    buffer. *)
Definition fill_ok (s : fill) : Prop :=
  0 <= txcnt (f_isp s) <= txsize (f_isp s) /\
  txsize (f_isp s) < 2 ^ 32 /\
  match mode (f_isp s) with
  | Queue q => rd_ok q
  | Linear _ => True
  end.

(** Bytes of a transfer still to be pushed. *)
Definition remaining (s : fill) : Z := txsize (f_isp s) - txcnt (f_isp s).

(** Total size of a list of packets. *)
Definition pushed (ps : list packet) : Z :=
  fold_right (fun p acc => pk_size p + acc) 0 ps.

(** The packet log counts from [c]: every entry records the count reached
    once its packet is added. *)
Fixpoint counted (c : Z) (ps : list packet) : Prop :=
  match ps with
  | [] => True
  | p :: rest => pk_txcnt p = c + pk_size p /\ counted (pk_txcnt p) rest
  end.

(** Bytes still to be stored, going round from cursor [q], before address
    [a] is reached. *)
Definition circ_dist (B T a q : Z) : Z :=
  if q <=? a then a - q else (T - q) + (a - B).

(** The RX FIFO after one word, and after [n] words, have been popped. *)
Definition rx_next (rx : rxfifo) : rxfifo :=
  mkRx (rx_words rx) (Datatypes.S (rx_pos rx)).

Definition rx_skip (rx : rxfifo) (n : nat) : rxfifo :=
  mkRx (rx_words rx) (n + rx_pos rx).

(** The RX stream that mirrors a list of words written to a TX FIFO. *)
Definition mirror (ws : list Z) : rxfifo :=
  mkRx (fun i => nth i ws 0) 0.

(** ** Reference definitions for the linear buffers and the RX stream *)

(** The next [k] words the RX FIFO delivers. *)
Definition fifo_words (rx : rxfifo) (k : nat) : list Z :=
  map (fun i => u32 (rx_words rx (i + rx_pos rx)%nat)) (seq 0 k).

(** The words that carry a byte sequence, four bytes to a word and LSB
    first; a last word of fewer than four bytes has zeros above them. *)
Fixpoint le_words (bs : list byte) : list Z :=
  match bs with
  | b0 :: b1 :: b2 :: b3 :: rest => le_combine [b0; b1; b2; b3] :: le_words rest
  | [] => []
  | short => [le_combine short]
  end.

(** ** Transfer preparation *)

Section Prepare.

(** [DIEPTSIZ_PKTCNT(n)] and [DIEPTSIZ_XFRSIZ(n)], the field macros of the
    register header. *)
Variable DIEPTSIZ_PKTCNT : Z -> Z.
Variable DIEPTSIZ_XFRSIZ : Z -> Z.

(** [usb_lld_prepare_transmit]: the value written to
    [OTG->ie[ep].DIEPTSIZ].  (With [in_maxsize = 0] the C division is
    undefined; [Z] division gives 0.) *)
Definition usb_lld_prepare_transmit (in_maxsize : Z)
  (isp : USBInEndpointState) : Z :=
  if txsize isp =? 0 then
    (* Special case, sending zero size packet. *)
    Z.lor (DIEPTSIZ_PKTCNT 1) (DIEPTSIZ_XFRSIZ 0)
  else
    let pcnt := u32 (txsize isp + in_maxsize - 1) / in_maxsize in
    Z.lor (DIEPTSIZ_PKTCNT pcnt) (DIEPTSIZ_XFRSIZ (txsize isp)).

End Prepare.

(** ** Reference definitions for the fill engine *)

(** The [c] bytes a transfer source holds next. *)
Definition tx_source (m : mem) (md : tx_mode) (c : nat) : list byte :=
  match md with
  | Linear txbuf => linear_read m txbuf c
  | Queue q => circ_read m (q_buffer q) (q_top q) (q_rdptr q) c
  end.

(** The source [md'] is the source [md] after [c > 0] bytes were taken in
    one or more packets: a linear buffer pointer has moved on by [c]; a
    queue has its read cursor [c] bytes further round, its counter grown by
    [c], and no thread waiting. *)
Definition tx_mode_after (md : tx_mode) (c : Z) (md' : tx_mode) : Prop :=
  match md, md' with
  | Linear txbuf, Linear txbuf' => txbuf' = txbuf + c
  | Queue q, Queue q' =>
      q_buffer q' = q_buffer q /\ q_top q' = q_top q /\
      q_wrptr q' = q_wrptr q /\
      q_rdptr q' =
      circ_advance (q_buffer q) (q_top q) (q_rdptr q) (Z.to_nat c) /\
      q_counter q' = u32 (q_counter q + c) /\
      q_waiting q' = []
  | _, _ => False
  end.

(** Progress of a source over [c >= 0] bytes. *)
Definition tx_progress (md : tx_mode) (c : Z) (md' : tx_mode) : Prop :=
  (c = 0 /\ md' = md) \/ (0 < c /\ tx_mode_after md c md').

(** ** Callers of the allocator *)




(** ** The receive side *)

(** The destination of an OUT transfer: the flag [rxqueued] and the union
    [mode] of the C structure, as one tagged value (as for [tx_mode]). *)
Inductive rx_mode : Type :=
| RxLinear (rxbuf : Z)              (* mode.linear.rxbuf *)
| RxQueue (rxqueue : InputQueue).   (* mode.queue.rxqueue *)

Record USBOutEndpointState := mkOutState {
  rxsize : Z;      (* size_t: requested receive transfer size *)
  rxcnt : Z;       (* size_t: received bytes so far *)
  rx_md : rx_mode
}.

Definition rxqueued (osp : USBOutEndpointState) : bool :=
  match rx_md osp with RxQueue _ => true | RxLinear _ => false end.

(** What [otg_rxfifo_handler] works on: the RX FIFO, the memory, the
    kernel, and [*usbp->epc[ep]->out_state] for every endpoint number
    [ep] (each endpoint has a state object of its own). *)
Record rxside := mkRxSide {
  r_fifo : rxfifo;
  r_mem : mem;
  r_kernel : kernel;
  r_out : Z -> USBOutEndpointState
}.

(** Assignment to the fields of [*usbp->epc[ep]->out_state]. *)
Definition set_out (out : Z -> USBOutEndpointState) (ep : Z)
  (osp : USBOutEndpointState) : Z -> USBOutEndpointState :=
  fun e => if e =? ep then osp else out e.

Section RxHandler.

Variable Q_OK : Z.
(** The [GRXSTSP] field constants of the register header. *)
Variables GRXSTSP_PKTSTS_MASK GRXSTSP_SETUP_COMP GRXSTSP_SETUP_DATA : Z.
Variables GRXSTSP_OUT_DATA GRXSTSP_BCNT_MASK GRXSTSP_BCNT_OFF : Z.
Variables GRXSTSP_EPNUM_MASK GRXSTSP_EPNUM_OFF : Z.
(** [usbp->epc[ep]->setup_buf], by endpoint number. *)
Variable setup_buf : Z -> Z.

(** [(sts & GRXSTSP_BCNT_MASK) >> GRXSTSP_BCNT_OFF] *)
Definition grxstsp_cnt (sts : Z) : Z :=
  Z.shiftr (Z.land sts GRXSTSP_BCNT_MASK) GRXSTSP_BCNT_OFF.

(** [(sts & GRXSTSP_EPNUM_MASK) >> GRXSTSP_EPNUM_OFF] *)
Definition grxstsp_ep (sts : Z) : Z :=
  Z.shiftr (Z.land sts GRXSTSP_EPNUM_MASK) GRXSTSP_EPNUM_OFF.

(** [otg_rxfifo_handler]; [sts] is the value read from [OTG->GRXSTSP].
    The case labels of a C [switch] are distinct, so the chain of tests
    below takes the same branch in any order.  [fuel] bounds the loop of
    the queue read. *)
Definition otg_rxfifo_handler (fuel : nat) (sts : Z) (s : rxside)
  : option rxside :=
  let sel := Z.land sts GRXSTSP_PKTSTS_MASK in
  if sel =? GRXSTSP_SETUP_COMP then Some s
  else if sel =? GRXSTSP_SETUP_DATA then
    let cnt := grxstsp_cnt sts in
    let ep := grxstsp_ep sts in
    let '(rx, m) :=
      otg_fifo_read_to_buffer (r_fifo s) (r_mem s) (setup_buf ep) cnt 8 in
    Some (mkRxSide rx m (r_kernel s) (r_out s))
  else if sel =? GRXSTSP_OUT_DATA then
    let cnt := grxstsp_cnt sts in
    let ep := grxstsp_ep sts in
    let osp := r_out s ep in
    match rx_md osp with
    | RxQueue rxqueue =>
        (* Queue associated. *)
        match otg_fifo_read_to_queue Q_OK fuel (r_fifo s) (r_mem s)
                                     (r_kernel s) rxqueue cnt with
        | None => None
        | Some (rx, m, rxqueue, k) =>
            Some (mkRxSide rx m k
                    (set_out (r_out s) ep
                       (mkOutState (rxsize osp) (u32 (rxcnt osp + cnt))
                                   (RxQueue rxqueue))))
        end
    | RxLinear rxbuf =>
        let '(rx, m) :=
          otg_fifo_read_to_buffer (r_fifo s) (r_mem s) rxbuf cnt
                                  (u32 (rxsize osp - rxcnt osp)) in
        Some (mkRxSide rx m (r_kernel s)
                (set_out (r_out s) ep
                   (mkOutState (rxsize osp) (u32 (rxcnt osp + cnt))
                               (RxLinear (rxbuf + cnt)))))
    end
  else Some s.

(** The loop [while (OTG->GINTSTS & GINTSTS_RXFLVL) otg_rxfifo_handler(usbp);]
    of [usb_lld_pump], for the status words [stss] the core holds, oldest
    first: the level flag stays up until the last of them is popped. *)
Fixpoint rx_drain (fuel : nat) (stss : list Z) (s : rxside) : option rxside :=
  match stss with
  | [] => Some s
  | sts :: rest =>
      match otg_rxfifo_handler fuel sts s with
      | None => None
      | Some s => rx_drain fuel rest s
      end
  end.

End RxHandler.

(** The bytes of a run of packets of the sizes [cnts], each starting at a
    word of the RX stream. *)
Fixpoint rx_packets (rx : rxfifo) (cnts : list Z) : list byte :=
  match cnts with
  | [] => []
  | c :: rest =>
      packet_bytes rx (Z.to_nat c)
      ++ rx_packets (rx_skip rx (Z.to_nat ((c + 3) / 4))) rest
  end.

(** The C library's [memcpy(dst, src, n)], for regions that do not
    overlap. *)
Fixpoint memcpy (m : mem) (dst src : Z) (n : nat) : mem :=
  match n with
  | O => m
  | Datatypes.S n' => memcpy (mem_store m dst (m src)) (dst + 1) (src + 1) n'
  end.

(** [usb_lld_read_setup]: [memcpy(buf, usbp->epc[ep]->setup_buf, 8)]. *)
Definition usb_lld_read_setup (m : mem) (setup_buf buf : Z) : mem :=
  memcpy m buf setup_buf 8.

(** ** The TX FIFO empty handshake between interrupt handler and pump *)

(** The fields and registers the handshake uses. *)
Record txside := mkTxSide {
  txpending : Z;              (* usbp->txpending *)
  thd_wait : option Thread;   (* usbp->thd_wait, NULL as None *)
  GAHBCFG : Z;                (* OTG->GAHBCFG *)
  DIEPEMPMSK : Z              (* OTG->DIEPEMPMSK *)
}.

(** Modelled from the spec: the kernel's [chThdResumeI], which is not part
    of this file: the suspended thread is made ready. *)
Definition chThdResumeI (tp : Thread) (k : kernel) : kernel :=
  snd (chSchReadyI tp k).

Section Handshake.

Variable Q_OK : Z.
Variable DTXFSTS_INEPTFSAV_MASK : Z.
Variable DTXFSTS : nat -> Z.
Variable in_maxsize : Z.
Variable m : mem.
(** [DIEPINT_TXFE], [DIEPEMPMSK_INEPTXFEM(n)] and [GAHBCFG_GINTMSK], from
    the register header. *)
Variable DIEPINT_TXFE : Z.
Variable DIEPEMPMSK_INEPTXFEM : Z -> Z.
Variable GAHBCFG_GINTMSK : Z.

(** [usb_lld_start_in], on [OTG->DIEPEMPMSK]; the write to [DIEPCTL]
    starts the hardware and touches none of the fields modelled. *)
Definition usb_lld_start_in (ep : Z) (t : txside) : txside :=
  mkTxSide (txpending t) (thd_wait t) (GAHBCFG t)
           (Z.lor (DIEPEMPMSK t) (DIEPEMPMSK_INEPTXFEM ep)).

(** The TX FIFO empty part of [otg_epin_handler], its last [if]; [epint]
    is the value the handler read from [DIEPINT].  The bit masks are
    taken as 32 bits wide. *)
Definition otg_epin_handler_txfe (ep epint : Z) (t : txside) (k : kernel)
  : txside * kernel :=
  if negb (Z.land epint DIEPINT_TXFE =? 0) &&
     negb (Z.land (DIEPEMPMSK t) (DIEPEMPMSK_INEPTXFEM ep) =? 0)
  then
    let pending := Z.lor (txpending t) (u32 (Z.shiftl 1 ep)) in
    let msk := Z.land (DIEPEMPMSK t) (u32 (Z.lnot (Z.shiftl 1 ep))) in
    match thd_wait t with
    | Some tp => (mkTxSide pending None (GAHBCFG t) msk, chThdResumeI tp k)
    | None => (mkTxSide pending None (GAHBCFG t) msk, k)
    end
  else (t, k).

(** The service of one endpoint in the [for] loop of [usb_lld_pump], from
    [epmask = (1 << ep)] to the end of the [if]; [s] is the fill state of
    endpoint [ep].  Between the two locked regions the USB interrupts are
    off ([GINTMSK] is clear), so the interrupt handler does not run and the
    fields keep the values written here. *)
Definition usb_lld_pump_service (fuel : nat) (ep : Z) (t : txside) (s : fill)
  : option (txside * fill) :=
  let epmask := u32 (Z.shiftl 1 ep) in
  if Z.land (txpending t) epmask =? 0 then Some (t, s) else
  let t := mkTxSide (Z.land (txpending t) (u32 (Z.lnot epmask))) (thd_wait t)
                    (Z.land (GAHBCFG t) (u32 (Z.lnot GAHBCFG_GINTMSK)))
                    (DIEPEMPMSK t) in
  match otg_txfifo_handler Q_OK DTXFSTS_INEPTFSAV_MASK DTXFSTS in_maxsize m
                           fuel s with
  | None => None
  | Some (done, s) =>
      let t := mkTxSide (txpending t) (thd_wait t)
                        (Z.lor (GAHBCFG t) GAHBCFG_GINTMSK) (DIEPEMPMSK t) in
      let t := if negb done
               then mkTxSide (txpending t) (thd_wait t) (GAHBCFG t)
                             (Z.lor (DIEPEMPMSK t) epmask)
               else t in
      Some (t, s)
  end.

End Handshake.

(** ** Endpoint initialization: the TX FIFO of an IN endpoint *)

(** The FIFO size in words that [usb_lld_init_endpoint] computes for an IN
    endpoint: [fsize = in_maxsize / 4], times [in_multiplier] when that is
    above one ([fsize] is a [uint32_t]). *)
Definition in_fifo_words (in_maxsize in_multiplier : Z) : Z :=
  let fsize := in_maxsize / 4 in
  if 1 <? in_multiplier then u32 (fsize * in_multiplier) else fsize.

(** The FIFO allocation of [usb_lld_init_endpoint] for an endpoint with an
    IN callback: the depth written to [DIEPTXF[ep - 1]] and the call of the
    allocator that gives the start address. *)
Definition usb_lld_init_endpoint_fifo (MEM_SIZE : Z) (ASSERTS : bool)
  (usbp : USBDriver) (in_maxsize in_multiplier : Z) : Z * result Z :=
  let fsize := in_fifo_words in_maxsize in_multiplier in
  (fsize, otg_ram_alloc MEM_SIZE ASSERTS usbp fsize).

(** * Properties *)

(** ** Machine arithmetic *)

Lemma u32_range z : 0 <= u32 z < 2 ^ 32.
Proof. unfold u32. apply Z.mod_pos_bound. reflexivity. Qed.

Lemma u32_small z : 0 <= z < 2 ^ 32 -> u32 z = z.
Proof. intros H. unfold u32. now apply Z.mod_small. Qed.

(** Facts about a quotient by four, for [lia]. *)
Ltac div4 x :=
  pose proof (Nat.div_mod_eq x 4);
  pose proof (Nat.mod_upper_bound x 4 ltac:(lia)).

Ltac zdiv4 x :=
  pose proof (Z.div_mod x 4 ltac:(lia));
  pose proof (Z.mod_pos_bound x 4 ltac:(lia)).

(** ** The FIFO RAM allocator *)

Section AllocatorFacts.

Variable MEM : Z.
Variable ASSERTS : bool.

Lemma otg_ram_alloc_ret usbp size next usbp' :
  otg_ram_alloc MEM ASSERTS usbp size = Ret next usbp' ->
  next = pmnext usbp /\ pmnext usbp' = u32 (pmnext usbp + size) /\
  (ASSERTS = true -> pmnext usbp' <= MEM).
Proof.
  unfold otg_ram_alloc, chDbgAssert. cbn [pmnext final_driver].
  destruct ASSERTS; cbn [andb].
  - destruct (u32 (pmnext usbp + size) <=? MEM) eqn:E; cbn [negb];
      intros H; inversion H; subst; cbn [pmnext].
    apply Z.leb_le in E. auto.
  - intros H; inversion H; subst; cbn [pmnext].
    repeat split. discriminate.
Qed.

Lemma otg_ram_alloc_fits usbp size :
  ASSERTS = false \/ u32 (pmnext usbp + size) <= MEM ->
  otg_ram_alloc MEM ASSERTS usbp size =
  Ret (pmnext usbp) {| pmnext := u32 (pmnext usbp + size) |}.
Proof.
  unfold otg_ram_alloc, chDbgAssert. cbn [pmnext final_driver].
  intros [-> | H]; [reflexivity|].
  apply Z.leb_le in H. rewrite H. now rewrite andb_false_r.
Qed.

Lemma offsets_from_lower base sizes :
  Forall (fun s => 0 < s) sizes ->
  Forall (fun o => base <= o) (offsets_from base sizes).
Proof.
  intros H. revert base.
  induction H as [|s sizes Hs _ IH]; intros base; cbn [offsets_from].
  - constructor.
  - constructor; [lia|].
    eapply Forall_impl; [|apply (IH (base + s))].
    cbn. intros; lia.
Qed.

Lemma offsets_from_sorted base sizes :
  Forall (fun s => 0 < s) sizes ->
  StronglySorted Z.lt (offsets_from base sizes).
Proof.
  intros H. revert base.
  induction H as [|s sizes Hs Hrest IH]; intros base; cbn [offsets_from].
  - constructor.
  - constructor; [apply IH|].
    eapply Forall_impl; [|apply (offsets_from_lower (base + s) sizes Hrest)].
    cbn. intros; lia.
Qed.

Lemma total_nonneg sizes : Forall (fun s => 0 < s) sizes -> 0 <= total sizes.
Proof.
  induction 1 as [|s sizes Hs _ IH]; cbn [total fold_right]; [lia|].
  fold (total sizes). lia.
Qed.

Lemma alloc_seq_ret sizes : forall usbp offs usbp',
  Forall (fun s => 0 < s) sizes ->
  0 <= pmnext usbp ->
  pmnext usbp + total sizes < 2 ^ 32 ->
  alloc_seq MEM ASSERTS usbp sizes = Ret offs usbp' ->
  offs = offsets_from (pmnext usbp) sizes /\
  pmnext usbp' = pmnext usbp + total sizes /\
  (ASSERTS = true -> Forall2 (fun o s => o + s <= MEM) offs sizes).
Proof.
  induction sizes as [|s sizes IH]; intros usbp offs usbp' Hpos H0 Hsum;
    cbn [alloc_seq offsets_from total fold_right].
  - intros H; inversion H; subst. repeat split; [lia | constructor].
  - fold (total sizes) in *.
    inversion Hpos as [|? ? Hs Hrest]; subst.
    pose proof (total_nonneg sizes Hrest) as Ht.
    cbn [total fold_right] in Hsum. fold (total sizes) in Hsum.
    destruct (otg_ram_alloc MEM ASSERTS usbp s) as [next u|u] eqn:Ea;
      [|discriminate].
    apply otg_ram_alloc_ret in Ea. destruct Ea as (-> & Hu & Hcap).
    rewrite u32_small in Hu by lia.
    destruct (alloc_seq MEM ASSERTS u sizes) as [offs' u'|u'] eqn:Er;
      [|discriminate].
    intros H; inversion H; subst.
    apply IH in Er; [|assumption|lia|lia].
    destruct Er as (-> & Hu' & Hcap').
    split; [now rewrite Hu|]. split; [lia|].
    intros Ha. constructor; [specialize (Hcap Ha); lia | auto].
Qed.

Lemma alloc_seq_returns sizes : forall usbp,
  Forall (fun s => 0 < s) sizes ->
  0 <= pmnext usbp ->
  pmnext usbp + total sizes < 2 ^ 32 ->
  ASSERTS = false \/ pmnext usbp + total sizes <= MEM ->
  alloc_seq MEM ASSERTS usbp sizes =
  Ret (offsets_from (pmnext usbp) sizes)
      {| pmnext := pmnext usbp + total sizes |}.
Proof.
  induction sizes as [|s sizes IH]; intros usbp Hpos H0 Hsum Hfit;
    cbn [alloc_seq offsets_from total fold_right].
  - destruct usbp; cbn [pmnext]. now rewrite Z.add_0_r.
  - fold (total sizes) in *.
    inversion Hpos as [|? ? Hs Hrest]; subst.
    pose proof (total_nonneg sizes Hrest) as Ht.
    cbn [total fold_right] in Hsum, Hfit. fold (total sizes) in Hsum, Hfit.
    rewrite otg_ram_alloc_fits
      by (rewrite u32_small by lia; destruct Hfit; [now left | right; lia]).
    rewrite u32_small by lia.
    rewrite IH; cbn [pmnext]; try assumption; try lia.
    + now rewrite Z.add_assoc.
    + destruct Hfit; [now left | right; lia].
Qed.

End AllocatorFacts.

(** C4, as amended.  Every call of [otg_ram_alloc] that returns hands out
    the value of [pmnext] from before the call and leaves [pmnext] advanced
    by the size (modulo 2^32).  For a run of allocations whose sizes are all
    positive and whose running total stays below 2^32: the offsets are the
    running sums, hence strictly increasing; the run returns whenever the
    debug assertions are compiled out or the total fits the FIFO RAM; and
    with the assertions compiled in, every returned offset plus its size is
    within the FIFO RAM.  No bound holds with the assertions compiled
    out, and a zero size repeats an offset. *)
Theorem alloc_seq_increasing (MEM : Z) (ASSERTS : bool) (usbp : USBDriver)
  (sizes : list Z) :
  Forall (fun s => 0 < s) sizes ->
  0 <= pmnext usbp ->
  pmnext usbp + total sizes < 2 ^ 32 ->
  (forall u size next u',
      otg_ram_alloc MEM ASSERTS u size = Ret next u' ->
      next = pmnext u /\ pmnext u' = u32 (pmnext u + size)) /\
  StronglySorted Z.lt (offsets_from (pmnext usbp) sizes) /\
  (ASSERTS = false \/ pmnext usbp + total sizes <= MEM ->
   alloc_seq MEM ASSERTS usbp sizes =
   Ret (offsets_from (pmnext usbp) sizes)
       {| pmnext := pmnext usbp + total sizes |}) /\
  (forall offs usbp',
      alloc_seq MEM ASSERTS usbp sizes = Ret offs usbp' ->
      offs = offsets_from (pmnext usbp) sizes /\
      pmnext usbp' = pmnext usbp + total sizes /\
      (ASSERTS = true -> Forall2 (fun o s => o + s <= MEM) offs sizes)).
Proof.
  intros Hpos H0 Hsum. repeat split.
  - eapply otg_ram_alloc_ret; eauto.
  - eapply otg_ram_alloc_ret; eauto.
  - now apply offsets_from_sorted.
  - intros Hfit. now apply alloc_seq_returns.
  - eapply alloc_seq_ret; eauto.
  - eapply alloc_seq_ret; eauto.
  - eapply alloc_seq_ret; eauto.
Qed.

Lemma alloc_seq_increasing_witness :
  alloc_seq 384 true (otg_ram_reset 128 (mkUSBDriver 0)) [16; 32; 64] =
  Ret [32; 48; 80] {| pmnext := 144 |} /\
  StronglySorted Z.lt [32; 48; 80].
Proof.
  pose proof (alloc_seq_increasing 384 true (otg_ram_reset 128 (mkUSBDriver 0))
                [16; 32; 64]) as H.
  destruct H as (_ & Hs & Hr & _).
  - repeat constructor.
  - vm_compute. discriminate.
  - vm_compute. reflexivity.
  - split.
    + apply Hr. right. vm_compute. discriminate.
    + exact Hs.
Defined.

(** C4, as stated, fails: two zero-sized allocations return the same
    offset (also with the assertions compiled in), and with the assertions
    compiled out an allocation runs past the FIFO RAM. *)
Lemma alloc_seq_counterexample :
  (exists offs u',
      alloc_seq 384 true (otg_ram_reset 128 (mkUSBDriver 0)) [0; 0]
      = Ret offs u' /\ ~ StronglySorted Z.lt offs) /\
  (exists offs u',
      alloc_seq 384 false (otg_ram_reset 128 (mkUSBDriver 0)) [16; 400]
      = Ret offs u' /\
      ~ Forall2 (fun o s => o + s <= 384) offs [16; 400] /\
      384 < pmnext u').
Proof.
  split.
  - exists [32; 32], {| pmnext := 32 |}. split; [reflexivity|].
    intros H. inversion H as [|? ? _ Hall]; subst.
    inversion Hall as [|? ? Hlt _]; subst. lia.
  - exists [32; 48], {| pmnext := 448 |}. split; [reflexivity|]. split.
    + intros H. inversion H as [|? ? ? ? _ Hrest]; subst.
      inversion Hrest as [|? ? ? ? Hle _]; subst. lia.
    + cbn [pmnext]. lia.
Qed.

(** C5, as amended.  After [otg_ram_reset] the allocator starts at the
    word following the RX FIFO, [STM32_USB_OTG1_RX_FIFO_SIZE / 4]; requests
    of 16 and 32 words return that base and the base plus 16, and [pmnext]
    ends at the base plus 48. *)
Theorem alloc_16_32 (RX MEM : Z) (ASSERTS : bool) (usbp : USBDriver) :
  0 <= RX ->
  RX / 4 + 48 < 2 ^ 32 ->
  ASSERTS = false \/ RX / 4 + 48 <= MEM ->
  alloc_seq MEM ASSERTS (otg_ram_reset RX usbp) [16; 32] =
  Ret [RX / 4; RX / 4 + 16] {| pmnext := RX / 4 + 48 |}.
Proof.
  intros H0 Hsum Hfit.
  assert (Hq : Z.quot RX 4 = RX / 4) by (apply Z.quot_div_nonneg; lia).
  assert (Hd : 0 <= RX / 4) by (apply Z.div_pos; lia).
  assert (Hp : pmnext (otg_ram_reset RX usbp) = RX / 4).
  { unfold otg_ram_reset. cbn [pmnext]. rewrite Hq. apply u32_small. lia. }
  rewrite alloc_seq_returns; rewrite ?Hp; cbn [total fold_right offsets_from].
  - do 2 f_equal; lia.
  - repeat constructor.
  - lia.
  - lia.
  - destruct Hfit; [now left | right; lia].
Qed.

Lemma alloc_16_32_witness :
  alloc_seq 384 true (otg_ram_reset 128 (mkUSBDriver 0)) [16; 32] =
  Ret [128 / 4; 128 / 4 + 16] {| pmnext := 128 / 4 + 48 |}.
Proof.
  apply (alloc_16_32 128 384 true (mkUSBDriver 0)).
  - lia.
  - vm_compute. reflexivity.
  - right. vm_compute. discriminate.
Defined.

(** C5, as stated, fails: with a 128 byte RX FIFO the two offsets are 32
    and 48, and [pmnext] ends at 80. *)
Lemma alloc_16_32_counterexample :
  alloc_seq 384 true (otg_ram_reset 128 (mkUSBDriver 0)) [16; 32] =
  Ret [32; 48] {| pmnext := 80 |} /\
  [32; 48] <> [0; 16] /\ 80 <> 48.
Proof. split; [reflexivity | split; discriminate]. Qed.

(** C10.  An allocation whose result exceeds the FIFO RAM size leaves
    [pmnext] advanced past it in every build: with the assertions compiled
    out the call returns the offset from before the increment, with the
    assertions compiled in the system halts, and in neither case is
    [pmnext] rolled back. *)
Theorem otg_ram_alloc_overflow (MEM : Z) (ASSERTS : bool) (usbp : USBDriver)
  (size : Z) :
  MEM < u32 (pmnext usbp + size) ->
  otg_ram_alloc MEM ASSERTS usbp size =
  (if ASSERTS
   then Panic {| pmnext := u32 (pmnext usbp + size) |}
   else Ret (pmnext usbp) {| pmnext := u32 (pmnext usbp + size) |}) /\
  MEM < pmnext (final_driver (otg_ram_alloc MEM ASSERTS usbp size)).
Proof.
  intros H.
  assert (E : otg_ram_alloc MEM ASSERTS usbp size =
    (if ASSERTS
     then Panic {| pmnext := u32 (pmnext usbp + size) |}
     else Ret (pmnext usbp) {| pmnext := u32 (pmnext usbp + size) |})).
  { unfold otg_ram_alloc, chDbgAssert. cbn [pmnext final_driver].
    apply Z.leb_gt in H. rewrite H. now destruct ASSERTS. }
  split; [exact E|].
  rewrite E. now destruct ASSERTS.
Qed.

Lemma otg_ram_alloc_overflow_witness :
  otg_ram_alloc 384 false {| pmnext := 380 |} 16 =
  Ret 380 {| pmnext := 396 |} /\
  otg_ram_alloc 384 true {| pmnext := 380 |} 16 = Panic {| pmnext := 396 |}.
Proof.
  split.
  - apply (otg_ram_alloc_overflow 384 false {| pmnext := 380 |} 16).
    vm_compute. reflexivity.
  - apply (otg_ram_alloc_overflow 384 true {| pmnext := 380 |} 16).
    vm_compute. reflexivity.
Defined.

(** ** Bytes and words *)

Lemma load32_le_combine m a :
  load32 m a = le_combine [m a; m (a + 1); m (a + 2); m (a + 3)].
Proof.
  unfold load32. cbv [le_combine].
  rewrite Z.shiftl_0_l, Z.lor_0_r.
  rewrite !Z.shiftl_lor, !Z.shiftl_shiftl by lia.
  reflexivity.
Qed.

Lemma le_split_load32 m a :
  le_split 4 (load32 m a) = [m a; m (a + 1); m (a + 2); m (a + 3)].
Proof.
  rewrite load32_le_combine.
  exact (split_le_combine [m a; m (a + 1); m (a + 2); m (a + 3)]).
Qed.

Lemma firstn_le_split k : forall n w,
  (k <= n)%nat -> firstn k (le_split n w) = le_split k w.
Proof.
  induction k as [|k IH]; intros n w Hk; [reflexivity|].
  destruct n as [|n]; [lia|].
  change (le_split (Datatypes.S n) w)
    with (byte.of_Z w :: le_split n (Z.shiftr w 8)).
  change (le_split (Datatypes.S k) w)
    with (byte.of_Z w :: le_split k (Z.shiftr w 8)).
  cbn [firstn]. f_equal. apply IH. lia.
Qed.

Lemma le_split_u32 k w : (k <= 4)%nat -> le_split k (u32 w) = le_split k w.
Proof.
  intros Hk. rewrite <- (firstn_le_split k 4 (u32 w)) by assumption.
  rewrite <- (firstn_le_split k 4 w) by assumption.
  f_equal. unfold u32.
  change (2 ^ 32) with (2 ^ (Z.of_nat 4 * 8)).
  symmetry. apply le_split_mod.
Qed.

Lemma length_bytes_of ws : length (bytes_of ws) = (4 * length ws)%nat.
Proof.
  unfold bytes_of. induction ws as [|w ws IH]; [reflexivity|].
  cbn [flat_map length]. rewrite length_app, length_le_split, IH. lia.
Qed.

Lemma bytes_of_app ws1 ws2 :
  bytes_of (ws1 ++ ws2) = bytes_of ws1 ++ bytes_of ws2.
Proof. unfold bytes_of. apply flat_map_app. Qed.

Lemma otg_do_push_spec m k : forall p,
  snd (otg_do_push m p k) = p + 4 * Z.of_nat k /\
  length (fst (otg_do_push m p k)) = k /\
  bytes_of (fst (otg_do_push m p k)) = linear_read m p (4 * k).
Proof.
  induction k as [|k IH]; intros p.
  - cbn. repeat split. lia.
  - cbn [otg_do_push].
    destruct (otg_do_push m (p + 4) k) as [ws p'] eqn:E.
    specialize (IH (p + 4)). rewrite E in IH. cbn [fst snd] in *.
    destruct IH as (Hp & Hl & Hb). repeat split.
    + lia.
    + cbn [length]. now rewrite Hl.
    + replace (4 * Datatypes.S k)%nat
        with (Datatypes.S (Datatypes.S (Datatypes.S (Datatypes.S (4 * k)))))
        by lia.
      unfold bytes_of in *. cbn [flat_map linear_read].
      rewrite le_split_load32, Hb. cbn [app].
      replace (p + 1 + 1 + 1 + 1) with (p + 4) by lia.
      replace (p + 1 + 1) with (p + 2) by lia.
      replace (p + 2 + 1) with (p + 3) by lia.
      reflexivity.
Qed.

(** ** Circular cursors *)

Section Circular.

Variable m : mem.
Variables B T : Z.

Lemma circ_next_ok p : B <= p < T -> B <= circ_next B T p < T.
Proof. unfold circ_next. intros H. destruct (T <=? p + 1) eqn:E; lia. Qed.

Lemma circ_advance_ok n : forall p,
  B <= p < T -> B <= circ_advance B T p n < T.
Proof.
  induction n as [|n IH]; intros p H; cbn [circ_advance]; [lia|].
  apply IH. now apply circ_next_ok.
Qed.

Lemma circ_advance_add a : forall b p,
  circ_advance B T p (a + b) = circ_advance B T (circ_advance B T p a) b.
Proof.
  induction a as [|a IH]; intros b p; cbn [circ_advance Nat.add];
    [reflexivity | apply IH].
Qed.

Lemma circ_read_app a : forall b p,
  circ_read m B T p (a + b) =
  circ_read m B T p a ++ circ_read m B T (circ_advance B T p a) b.
Proof.
  induction a as [|a IH]; intros b p;
    cbn [circ_read circ_advance Nat.add app]; [reflexivity|].
  f_equal. apply IH.
Qed.

Lemma length_circ_read n : forall p, length (circ_read m B T p n) = n.
Proof. induction n; intros p; cbn [circ_read length]; auto. Qed.

Lemma circ_read_linear n : forall p,
  p + Z.of_nat n <= T -> circ_read m B T p n = linear_read m p n.
Proof.
  induction n as [|n IH]; intros p H; cbn [circ_read linear_read];
    [reflexivity|].
  destruct n as [|n]; [reflexivity|].
  f_equal. unfold circ_next.
  destruct (Z.leb_spec T (p + 1)); [lia|]. apply IH. lia.
Qed.

Lemma circ_advance_linear n : forall p,
  B <= p < T -> p + Z.of_nat n <= T ->
  circ_advance B T p n = if T <=? p + Z.of_nat n then B else p + Z.of_nat n.
Proof.
  induction n as [|n IH]; intros p Hp H; cbn [circ_advance].
  - destruct (Z.leb_spec T (p + Z.of_nat 0)); lia.
  - unfold circ_next. destruct (Z.leb_spec T (p + 1)).
    + assert (n = 0%nat) by lia. subst n. cbn [circ_advance].
      destruct (Z.leb_spec T (p + Z.of_nat 1)); lia.
    + rewrite IH by lia.
      replace (p + 1 + Z.of_nat n) with (p + Z.of_nat (Datatypes.S n)) by lia.
      reflexivity.
Qed.

End Circular.

(** ** [otg_fifo_write_from_queue] *)

Lemma set_rdptr_same q : set_rdptr q (q_rdptr q) = q.
Proof. now destruct q. Qed.

Lemma le_combine_cons b bs :
  le_combine (b :: bs) = Z.lor (byte.unsigned b) (Z.shiftl (le_combine bs) 8).
Proof. reflexivity. Qed.

Lemma u32_shift_byte b i :
  0 <= i < 4 ->
  u32 (Z.shiftl (byte.unsigned b) (i * 8)) = Z.shiftl (byte.unsigned b) (i * 8).
Proof.
  intros Hi. apply u32_small.
  pose proof (byte.unsigned_range b) as Hb.
  change (2 ^ 8) with 256 in Hb.
  rewrite Z.shiftl_mul_pow2 by lia.
  assert (E : i = 0 \/ i = 1 \/ i = 2 \/ i = 3) by lia.
  destruct E as [-> | [-> | [-> | ->]]];
    cbn [Z.mul Pos.mul]; [change (2 ^ 0) with 1 | change (2 ^ 8) with 256
                       | change (2 ^ 16) with 65536
                       | change (2 ^ 24) with 16777216];
    change (2 ^ 32) with 4294967296; lia.
Qed.

Section WriteFromQueue.

Variable m : mem.

Lemma rd_advance_ok q c : rd_ok q -> rd_ok (rd_advance q c).
Proof.
  unfold rd_ok, rd_advance. cbn [set_rdptr q_buffer q_top q_rdptr].
  apply circ_advance_ok.
Qed.

Lemma rd_advance_add q a b :
  rd_advance (rd_advance q a) b = rd_advance q (a + b).
Proof.
  unfold rd_advance. cbn [set_rdptr q_buffer q_top q_rdptr q_waiting
                          q_counter q_wrptr].
  now rewrite circ_advance_add.
Qed.

Lemma chunk_nil q : chunk m [] 0 q.
Proof. split; reflexivity. Qed.

Lemma chunk_app ws1 ws2 c1 c2 q :
  chunk m ws1 c1 q ->
  (c1 mod 4 = 0 \/ c2 = 0)%nat ->
  chunk m ws2 c2 (rd_advance q c1) ->
  chunk m (ws1 ++ ws2) (c1 + c2) q.
Proof.
  intros [Hl1 Hb1] Hc [Hl2 Hb2].
  unfold rd_advance in Hb2. cbn [set_rdptr q_buffer q_top q_rdptr] in Hb2.
  destruct Hc as [Hc | ->].
  - div4 c1. div4 (c1 + 3)%nat. div4 (c2 + 3)%nat. div4 (c1 + c2 + 3)%nat.
    assert (Hlen : length (bytes_of ws1) = c1)
      by (rewrite length_bytes_of, Hl1; lia).
    split.
    + rewrite length_app, Hl1, Hl2. lia.
    + rewrite bytes_of_app, circ_read_app.
      rewrite <- Hlen at 1. rewrite firstn_app_2.
      rewrite <- Hb1, <- Hb2. f_equal.
      rewrite <- Hlen at 1. now rewrite firstn_all.
  - assert (ws2 = []) by (destruct ws2; [reflexivity | discriminate]).
    subst ws2. rewrite app_nil_r, Nat.add_0_r. now split.
Qed.

Lemma wq_bytes_spec fuel : forall q ntogo w i,
  0 <= i -> i + Z.of_nat fuel = 4 -> 0 <= ntogo < 2 ^ 32 ->
  wq_bytes fuel m q ntogo w i =
  (rd_advance q (Nat.min fuel (Z.to_nat ntogo)),
   ntogo - Z.of_nat (Nat.min fuel (Z.to_nat ntogo)),
   Z.lor w (Z.shiftl
              (le_combine (circ_read m (q_buffer q) (q_top q) (q_rdptr q)
                                     (Nat.min fuel (Z.to_nat ntogo))))
              (i * 8))).
Proof.
  induction fuel as [|fuel IH]; intros q ntogo w i Hi Hf Hn.
  - cbn [wq_bytes Nat.min circ_read]. unfold rd_advance.
    cbn [circ_advance]. rewrite set_rdptr_same.
    change (le_combine []) with 0.
    now rewrite Z.shiftl_0_l, Z.lor_0_r, Z.sub_0_r.
  - cbn [wq_bytes]. destruct (Z.ltb_spec 0 ntogo) as [Hpos | Hz].
    + assert (Hi4 : (i <? 4) = true) by (apply Z.ltb_lt; lia).
      rewrite Hi4. cbn [andb].
      replace (Z.to_nat ntogo) with (Datatypes.S (Z.to_nat (ntogo - 1)))
        by lia.
      cbn [Nat.min circ_read].
      rewrite u32_shift_byte by lia.
      rewrite (u32_small (ntogo - 1)) by lia.
      cbn [set_rdptr q_top q_rdptr q_buffer].
      replace (if q_top q <=? q_rdptr q + 1
               then set_rdptr (set_rdptr q (q_rdptr q + 1)) (q_buffer q)
               else set_rdptr q (q_rdptr q + 1))
        with (set_rdptr q (circ_next (q_buffer q) (q_top q) (q_rdptr q)))
        by (unfold circ_next; now destruct (q_top q <=? q_rdptr q + 1)).
      rewrite IH by lia.
      unfold rd_advance.
      cbn [set_rdptr q_top q_rdptr q_buffer q_waiting q_counter q_wrptr
           circ_advance].
      f_equal; [f_equal; lia|].
      rewrite le_combine_cons, Z.shiftl_lor, Z.shiftl_shiftl by lia.
      rewrite Z.lor_assoc. do 2 f_equal. lia.
    + assert (ntogo = 0) by lia. subst ntogo.
      cbn [andb Z.to_nat Nat.min circ_read]. unfold rd_advance.
      cbn [circ_advance]. rewrite set_rdptr_same.
      change (le_combine []) with 0.
      now rewrite Z.shiftl_0_l, Z.lor_0_r, Z.sub_0_r.
Qed.

(** The byte loop run from [w = 0], [i = 0]: one word holding the next
    [min 4 ntogo] bytes of the queue. *)
Lemma wq_bytes_word q ntogo :
  0 < ntogo < 2 ^ 32 ->
  exists w,
    wq_bytes 4 m q ntogo 0 0 =
    (rd_advance q (Nat.min 4 (Z.to_nat ntogo)),
     ntogo - Z.of_nat (Nat.min 4 (Z.to_nat ntogo)), w) /\
    chunk m [w] (Nat.min 4 (Z.to_nat ntogo)) q.
Proof.
  intros Hn. eexists. split.
  - apply wq_bytes_spec; lia.
  - set (k := Nat.min 4 (Z.to_nat ntogo)).
    assert (Hk : (1 <= k <= 4)%nat) by lia.
    split.
    + cbn [length]. clearbody k.
      assert (E : (k = 1 \/ k = 2 \/ k = 3 \/ k = 4)%nat) by lia.
      destruct E as [-> | [-> | [-> | ->]]]; reflexivity.
    + unfold bytes_of. cbn [flat_map]. rewrite app_nil_r.
      rewrite Z.lor_0_l. change (0 * 8) with 0. rewrite Z.shiftl_0_r.
      rewrite firstn_le_split by lia.
      rewrite <- (length_circ_read m (q_buffer q) (q_top q) k (q_rdptr q))
        at 1.
      apply split_le_combine.
Qed.

Lemma wq_streak_bounds q ntogo :
  rd_ok q -> 0 <= ntogo ->
  0 <= wq_streak q ntogo /\ 4 * wq_streak q ntogo <= ntogo /\
  q_rdptr q + 4 * wq_streak q ntogo <= q_top q /\
  (wq_streak q ntogo <= 0 -> ntogo / 4 <= 0 \/ q_top q - q_rdptr q < 4 \/
                             2 ^ 32 <= (q_top q - q_rdptr q) / 4).
Proof.
  intros Hq Hn. unfold wq_streak, rd_ok in *.
  rewrite Z.quot_div_nonneg by lia.
  set (d := (q_top q - q_rdptr q) / 4).
  assert (Hd : 0 <= d) by (apply Z.div_pos; lia).
  assert (Hd4 : 4 * d <= q_top q - q_rdptr q)
    by (apply Z.mul_div_le; lia).
  pose proof (u32_range d) as Hr.
  assert (Hle : u32 d <= d) by (apply Z.mod_le; lia).
  assert (Hn4 : 4 * (ntogo / 4) <= ntogo) by (apply Z.mul_div_le; lia).
  assert (Hn0 : 0 <= ntogo / 4) by (apply Z.div_pos; lia).
  destruct (Z.leb_spec (ntogo / 4) (u32 d)); repeat split; try lia.
  intros Hz. assert (E0 : u32 d = 0) by lia.
  destruct (Z.lt_ge_cases d (2 ^ 32)) as [Hsm | Hbig]; [|lia].
  rewrite u32_small in E0 by lia.
  right; left. subst d.
  destruct (Z.lt_ge_cases (q_top q - q_rdptr q) 4) as [|Hge]; [assumption|].
  assert (1 <= (q_top q - q_rdptr q) / 4)
    by (apply Z.div_le_lower_bound; lia).
  lia.
Qed.

End WriteFromQueue.

Section WriteLoop.

Variable m : mem.

Lemma otg_do_push_chunk q s :
  rd_ok q -> 0 <= s -> q_rdptr q + 4 * s <= q_top q ->
  chunk m (fst (otg_do_push m (q_rdptr q) (Z.to_nat s))) (4 * Z.to_nat s) q /\
  rd_advance q (4 * Z.to_nat s) =
  set_rdptr q (if q_top q <=? q_rdptr q + 4 * s
               then q_buffer q else q_rdptr q + 4 * s).
Proof.
  intros Hq Hs Hfit.
  destruct (otg_do_push_spec m (Z.to_nat s) (q_rdptr q)) as (_ & Hl & Hb).
  split; [split|].
  - rewrite Hl. div4 (4 * Z.to_nat s + 3)%nat. lia.
  - replace (4 * Z.to_nat s)%nat
      with (length (bytes_of (fst (otg_do_push m (q_rdptr q) (Z.to_nat s)))))
      at 1 by (rewrite length_bytes_of, Hl; reflexivity).
    rewrite firstn_all, Hb. symmetry. apply circ_read_linear. lia.
  - unfold rd_advance. rewrite circ_advance_linear by (unfold rd_ok in Hq; lia).
    replace (Z.of_nat (4 * Z.to_nat s)) with (4 * s) by lia. reflexivity.
Qed.

(** One round of the outer loop with bytes to go: at least one byte is
    consumed, the words pushed carry exactly the bytes consumed, and a
    round that does not consume a multiple of four bytes consumes all. *)
Lemma wq_body_step q ntogo fifo :
  rd_ok q -> 0 < ntogo < 2 ^ 32 ->
  exists c ws r,
    (0 < c <= Z.to_nat ntogo)%nat /\
    (c mod 4 = 0 \/ c = Z.to_nat ntogo)%nat /\
    chunk m ws c q /\
    wq_body m (q, ntogo, fifo) = Some r /\
    (r = Next (rd_advance q c, ntogo - Z.of_nat c, fifo ++ ws) \/
     (c = Z.to_nat ntogo /\
      r = Exit (rd_advance q c, ntogo - Z.of_nat c, fifo ++ ws))).
Proof.
  intros Hq Hn. unfold wq_body.
  assert (Hpos : (0 <? ntogo) = true) by (apply Z.ltb_lt; lia).
  rewrite Hpos. cbn [negb].
  destruct (Z.ltb_spec 0 (ntogo / 4)) as [Hnw | Hnw].
  - destruct (wq_streak_bounds q ntogo Hq ltac:(lia)) as (Hs0 & Hs4 & Hst & _).
    set (s := wq_streak q ntogo) in *.
    destruct (otg_do_push_chunk q s Hq Hs0 Hst) as (Hch & Hadv).
    pose proof (otg_do_push_spec m (Z.to_nat s) (q_rdptr q)) as (Hp & _ & _).
    destruct (otg_do_push m (q_rdptr q) (Z.to_nat s)) as [ws p'] eqn:E.
    cbn [fst snd] in *.
    replace (Z.of_nat (Z.to_nat s)) with s in Hp by lia. subst p'.
    rewrite (u32_small (ntogo - s * 4)) by lia.
    cbn [set_rdptr q_top q_rdptr q_buffer].
    destruct (Z.leb_spec (q_top q) (q_rdptr q + 4 * s)) as [Hw | Hw].
    + (* the cursor reached the top: continue *)
      exists (4 * Z.to_nat s)%nat, ws. eexists.
      unfold rd_ok in Hq.
      split; [lia|]. split; [left; div4 (4 * Z.to_nat s)%nat; lia|].
      split; [exact Hch|]. split; [reflexivity|]. left.
      rewrite Hadv. do 3 f_equal. lia.
    + destruct (Z.leb_spec (ntogo - s * 4) 0) as [Hz | Hnz].
      * (* nothing left: break *)
        exists (4 * Z.to_nat s)%nat, ws. eexists.
        split; [lia|]. split; [right; lia|].
        split; [exact Hch|]. split; [reflexivity|]. right.
        split; [lia|]. rewrite Hadv. do 3 f_equal. lia.
      * (* one byte at a time *)
        destruct (wq_bytes_word m (set_rdptr q (q_rdptr q + 4 * s))
                    (ntogo - s * 4) ltac:(lia)) as (w & Ew & Hcw).
        rewrite Ew.
        set (k := Nat.min 4 (Z.to_nat (ntogo - s * 4))) in *.
        exists (4 * Z.to_nat s + k)%nat, (ws ++ [w]). eexists.
        split; [lia|].
        split; [div4 (4 * Z.to_nat s + k)%nat; lia|].
        rewrite <- Hadv in Hcw, Ew |- *.
        split.
        { apply chunk_app; [exact Hch | left | exact Hcw].
          div4 (4 * Z.to_nat s)%nat. lia. }
        split; [reflexivity|]. left.
        rewrite rd_advance_add, <- app_assoc. do 3 f_equal. lia.
  - assert (Hlt : ntogo < 4) by (zdiv4 ntogo; lia).
    destruct (Z.leb_spec ntogo 0) as [Hz | Hnz]; [lia|].
    destruct (wq_bytes_word m q ntogo ltac:(lia)) as (w & Ew & Hcw).
    rewrite Ew.
    set (k := Nat.min 4 (Z.to_nat ntogo)) in *.
    exists k, [w]. eexists.
    split; [lia|]. split; [right; lia|].
    split; [exact Hcw|]. split; [reflexivity|]. now left.
Qed.

Lemma wq_loop_spec N : forall fuel q ntogo fifo,
  (Z.to_nat ntogo <= N)%nat ->
  rd_ok q -> 0 <= ntogo < 2 ^ 32 -> (Z.to_nat ntogo < fuel)%nat ->
  exists ws n',
    iterate fuel (wq_body m) (q, ntogo, fifo) =
    Some (rd_advance q (Z.to_nat ntogo), n', fifo ++ ws) /\
    chunk m ws (Z.to_nat ntogo) q.
Proof.
  induction N as [|N IH]; intros fuel q ntogo fifo HN Hq Hn Hfuel.
  - assert (ntogo = 0) by lia. subst ntogo.
    destruct fuel as [|fuel]; [lia|].
    exists [], 0. cbn [iterate wq_body Z.ltb Z.compare negb Z.to_nat].
    unfold rd_advance. cbn [circ_advance].
    rewrite set_rdptr_same, app_nil_r. split; [reflexivity | apply chunk_nil].
  - destruct (Z.eq_dec ntogo 0) as [-> | Hnz].
    + destruct fuel as [|fuel]; [lia|].
      exists [], 0. cbn [iterate wq_body Z.ltb Z.compare negb Z.to_nat].
      unfold rd_advance. cbn [circ_advance].
      rewrite set_rdptr_same, app_nil_r. split; [reflexivity | apply chunk_nil].
    + destruct fuel as [|fuel]; [lia|].
      destruct (wq_body_step q ntogo fifo Hq ltac:(lia))
        as (c & ws & r & Hc & Hmod & Hch & Hbody & Hr).
      cbn [iterate]. rewrite Hbody.
      destruct Hr as [-> | [Hall ->]].
      * destruct (IH fuel (rd_advance q c) (ntogo - Z.of_nat c) (fifo ++ ws))
          as (ws' & n' & Hit & Hch'); try lia.
        { now apply rd_advance_ok. }
        exists (ws ++ ws'), n'.
        rewrite Hit, rd_advance_add, app_assoc.
        replace (c + Z.to_nat (ntogo - Z.of_nat c))%nat with (Z.to_nat ntogo)
          by lia.
        split; [reflexivity|].
        replace (Z.to_nat ntogo) with (c + Z.to_nat (ntogo - Z.of_nat c))%nat
          by lia.
        apply chunk_app; [exact Hch | | exact Hch'].
        destruct Hmod; [now left | right; lia].
      * exists ws, (ntogo - Z.of_nat c). subst c.
        split; [reflexivity | exact Hch].
Qed.

End WriteLoop.

(** ** The queue update and wake-up *)

Section Wakeup.

Variable Q_OK : Z.

Lemma wake_waiting_spec waiting : forall k,
  fst (wake_waiting Q_OK waiting k) = [] /\
  rlist (snd (wake_waiting Q_OK waiting k)) = rlist k ++ waiting /\
  (forall t, In t waiting ->
             rdymsg (snd (wake_waiting Q_OK waiting k)) t = Q_OK) /\
  (forall t, ~ In t waiting ->
             rdymsg (snd (wake_waiting Q_OK waiting k)) t = rdymsg k t).
Proof.
  induction waiting as [|tp waiting IH]; intros k; cbn [wake_waiting].
  - cbn [fst snd]. rewrite app_nil_r. repeat split; intros t H; now destruct H.
  - unfold chSchReadyI.
    destruct (IH (set_rdymsg tp Q_OK (mkKernel (rlist k ++ [tp]) (rdymsg k))))
      as (Hw & Hr & Hin & Hout).
    repeat split.
    + exact Hw.
    + rewrite Hr. cbn [set_rdymsg rlist]. now rewrite <- app_assoc.
    + intros t Ht.
      destruct (in_dec Nat.eq_dec t waiting) as [Hi | Hni]; [now apply Hin|].
      rewrite Hout by assumption.
      destruct Ht as [-> | Ht]; [|contradiction].
      cbn [set_rdymsg rdymsg]. now rewrite Nat.eqb_refl.
    + intros t Ht. rewrite Hout by (intros Hi; apply Ht; now right).
      cbn [set_rdymsg rdymsg].
      destruct (Nat.eqb_spec t tp) as [-> | Hne]; [|reflexivity].
      exfalso. apply Ht. now left.
Qed.

Lemma queue_update_spec q n k :
  queue_updated Q_OK q n k (fst (queue_update Q_OK q n k))
                (snd (queue_update Q_OK q n k)).
Proof.
  unfold queue_update, queue_updated.
  destruct (wake_waiting_spec (q_waiting q) k) as (Hw & Hr & Hin & Hout).
  destruct (wake_waiting Q_OK (q_waiting q) k) as [waiting k'].
  cbn [fst snd] in *. subst waiting.
  cbn [q_counter q_waiting q_buffer q_top q_wrptr q_rdptr].
  repeat split; assumption.
Qed.

Variable m : mem.

Lemma otg_fifo_write_from_queue_spec fuel k q n :
  n = 0 \/ rd_ok q -> 0 <= n < 2 ^ 32 -> (Z.to_nat n < fuel)%nat ->
  exists ws,
    otg_fifo_write_from_queue Q_OK fuel m k q n =
    Some (ws, fst (queue_update Q_OK (rd_advance q (Z.to_nat n)) n k),
              snd (queue_update Q_OK (rd_advance q (Z.to_nat n)) n k)) /\
    chunk m ws (Z.to_nat n) q.
Proof.
  intros Hq Hn Hfuel. unfold otg_fifo_write_from_queue.
  assert (H : exists ws n',
             iterate fuel (wq_body m) (q, n, []) =
             Some (rd_advance q (Z.to_nat n), n', [] ++ ws) /\
             chunk m ws (Z.to_nat n) q).
  { destruct (Z.eq_dec n 0) as [-> | Hnz].
    - destruct fuel; [lia|].
      exists [], 0. cbn [iterate wq_body Z.ltb Z.compare negb Z.to_nat].
      unfold rd_advance. cbn [circ_advance].
      rewrite set_rdptr_same. split; [reflexivity | apply chunk_nil].
    - destruct Hq as [? | Hq]; [contradiction|].
      now apply (wq_loop_spec m (Z.to_nat n)). }
  destruct H as (ws & n' & Hit & Hch).
  exists ws. split; [|exact Hch].
  rewrite Hit. cbn [app].
  now destruct (queue_update Q_OK (rd_advance q (Z.to_nat n)) n k).
Qed.

End Wakeup.

(** C9.  For every byte count [n] (zero included, for which the queue is
    not even looked at), [otg_fifo_write_from_queue] returns, adds [n] to
    the counter of the queue in [size_t] arithmetic, empties the waiting
    list, and makes every thread that was on it ready with the message
    [Q_OK]; the other threads keep their message. *)
Theorem otg_fifo_write_from_queue_wakes (Q_OK : Z) (m : mem) (fuel : nat)
  (k : kernel) (oqp : OutputQueue) (n : Z) :
  n = 0 \/ rd_ok oqp -> 0 <= n < 2 ^ 32 -> (Z.to_nat n < fuel)%nat ->
  exists ws oqp' k',
    otg_fifo_write_from_queue Q_OK fuel m k oqp n = Some (ws, oqp', k') /\
    q_counter oqp' = u32 (q_counter oqp + n) /\
    (0 <= q_counter oqp -> q_counter oqp + n < 2 ^ 32 ->
     q_counter oqp' = q_counter oqp + n) /\
    q_waiting oqp' = [] /\
    rlist k' = rlist k ++ q_waiting oqp /\
    (forall t, In t (q_waiting oqp) -> rdymsg k' t = Q_OK) /\
    (forall t, ~ In t (q_waiting oqp) -> rdymsg k' t = rdymsg k t).
Proof.
  intros Hq Hn Hfuel.
  destruct (otg_fifo_write_from_queue_spec Q_OK m fuel k oqp n Hq Hn Hfuel)
    as (ws & Hrun & _).
  pose proof (queue_update_spec Q_OK (rd_advance oqp (Z.to_nat n)) n k)
    as (Hc & Hw & _ & _ & _ & _ & Hr & Hin & Hout).
  change (q_counter (rd_advance oqp (Z.to_nat n))) with (q_counter oqp) in Hc.
  change (q_waiting (rd_advance oqp (Z.to_nat n))) with (q_waiting oqp)
    in Hr, Hin, Hout.
  do 3 eexists. split; [exact Hrun|].
  repeat split; try assumption.
  intros H0 Hlt. rewrite Hc. apply u32_small. lia.
Qed.

Lemma otg_fifo_write_from_queue_wakes_witness :
  exists ws oqp' k',
    otg_fifo_write_from_queue 0 11 (fun a => byte.of_Z a)
      (mkKernel [] (fun _ => 7)) (mkQueue [1%nat; 2%nat] 5 100 110 100 104) 10
    = Some (ws, oqp', k') /\
    q_counter oqp' = 15 /\ q_waiting oqp' = [] /\ rlist k' = [1%nat; 2%nat].
Proof.
  destruct (otg_fifo_write_from_queue_wakes 0 (fun a => byte.of_Z a) 11
              (mkKernel [] (fun _ => 7))
              (mkQueue [1%nat; 2%nat] 5 100 110 100 104) 10)
    as (ws & q' & k' & Hrun & Hc & _ & Hw & Hr & _).
  - right. unfold rd_ok. cbn. lia.
  - vm_compute. split; [discriminate | reflexivity].
  - vm_compute. lia.
  - exists ws, q', k'. repeat split; assumption.
Defined.

(** ** The transmit fill engine *)

Section FillFacts.

Variable Q_OK : Z.
Variable MASK : Z.
Variable DTXFSTS : nat -> Z.
Variable M : Z.
Variable m : mem.

Local Abbreviation body := (txfifo_body Q_OK MASK DTXFSTS M m).
Local Abbreviation space := (txfifo_space MASK).
Local Abbreviation packet_size := (next_packet M).

Lemma next_packet_spec s :
  fill_ok s -> 0 < M -> txcnt (f_isp s) < txsize (f_isp s) ->
  0 < packet_size (f_isp s) <= M /\
  packet_size (f_isp s) <= remaining s /\
  (packet_size (f_isp s) < M -> packet_size (f_isp s) = remaining s).
Proof.
  intros (Hc & Hs & _) HM Hlt. unfold next_packet, remaining.
  rewrite u32_small by lia.
  destruct (Z.ltb_spec M (txsize (f_isp s) - txcnt (f_isp s))); lia.
Qed.

(** The handler leaves at once when nothing remains. *)
Lemma txfifo_body_done fuel s :
  txsize (f_isp s) <= txcnt (f_isp s) -> body fuel s = Some (Exit (true, s)).
Proof.
  intros H. unfold txfifo_body. apply Z.leb_le in H. now rewrite H.
Qed.

(** The handler leaves at once when the next packet does not fit. *)
Lemma txfifo_body_busy fuel s :
  txcnt (f_isp s) < txsize (f_isp s) ->
  space (DTXFSTS (f_reads s)) < packet_size (f_isp s) ->
  body fuel s =
  Some (Exit (false, mkFill (f_isp s) (f_kernel s) (Datatypes.S (f_reads s))
                            (f_fifo s) (f_packets s))).
Proof.
  intros Hlt Hsp. unfold txfifo_body.
  apply Z.leb_gt in Hlt. rewrite Hlt.
  apply Z.ltb_lt in Hsp. now rewrite Hsp.
Qed.

(** One packet is pushed and counted when it fits. *)
Lemma txfifo_body_push fuel s :
  fill_ok s -> 0 < M ->
  txcnt (f_isp s) < txsize (f_isp s) ->
  packet_size (f_isp s) <= space (DTXFSTS (f_reads s)) ->
  (Z.to_nat (remaining s) < fuel)%nat ->
  exists s1,
    body fuel s = Some (Next s1) /\
    fill_ok s1 /\
    txsize (f_isp s1) = txsize (f_isp s) /\
    txcnt (f_isp s1) = txcnt (f_isp s) + packet_size (f_isp s) /\
    f_reads s1 = Datatypes.S (f_reads s) /\
    f_packets s1 =
    f_packets s ++ [mkPacket (packet_size (f_isp s))
                             (txcnt (f_isp s) + packet_size (f_isp s))].
Proof.
  intros Hok HM Hlt Hsp Hfuel.
  destruct (next_packet_spec s Hok HM Hlt) as (Hn & Hrem & _).
  destruct Hok as (Hc & Hs & Hq).
  unfold remaining in *. unfold txfifo_body.
  apply Z.leb_gt in Hlt. rewrite Hlt. apply Z.leb_gt in Hlt.
  apply Z.ltb_ge in Hsp. rewrite Hsp.
  cbn [f_kernel f_reads f_fifo f_packets].
  set (n := packet_size (f_isp s)) in *.
  rewrite (u32_small (txcnt (f_isp s) + n)) by lia.
  destruct (mode (f_isp s)) as [txbuf | q] eqn:Emode.
  - eexists. split; [reflexivity|].
    unfold fill_ok. cbn [f_isp txcnt txsize mode f_reads f_packets].
    repeat split; try lia.
  - destruct (otg_fifo_write_from_queue_spec Q_OK m fuel (f_kernel s) q n)
      as (ws & Hrun & _); [now right | lia | lia |].
    rewrite Hrun.
    pose proof (queue_update_spec Q_OK (rd_advance q (Z.to_nat n)) n
                  (f_kernel s)) as (_ & _ & Hb & Ht & _ & Hr & _).
    pose proof (rd_advance_ok q (Z.to_nat n) Hq) as Hadv.
    eexists. split; [reflexivity|].
    unfold fill_ok. cbn [f_isp txcnt txsize mode f_reads f_packets].
    repeat split; try lia; unfold rd_ok in *; rewrite ?Hb, ?Ht, ?Hr; lia.
Qed.

(** The handler returns, whatever the FIFO status register says, and its
    result is tied to the packets it pushed. *)
Lemma fill_run N : forall fuel f s,
  fill_ok s -> 0 < M ->
  (Z.to_nat (remaining s) <= N)%nat ->
  (Z.to_nat (remaining s) < f)%nat ->
  (Z.to_nat (remaining s) < fuel)%nat ->
  exists b s' new,
    iterate f (body fuel) s = Some (b, s') /\
    f_packets s' = f_packets s ++ new /\
    txsize (f_isp s') = txsize (f_isp s) /\
    txcnt (f_isp s') = txcnt (f_isp s) + pushed new /\
    Forall (fun p => 0 < pk_size p <= M /\
                     (pk_size p < M -> pk_txcnt p = txsize (f_isp s))) new /\
    (b = true -> txcnt (f_isp s') = txsize (f_isp s')) /\
    (b = false ->
     txcnt (f_isp s') < txsize (f_isp s') /\
     (0 < f_reads s')%nat /\
     space (DTXFSTS (Nat.pred (f_reads s'))) < packet_size (f_isp s')) /\
    ((forall k, M <= space (DTXFSTS k)) ->
     b = true /\ Z.of_nat (length new) = (remaining s + M - 1) / M) /\
    fill_ok s' /\ counted (txcnt (f_isp s)) new.
Proof.
  induction N as [|N IH]; intros fuel f s Hok HM HN Hf Hfuel.
  - destruct f as [|f]; [lia|].
    assert (Hdone : txsize (f_isp s) <= txcnt (f_isp s))
      by (unfold remaining in HN; lia).
    exists true, s, []. cbn [iterate]. rewrite txfifo_body_done by assumption.
    rewrite app_nil_r. cbn [pushed fold_right length counted].
    pose proof Hok as (Hc & _). unfold remaining.
    split; [reflexivity|]. split; [reflexivity|]. split; [reflexivity|].
    split; [lia|]. split; [constructor|]. split; [lia|].
    split; [discriminate|].
    split; [|split; [exact Hok | exact I]].
    intros _. split; [reflexivity|].
    replace (txsize (f_isp s) - txcnt (f_isp s)) with 0 by lia.
    symmetry. apply Z.div_small. lia.
  - destruct f as [|f]; [lia|].
    destruct (Z.le_gt_cases (txsize (f_isp s)) (txcnt (f_isp s)))
      as [Hdone | Hlt].
    + exists true, s, []. cbn [iterate]. rewrite txfifo_body_done by assumption.
      rewrite app_nil_r. cbn [pushed fold_right length counted].
      pose proof Hok as (Hc & _). unfold remaining.
      split; [reflexivity|]. split; [reflexivity|]. split; [reflexivity|].
      split; [lia|]. split; [constructor|]. split; [lia|].
      split; [discriminate|].
      split; [|split; [exact Hok | exact I]].
      intros _. split; [reflexivity|].
      replace (txsize (f_isp s) - txcnt (f_isp s)) with 0 by lia.
      symmetry. apply Z.div_small. lia.
    + destruct (next_packet_spec s Hok HM Hlt) as (Hn & Hrem & Hlast).
      destruct (Z.lt_ge_cases (space (DTXFSTS (f_reads s)))
                              (packet_size (f_isp s))) as [Hbusy | Hfits].
      * eexists false, _, []. cbn [iterate].
        rewrite txfifo_body_busy by assumption.
        split; [reflexivity|].
        rewrite app_nil_r. cbn [pushed fold_right f_isp f_reads f_packets].
        split; [reflexivity|]. split; [reflexivity|].
        split; [lia|]. split; [constructor|]. split; [discriminate|].
        split.
        { intros _. cbn [Nat.pred]. repeat split; [lia | lia | exact Hbusy]. }
        split; [intros Hall; specialize (Hall (f_reads s)); lia|].
        split; [exact Hok | exact I].
      * destruct (txfifo_body_push fuel s Hok HM Hlt Hfits Hfuel)
          as (s1 & Hbody & Hok1 & Hsz1 & Hcnt1 & Hrd1 & Hpk1).
        assert (Hrem1 : remaining s1 = remaining s - packet_size (f_isp s))
          by (unfold remaining; lia).
        destruct (IH fuel f s1 Hok1 HM) as
          (b & s' & new & Hit & Hpk & Hsz & Hcnt & Hall & Ht & Hfl & Hun &
           Hok' & Hctd);
          try lia.
        exists b, s', (mkPacket (packet_size (f_isp s))
                                (txcnt (f_isp s) + packet_size (f_isp s))
                         :: new).
        cbn [iterate]. rewrite Hbody, Hit.
        split; [reflexivity|].
        split; [rewrite Hpk, Hpk1, <- app_assoc; reflexivity|].
        split; [lia|].
        split; [cbn [pushed fold_right pk_size]; fold (pushed new); lia|].
        split.
        { constructor.
          - cbn [pk_size pk_txcnt]. split; [lia|]. intros Hsmall.
            specialize (Hlast Hsmall). unfold remaining in Hlast. lia.
          - eapply Forall_impl; [|exact Hall]. cbn beta.
            intros p (Hp & Hp'). split; [exact Hp|]. now rewrite <- Hsz1. }
        split; [exact Ht|]. split; [exact Hfl|].
        split; [|split; [exact Hok'|];
                 cbn [counted pk_txcnt pk_size]; split; [reflexivity|];
                 now rewrite <- Hcnt1].
        intros Hunl. destruct (Hun Hunl) as (-> & Hlen).
        split; [reflexivity|].
        cbn [length]. rewrite Nat2Z.inj_succ, Hlen, Hrem1.
        replace (remaining s + M - 1)
          with (remaining s - packet_size (f_isp s) + M - 1 +
                packet_size (f_isp s)) by lia.
        destruct (Z.eq_dec (packet_size (f_isp s)) M) as [E | E].
        -- rewrite E.
           replace (remaining s - M + M - 1 + M)
             with (remaining s - M + M - 1 + 1 * M) by lia.
           rewrite Z.div_add by lia. lia.
        -- rewrite Hlast by lia.
           replace (remaining s - remaining s + M - 1) with (M - 1) by lia.
           rewrite Z.div_small by lia.
           replace (M - 1 + remaining s) with (remaining s - 1 + 1 * M) by lia.
           rewrite Z.div_add by lia.
           rewrite Z.div_small by lia. lia.
Qed.

End FillFacts.

Lemma txfifo_true_done Q_OK MASK DTXFSTS M m fuel f : forall s s',
  iterate f (txfifo_body Q_OK MASK DTXFSTS M m fuel) s = Some (true, s') ->
  txsize (f_isp s') <= txcnt (f_isp s').
Proof.
  induction f as [|f IH]; intros s s'; cbn [iterate]; [discriminate|].
  unfold txfifo_body at 1.
  destruct (Z.leb_spec (txsize (f_isp s)) (txcnt (f_isp s))) as [Hd | Hlt].
  - intros H; inversion H; subst. exact Hd.
  - destruct (txfifo_space MASK (DTXFSTS (f_reads s))
              <? next_packet M (f_isp s)); [discriminate|].
    destruct (mode (f_isp s)) as [txbuf | q]; [apply IH|].
    cbn [f_kernel].
    destruct (otg_fifo_write_from_queue Q_OK fuel m (f_kernel s) q
                (next_packet M (f_isp s))) as [[[ws q'] k']|];
      [apply IH | discriminate].
Qed.

Lemma pushed_positive new :
  Forall (fun p => 0 < pk_size p) new -> pushed new <= 0 -> new = [].
Proof.
  intros H. destruct H as [|p new Hp Hrest]; [reflexivity|].
  cbn [pushed fold_right]. fold (pushed new).
  assert (0 <= pushed new).
  { clear Hp. induction Hrest as [|q new Hq _ IH];
      cbn [pushed fold_right]; [lia | fold (pushed new); lia]. }
  lia.
Qed.

Lemma counted_last pre : forall c new p post T,
  counted c new -> Forall (fun p => 0 < pk_size p) new ->
  c + pushed new <= T ->
  new = pre ++ p :: post -> pk_txcnt p = T -> post = [].
Proof.
  induction pre as [|a pre IH]; intros c new p post T Hc Hpos Hle -> Hp.
  - cbn [app counted pushed fold_right] in *. fold (pushed post) in Hle.
    inversion Hpos as [|? ? _ Hpost]; subst.
    apply pushed_positive; [exact Hpost | lia].
  - cbn [app counted pushed fold_right] in *.
    fold (pushed (pre ++ p :: post)) in Hle.
    inversion Hpos as [|? ? Ha Hrest]; subst.
    destruct Hc as (Ea & Hc).
    eapply (IH (pk_txcnt a)); eauto. lia.
Qed.

(** C1, as amended.  With room in the TX FIFO for a full packet at every
    look, the handler run on a transfer of [T] bytes with maximum packet
    size [M > 0] returns [TRUE] after exactly [ceil(T/M)] packet pushes,
    which together carry [T] bytes; for [T = 0] that is no push at all. *)
Theorem fill_complete (Q_OK MASK : Z) (DTXFSTS : nat -> Z) (M : Z) (m : mem)
  (fuel : nat) (s : fill) :
  fill_ok s -> txcnt (f_isp s) = 0 -> 0 < M ->
  (forall k, M <= txfifo_space MASK (DTXFSTS k)) ->
  (Z.to_nat (txsize (f_isp s)) < fuel)%nat ->
  exists s' new,
    otg_txfifo_handler Q_OK MASK DTXFSTS M m fuel s = Some (true, s') /\
    f_packets s' = f_packets s ++ new /\
    Z.of_nat (length new) = (txsize (f_isp s) + M - 1) / M /\
    txsize (f_isp s) <= Z.of_nat (length new) * M < txsize (f_isp s) + M /\
    (txsize (f_isp s) = 0 -> new = []) /\
    pushed new = txsize (f_isp s) /\
    txcnt (f_isp s') = txsize (f_isp s).
Proof.
  intros Hok H0 HM Hunl Hfuel.
  assert (Hrem : remaining s = txsize (f_isp s)) by (unfold remaining; lia).
  destruct (fill_run Q_OK MASK DTXFSTS M m (Z.to_nat (remaining s)) fuel fuel s)
    as (b & s' & new & Hrun & Hpk & Hsz & Hcnt & _ & Ht & _ & Hun & _);
    try assumption; try lia.
  destruct (Hun Hunl) as (-> & Hlen). specialize (Ht eq_refl).
  rewrite Hrem in Hlen.
  exists s', new. unfold otg_txfifo_handler.
  split; [exact Hrun|]. split; [exact Hpk|]. split; [exact Hlen|].
  pose proof (Z.div_mod (txsize (f_isp s) + M - 1) M ltac:(lia)) as Hdm.
  pose proof (Z.mod_pos_bound (txsize (f_isp s) + M - 1) M HM) as Hmb.
  split; [rewrite Hlen, Z.mul_comm; lia|].
  split; [|split; lia].
  intros Hz. rewrite Hz in Hlen.
  rewrite Z.div_small in Hlen by lia.
  destruct new; [reflexivity | discriminate].
Qed.

Lemma fill_complete_witness :
  exists s' new,
    otg_txfifo_handler 0 65535 (fun _ => 100) 64 (fun a => byte.of_Z a) 131
      (mkFill (mkInState 130 0 (Linear 100)) (mkKernel [] (fun _ => 0))
              0 [] []) = Some (true, s') /\
    f_packets s' = new /\ Z.of_nat (length new) = 3.
Proof.
  destruct (fill_complete 0 65535 (fun _ => 100) 64 (fun a => byte.of_Z a) 131
              (mkFill (mkInState 130 0 (Linear 100)) (mkKernel [] (fun _ => 0))
                      0 [] []))
    as (s' & new & Hrun & Hpk & Hlen & _).
  - unfold fill_ok. cbn. repeat split; lia.
  - reflexivity.
  - lia.
  - intros k. vm_compute. discriminate.
  - vm_compute. lia.
  - exists s', new. repeat split; assumption.
Defined.

(** C1, as stated, fails for [T = 0]: the handler returns [TRUE] at once
    and pushes nothing, where the claim has one zero-length push. *)
Lemma fill_complete_counterexample :
  exists s',
    otg_txfifo_handler 0 65535 (fun _ => 100) 64 (fun a => byte.of_Z a) 10
      (mkFill (mkInState 0 0 (Linear 100)) (mkKernel [] (fun _ => 0))
              0 [] []) = Some (true, s') /\
    f_packets s' = [] /\ f_fifo s' = [] /\ length (f_packets s') <> 1%nat.
Proof.
  eexists. split; [reflexivity|]. cbn. repeat split. discriminate.
Qed.

(** C7.  Entered with bytes remaining and less free space in the TX FIFO
    than the next packet needs, the handler returns [FALSE] at once: the
    transfer state, the FIFO and the packet log are as they were.  For a
    transfer in progress with [M > 0] the handler returns, [txcnt] has
    advanced by exactly the sizes of the packets pushed, [TRUE] comes with
    [txcnt = txsize], and [FALSE] comes with bytes remaining and a last
    look at the FIFO that found less room than the next packet needs.
    And whenever the handler returns [TRUE], [txcnt] has reached
    [txsize]. *)
Theorem txfifo_busy_not_done (Q_OK MASK : Z) (DTXFSTS : nat -> Z) (M : Z)
  (m : mem) (fuel : nat) (s : fill) :
  ((0 < fuel)%nat ->
   txcnt (f_isp s) < txsize (f_isp s) ->
   txfifo_space MASK (DTXFSTS (f_reads s)) < next_packet M (f_isp s) ->
   otg_txfifo_handler Q_OK MASK DTXFSTS M m fuel s =
   Some (false, mkFill (f_isp s) (f_kernel s) (Datatypes.S (f_reads s))
                       (f_fifo s) (f_packets s))) /\
  (fill_ok s -> 0 < M -> (Z.to_nat (remaining s) < fuel)%nat ->
   exists b s' new,
      otg_txfifo_handler Q_OK MASK DTXFSTS M m fuel s = Some (b, s') /\
      f_packets s' = f_packets s ++ new /\
      txcnt (f_isp s') = txcnt (f_isp s) + pushed new /\
      txsize (f_isp s') = txsize (f_isp s) /\
      (b = true -> txcnt (f_isp s') = txsize (f_isp s')) /\
      (b = false ->
       txcnt (f_isp s') < txsize (f_isp s') /\
       txfifo_space MASK (DTXFSTS (Nat.pred (f_reads s')))
       < next_packet M (f_isp s'))) /\
  (forall f s0 s1,
      otg_txfifo_handler Q_OK MASK DTXFSTS M m f s0 = Some (true, s1) ->
      txsize (f_isp s1) <= txcnt (f_isp s1)).
Proof.
  split; [|split].
  - intros Hfuel Hlt Hbusy. unfold otg_txfifo_handler.
    destruct fuel as [|fuel]; [lia|]. cbn [iterate].
    now rewrite txfifo_body_busy.
  - intros Hok HM Hfuel.
    destruct (fill_run Q_OK MASK DTXFSTS M m (Z.to_nat (remaining s))
                fuel fuel s)
      as (b & s' & new & Hrun & Hpk & Hsz & Hcnt & _ & Ht & Hf & _);
      try assumption; try lia.
    exists b, s', new. unfold otg_txfifo_handler.
    repeat split; try assumption; now apply Hf.
  - intros f s0 s1. unfold otg_txfifo_handler. apply txfifo_true_done.
Qed.

Lemma txfifo_busy_not_done_witness :
  otg_txfifo_handler 0 65535 (fun _ => 8) 64 (fun a => byte.of_Z a) 131
    (mkFill (mkInState 130 64 (Linear 164)) (mkKernel [] (fun _ => 0))
            1 [] [mkPacket 64 64]) =
  Some (false, mkFill (mkInState 130 64 (Linear 164))
                      (mkKernel [] (fun _ => 0)) 2 [] [mkPacket 64 64]) /\
  exists b s' new,
    otg_txfifo_handler 0 65535 (fun _ => 8) 64 (fun a => byte.of_Z a) 131
      (mkFill (mkInState 130 64 (Linear 164)) (mkKernel [] (fun _ => 0))
              1 [] [mkPacket 64 64]) = Some (b, s') /\
    f_packets s' = [mkPacket 64 64] ++ new /\
    txcnt (f_isp s') = 64 + pushed new.
Proof.
  destruct (txfifo_busy_not_done 0 65535 (fun _ => 8) 64 (fun a => byte.of_Z a)
              131
              (mkFill (mkInState 130 64 (Linear 164))
                      (mkKernel [] (fun _ => 0)) 1 [] [mkPacket 64 64]))
    as (Hbusy & Hrun & _).
  split.
  - apply Hbusy; [lia | vm_compute; reflexivity | vm_compute; reflexivity].
  - destruct Hrun as (b & s' & new & Hr & Hpk & Hcnt & _).
    + unfold fill_ok. cbn. repeat split; lia.
    + lia.
    + vm_compute. lia.
    + exists b, s', new. repeat split; assumption.
Defined.

(** C8.  The handler returns, and in the packets it pushed every packet
    shorter than [M] is the last one and brings [txcnt] to [txsize]. *)
Theorem txfifo_short_packet_last (Q_OK MASK : Z) (DTXFSTS : nat -> Z) (M : Z)
  (m : mem) (fuel : nat) (s : fill) :
  fill_ok s -> 0 < M -> (Z.to_nat (remaining s) < fuel)%nat ->
  exists b s' new,
    otg_txfifo_handler Q_OK MASK DTXFSTS M m fuel s = Some (b, s') /\
    f_packets s' = f_packets s ++ new /\
    counted (txcnt (f_isp s)) new /\
    forall pre p post,
      new = pre ++ p :: post ->
      0 < pk_size p <= M /\
      (pk_size p < M ->
       pk_txcnt p = txsize (f_isp s) /\ post = [] /\
       txcnt (f_isp s') = txsize (f_isp s)).
Proof.
  intros Hok HM Hfuel.
  destruct (fill_run Q_OK MASK DTXFSTS M m (Z.to_nat (remaining s))
              fuel fuel s)
    as (b & s' & new & Hrun & Hpk & Hsz & Hcnt & Hall & _ & _ & _ & Hok' &
        Hctd);
    try assumption; try lia.
  exists b, s', new. unfold otg_txfifo_handler.
  split; [exact Hrun|]. split; [exact Hpk|]. split; [exact Hctd|].
  intros pre p post Hnew.
  assert (Hin : In p new) by (rewrite Hnew; apply in_elt).
  rewrite Forall_forall in Hall. destruct (Hall p Hin) as (Hp & Hshort).
  split; [exact Hp|]. intros Hlt. specialize (Hshort Hlt).
  destruct Hok' as (Hc' & _).
  assert (Hpost : post = []).
  { eapply (counted_last pre (txcnt (f_isp s)) new p post (txsize (f_isp s)));
      eauto.
    - apply Forall_forall. intros x Hx. now destruct (Hall x Hx).
    - lia. }
  split; [exact Hshort|]. split; [exact Hpost|].
  subst post.
  assert (Hsum : forall c l q, counted c (l ++ [q]) ->
                               c + pushed (l ++ [q]) = pk_txcnt q).
  { intros c l. revert c.
    induction l as [|a l IHl]; intros c q; cbn [app counted pushed fold_right].
    - intros (E & _). lia.
    - fold (pushed (l ++ [q])). intros (E & Hrest).
      specialize (IHl _ _ Hrest). lia. }
  rewrite Hnew in Hctd, Hcnt. specialize (Hsum _ _ _ Hctd). lia.
Qed.

Lemma txfifo_short_packet_last_witness :
  exists b s' new,
    otg_txfifo_handler 0 65535 (fun _ => 100) 64 (fun a => byte.of_Z a) 131
      (mkFill (mkInState 130 0 (Linear 100)) (mkKernel [] (fun _ => 0))
              0 [] []) = Some (b, s') /\
    f_packets s' = new /\
    forall pre p post,
      new = pre ++ p :: post ->
      0 < pk_size p <= 64 /\
      (pk_size p < 64 ->
       pk_txcnt p = 130 /\ post = [] /\ txcnt (f_isp s') = 130).
Proof.
  destruct (txfifo_short_packet_last 0 65535 (fun _ => 100) 64
              (fun a => byte.of_Z a) 131
              (mkFill (mkInState 130 0 (Linear 100))
                      (mkKernel [] (fun _ => 0)) 0 [] []))
    as (b & s' & new & Hrun & Hpk & _ & Hlast).
  - unfold fill_ok. cbn. repeat split; lia.
  - lia.
  - vm_compute. lia.
  - exists b, s', new.
    repeat split; try assumption; now apply (Hlast pre p post).
Defined.

(** ** [otg_fifo_read_to_queue] *)

Lemma set_wrptr_same q : set_wrptr q (q_wrptr q) = q.
Proof. now destruct q. Qed.

Lemma le_split_nth k : forall w,
  le_split k w =
  map (fun i => byte.of_Z (Z.shiftr w (Z.of_nat i * 8))) (seq 0 k).
Proof.
  induction k as [|k IH]; intros w; [reflexivity|].
  change (le_split (Datatypes.S k) w)
    with (byte.of_Z w :: le_split k (Z.shiftr w 8)).
  cbn [seq map]. f_equal.
  rewrite IH, <- seq_shift, map_map. apply map_ext. intros i.
  rewrite Z.shiftr_shiftr by lia. do 2 f_equal. lia.
Qed.

Lemma map_seq_add {A} (f : nat -> A) a len : forall s,
  map f (seq (a + s) len) = map (fun i => f (a + i)%nat) (seq s len).
Proof.
  induction len as [|len IH]; intros s; cbn [seq map]; [reflexivity|].
  f_equal. rewrite <- Nat.add_succ_r. apply IH.
Qed.

Lemma byte_copy_app bs1 : forall bs2 m B T p,
  byte_copy (bs1 ++ bs2) m B T p =
  byte_copy bs2 (fst (byte_copy bs1 m B T p)) B T (snd (byte_copy bs1 m B T p)).
Proof.
  induction bs1 as [|b bs1 IH]; intros bs2 m B T p; cbn [app byte_copy fst snd];
    [reflexivity | apply IH].
Qed.

Lemma byte_copy_cursor bs : forall m B T p,
  snd (byte_copy bs m B T p) = circ_advance B T p (length bs).
Proof.
  induction bs as [|b bs IH]; intros m B T p;
    cbn [byte_copy length circ_advance snd]; [reflexivity | apply IH].
Qed.

(** The bytes of a packet, one FIFO word at a time. *)
Lemma packet_bytes_word rx n :
  packet_bytes rx n =
  le_split (Nat.min 4 n) (u32 (rx_words rx (rx_pos rx))) ++
  packet_bytes (rx_next rx) (n - Nat.min 4 n).
Proof.
  unfold packet_bytes.
  replace n with (Nat.min 4 n + (n - Nat.min 4 n))%nat at 1 by lia.
  rewrite seq_app, map_app. f_equal.
  - rewrite le_split_nth. apply map_ext_in. intros i Hi.
    apply in_seq in Hi. unfold packet_byte.
    rewrite Nat.div_small, Nat.mod_small by lia. reflexivity.
  - destruct (Nat.le_gt_cases n 4) as [Hle | Hgt].
    + replace (n - Nat.min 4 n)%nat with 0%nat by lia. reflexivity.
    + replace (Nat.min 4 n) with 4%nat by lia.
      replace (0 + 4)%nat with (4 + 0)%nat by lia.
      rewrite map_seq_add. apply map_ext. intros i.
      unfold packet_byte, rx_next. cbn [rx_words rx_pos].
      div4 i. div4 (4 + i)%nat.
      replace ((4 + i) / 4)%nat with (Datatypes.S (i / 4)) by lia.
      replace ((4 + i) mod 4)%nat with (i mod 4)%nat by lia.
      now rewrite Nat.add_succ_r.
Qed.

Section ReadLoop.

Lemma rq_streak_zero q ntogo :
  rq_nw2end q = 0 /\ (0 < ntogo / 4 -> rq_streak q ntogo = 0).
Proof.
  assert (E : rq_nw2end q = 0)
    by (unfold rq_nw2end; now rewrite Z.sub_diag).
  split; [exact E|]. intros H. unfold rq_streak. rewrite E.
  destruct (Z.leb_spec (ntogo / 4) 0); [lia | reflexivity].
Qed.

Lemma rq_bytes_spec fuel : forall m q ntogo w i,
  0 <= i -> i + Z.of_nat fuel = 4 -> 0 <= ntogo < 2 ^ 32 ->
  rq_bytes fuel m q ntogo w i =
  (fst (byte_copy (le_split (Nat.min fuel (Z.to_nat ntogo))
                            (Z.shiftr w (i * 8)))
                  m (q_buffer q) (q_top q) (q_wrptr q)),
   wr_advance q (Nat.min fuel (Z.to_nat ntogo)),
   ntogo - Z.of_nat (Nat.min fuel (Z.to_nat ntogo))).
Proof.
  induction fuel as [|fuel IH]; intros m q ntogo w i Hi Hf Hn.
  - cbn [rq_bytes Nat.min]. unfold wr_advance. cbn [circ_advance].
    rewrite set_wrptr_same, Z.sub_0_r. reflexivity.
  - cbn [rq_bytes]. destruct (Z.ltb_spec 0 ntogo) as [Hpos | Hz].
    + assert (Hi4 : (i <? 4) = true) by (apply Z.ltb_lt; lia).
      rewrite Hi4. cbn [andb].
      replace (Z.to_nat ntogo) with (Datatypes.S (Z.to_nat (ntogo - 1)))
        by lia.
      cbn [Nat.min].
      change (le_split (Datatypes.S (Nat.min fuel (Z.to_nat (ntogo - 1))))
                       (Z.shiftr w (i * 8)))
        with (byte.of_Z (Z.shiftr w (i * 8))
              :: le_split (Nat.min fuel (Z.to_nat (ntogo - 1)))
                          (Z.shiftr (Z.shiftr w (i * 8)) 8)).
      cbn [byte_copy].
      rewrite (u32_small (ntogo - 1)) by lia.
      cbn [set_wrptr q_top q_wrptr q_buffer].
      replace (if q_top q <=? q_wrptr q + 1
               then set_wrptr (set_wrptr q (q_wrptr q + 1)) (q_buffer q)
               else set_wrptr q (q_wrptr q + 1))
        with (set_wrptr q (circ_next (q_buffer q) (q_top q) (q_wrptr q)))
        by (unfold circ_next; now destruct (q_top q <=? q_wrptr q + 1)).
      rewrite IH by lia.
      unfold wr_advance.
      cbn [set_wrptr q_top q_wrptr q_buffer q_waiting q_counter q_rdptr
           circ_advance].
      rewrite Z.shiftr_shiftr by lia.
      replace ((i + 1) * 8) with (i * 8 + 8) by lia.
      f_equal. lia.
    + assert (ntogo = 0) by lia. subst ntogo.
      cbn [andb Z.to_nat Nat.min]. unfold wr_advance. cbn [circ_advance].
      rewrite set_wrptr_same, Z.sub_0_r. reflexivity.
Qed.

(** One round of the outer loop with bytes to go: one word is popped and
    its first [min 4 ntogo] bytes are copied one by one. *)
Lemma rq_body_step rx m q ntogo :
  wr_ok q -> 0 < ntogo < 2 ^ 32 ->
  rq_body (rx, m, q, ntogo) =
  Some (Next (rx_next rx,
              fst (byte_copy (le_split (Nat.min 4 (Z.to_nat ntogo))
                                       (u32 (rx_words rx (rx_pos rx))))
                             m (q_buffer q) (q_top q) (q_wrptr q)),
              wr_advance q (Nat.min 4 (Z.to_nat ntogo)),
              ntogo - Z.of_nat (Nat.min 4 (Z.to_nat ntogo)))).
Proof.
  intros Hq Hn. unfold rq_body.
  assert (Hpos : (0 <? ntogo) = true) by (apply Z.ltb_lt; lia).
  rewrite Hpos. cbn [negb].
  assert (Hnz : (ntogo <=? 0) = false) by (apply Z.leb_gt; lia).
  assert (Htop : (q_top q <=? q_wrptr q) = false)
    by (apply Z.leb_gt; unfold wr_ok in Hq; lia).
  destruct (Z.ltb_spec 0 (ntogo / 4)) as [Hnw | Hnw].
  - destruct (rq_streak_zero q ntogo) as (_ & Hs). rewrite (Hs Hnw).
    cbn [Z.to_nat otg_do_pop]. change (0 * 4) with 0.
    rewrite Z.sub_0_r, (u32_small ntogo) by lia.
    rewrite set_wrptr_same, Htop, Hnz.
    unfold rx_pop. rewrite rq_bytes_spec by lia.
    change (0 * 8) with 0. rewrite Z.shiftr_0_r. reflexivity.
  - rewrite Hnz.
    unfold rx_pop. rewrite rq_bytes_spec by lia.
    change (0 * 8) with 0. rewrite Z.shiftr_0_r. reflexivity.
Qed.

Lemma wr_advance_ok q c : wr_ok q -> wr_ok (wr_advance q c).
Proof.
  unfold wr_ok, wr_advance. cbn [set_wrptr q_buffer q_top q_wrptr].
  apply circ_advance_ok.
Qed.

Lemma rq_loop_spec N : forall fuel rx m q ntogo,
  (Z.to_nat ntogo <= N)%nat ->
  wr_ok q -> 0 <= ntogo < 2 ^ 32 -> (Z.to_nat ntogo < fuel)%nat ->
  iterate fuel rq_body (rx, m, q, ntogo) =
  Some (rx_skip rx (Z.to_nat ((ntogo + 3) / 4)),
        fst (byte_copy (packet_bytes rx (Z.to_nat ntogo)) m
                       (q_buffer q) (q_top q) (q_wrptr q)),
        wr_advance q (Z.to_nat ntogo), 0).
Proof.
  assert (Hbase : forall fuel rx m q, (0 < fuel)%nat ->
    iterate fuel rq_body (rx, m, q, 0) =
    Some (rx_skip rx (Z.to_nat ((0 + 3) / 4)),
          fst (byte_copy (packet_bytes rx (Z.to_nat 0)) m
                         (q_buffer q) (q_top q) (q_wrptr q)),
          wr_advance q (Z.to_nat 0), 0)).
  { intros fuel rx m q Hf. destruct fuel as [|fuel]; [lia|].
    cbn [iterate rq_body Z.ltb Z.compare negb Z.to_nat].
    unfold wr_advance, rx_skip, packet_bytes.
    cbn [circ_advance seq map byte_copy fst].
    change (Z.to_nat ((0 + 3) / 4)) with 0%nat. cbn [Nat.add].
    rewrite set_wrptr_same. now destruct rx. }
  induction N as [|N IH]; intros fuel rx m q ntogo HN Hq Hn Hfuel.
  - assert (ntogo = 0) by lia. subst ntogo. apply Hbase. lia.
  - destruct (Z.eq_dec ntogo 0) as [-> | Hnz]; [apply Hbase; lia|].
    destruct fuel as [|fuel]; [lia|].
    cbn [iterate]. rewrite rq_body_step by (assumption || lia).
    set (k := Nat.min 4 (Z.to_nat ntogo)) in *.
    rewrite IH; try lia; [|now apply wr_advance_ok].
    rewrite (packet_bytes_word rx (Z.to_nat ntogo)). fold k.
    rewrite byte_copy_app.
    unfold wr_advance at 1 2 3. cbn [set_wrptr q_buffer q_top q_wrptr].
    rewrite byte_copy_cursor, length_le_split.
    replace (Z.to_nat (ntogo - Z.of_nat k)) with (Z.to_nat ntogo - k)%nat
      by lia.
    assert (E1 : rx_skip (rx_next rx) (Z.to_nat ((ntogo - Z.of_nat k + 3) / 4))
                 = rx_skip rx (Z.to_nat ((ntogo + 3) / 4))).
    { unfold rx_skip, rx_next. cbn [rx_words rx_pos]. f_equal.
      zdiv4 (ntogo + 3). zdiv4 (ntogo - Z.of_nat k + 3).
      assert (Hk : Z.of_nat k = 4 \/ Z.of_nat k = ntogo) by lia.
      assert ((ntogo + 3) / 4 = (ntogo - Z.of_nat k + 3) / 4 + 1) by lia.
      lia. }
    assert (E2 : wr_advance (wr_advance q k) (Z.to_nat ntogo - k)
                 = wr_advance q (Z.to_nat ntogo)).
    { unfold wr_advance.
      cbn [set_wrptr q_buffer q_top q_wrptr q_waiting q_counter q_rdptr].
      rewrite <- circ_advance_add.
      now replace (k + (Z.to_nat ntogo - k))%nat with (Z.to_nat ntogo) by lia. }
    now rewrite E1, E2.
Qed.

End ReadLoop.

Lemma length_packet_bytes rx n : length (packet_bytes rx n) = n.
Proof. unfold packet_bytes. now rewrite length_map, length_seq. Qed.

Lemma otg_fifo_read_to_queue_spec Q_OK fuel rx m k iqp n :
  wr_ok iqp -> 0 <= n < 2 ^ 32 -> (Z.to_nat n < fuel)%nat ->
  otg_fifo_read_to_queue Q_OK fuel rx m k iqp n =
  Some (read_to_queue_bytewise Q_OK rx m k iqp n).
Proof.
  intros Hq Hn Hfuel.
  unfold otg_fifo_read_to_queue, read_to_queue_bytewise.
  rewrite (rq_loop_spec (Z.to_nat n)) by (assumption || lia).
  pose proof (byte_copy_cursor (packet_bytes rx (Z.to_nat n)) m
                (q_buffer iqp) (q_top iqp) (q_wrptr iqp)) as Hcur.
  rewrite length_packet_bytes in Hcur.
  destruct (byte_copy (packet_bytes rx (Z.to_nat n)) m (q_buffer iqp)
                      (q_top iqp) (q_wrptr iqp)) as [m' p].
  cbn [fst snd] in *. subst p. fold (wr_advance iqp (Z.to_nat n)).
  destruct (queue_update Q_OK (wr_advance iqp (Z.to_nat n)) n k).
  reflexivity.
Qed.

(** C3.  In [otg_fifo_read_to_queue] the words-until-wrap value is the
    write cursor minus itself, so it is zero for every queue and the burst
    moves no word whenever it is entered; and for a queue whose write
    cursor lies inside its buffer the routine returns exactly what the
    byte-at-a-time copy gives: the same memory, write cursor, counter,
    waiting list, ready list and FIFO position. *)
Theorem otg_fifo_read_to_queue_bytewise (Q_OK : Z) (fuel : nat) (rx : rxfifo)
  (m : mem) (k : kernel) (iqp : InputQueue) (n : Z) :
  wr_ok iqp -> 0 <= n < 2 ^ 32 -> (Z.to_nat n < fuel)%nat ->
  (forall q ntogo,
      rq_nw2end q = 0 /\
      (0 < ntogo / 4 ->
       rq_streak q ntogo = 0 /\
       forall rx0 m0 p, otg_do_pop rx0 m0 p (Z.to_nat (rq_streak q ntogo))
                        = (rx0, m0, p))) /\
  otg_fifo_read_to_queue Q_OK fuel rx m k iqp n =
  Some (read_to_queue_bytewise Q_OK rx m k iqp n).
Proof.
  intros Hq Hn Hfuel. split.
  - intros q ntogo. destruct (rq_streak_zero q ntogo) as (E & Hs).
    split; [exact E|]. intros Hnw. split; [now apply Hs|].
    intros rx0 m0 p. now rewrite (Hs Hnw).
  - now apply otg_fifo_read_to_queue_spec.
Qed.

Lemma otg_fifo_read_to_queue_bytewise_witness :
  otg_fifo_read_to_queue 0 11 (mkRx (fun i => Z.of_nat i + 4278255360) 0)
    (fun a => byte.of_Z a) (mkKernel [] (fun _ => 7))
    (mkQueue [3%nat] 0 200 207 205 200) 10 =
  Some (read_to_queue_bytewise 0 (mkRx (fun i => Z.of_nat i + 4278255360) 0)
          (fun a => byte.of_Z a) (mkKernel [] (fun _ => 7))
          (mkQueue [3%nat] 0 200 207 205 200) 10).
Proof.
  apply (otg_fifo_read_to_queue_bytewise 0 11
           (mkRx (fun i => Z.of_nat i + 4278255360) 0)
           (fun a => byte.of_Z a) (mkKernel [] (fun _ => 7))
           (mkQueue [3%nat] 0 200 207 205 200) 10).
  - unfold wr_ok. cbn. lia.
  - vm_compute. split; [discriminate | reflexivity].
  - vm_compute. lia.
Defined.

(** ** The round trip through the FIFO *)

(** A packet read from a stream that starts with the words [ws]. *)
Lemma packet_bytes_of_words ws : forall rx n,
  (forall i, (i < length ws)%nat ->
             rx_words rx (i + rx_pos rx)%nat = nth i ws 0) ->
  (n <= 4 * length ws)%nat ->
  packet_bytes rx n = firstn n (bytes_of ws).
Proof.
  induction ws as [|w ws IH]; intros rx n Hrx Hn.
  - assert (n = 0%nat) by (cbn [length] in Hn; lia). subst n. reflexivity.
  - rewrite packet_bytes_word.
    pose proof (Hrx 0%nat ltac:(cbn [length]; lia)) as H0.
    cbn [Nat.add nth] in H0. rewrite H0.
    rewrite le_split_u32 by lia.
    change (bytes_of (w :: ws)) with (le_split 4 w ++ bytes_of ws).
    rewrite firstn_app, length_le_split.
    assert (Htail : packet_bytes (rx_next rx) (n - 4)
                    = firstn (n - 4) (bytes_of ws)).
    { apply IH.
      - intros i Hi. unfold rx_next. cbn [rx_words rx_pos].
        rewrite Nat.add_succ_r.
        apply (Hrx (Datatypes.S i)). cbn [length]. lia.
      - cbn [length] in Hn. lia. }
    destruct (Nat.le_gt_cases n 4) as [Hle | Hgt].
    + replace (Nat.min 4 n) with n by lia.
      rewrite firstn_le_split by lia.
      replace (n - n)%nat with (n - 4)%nat by lia.
      now rewrite Htail.
    + replace (Nat.min 4 n) with 4%nat by lia.
      rewrite Htail. f_equal.
      rewrite firstn_all2; [reflexivity | rewrite length_le_split; lia].
Qed.

Lemma packet_bytes_mirror m ws c q :
  chunk m ws c q ->
  packet_bytes (mirror ws) c =
  circ_read m (q_buffer q) (q_top q) (q_rdptr q) c.
Proof.
  intros (Hl & Hb). rewrite <- Hb. apply packet_bytes_of_words.
  - intros i _. unfold mirror. cbn [rx_words rx_pos]. now rewrite Nat.add_0_r.
  - rewrite Hl. div4 (c + 3)%nat. lia.
Qed.

Section ReadBack.

Variables B T : Z.

Lemma circ_dist_next a q :
  B <= a < T -> B <= q < T -> q <> a ->
  circ_dist B T a (circ_next B T q) = circ_dist B T a q - 1.
Proof.
  intros Ha Hq Hne. unfold circ_dist, circ_next.
  destruct (Z.leb_spec T (q + 1)).
  - destruct (Z.leb_spec B a); destruct (Z.leb_spec q a); lia.
  - destruct (Z.leb_spec (q + 1) a); destruct (Z.leb_spec q a); lia.
Qed.

Lemma byte_copy_untouched bs : forall m a q,
  B <= a < T -> B <= q < T ->
  Z.of_nat (length bs) <= circ_dist B T a q ->
  fst (byte_copy bs m B T q) a = m a.
Proof.
  induction bs as [|b bs IH]; intros m a q Ha Hq Hlen; [reflexivity|].
  cbn [byte_copy length] in *.
  assert (Hne : q <> a).
  { intros ->. unfold circ_dist in Hlen.
    destruct (Z.leb_spec a a); lia. }
  rewrite IH; try assumption.
  - unfold mem_store. destruct (Z.eqb_spec a q); [congruence | reflexivity].
  - now apply circ_next_ok.
  - rewrite circ_dist_next by assumption. lia.
Qed.

Lemma circ_read_byte_copy bs : forall m p,
  B <= p < T -> Z.of_nat (length bs) <= T - B ->
  circ_read (fst (byte_copy bs m B T p)) B T p (length bs) = bs.
Proof.
  induction bs as [|b bs IH]; intros m p Hp Hlen; [reflexivity|].
  cbn [byte_copy length circ_read] in *. f_equal.
  - rewrite byte_copy_untouched.
    + unfold mem_store. now rewrite Z.eqb_refl.
    + assumption.
    + now apply circ_next_ok.
    + unfold circ_dist, circ_next.
      destruct (Z.leb_spec T (p + 1)).
      * destruct (Z.leb_spec B p); lia.
      * destruct (Z.leb_spec (p + 1) p); lia.
  - apply IH; [now apply circ_next_ok | lia].
Qed.

End ReadBack.

(** C2.  Round trip.  For every memory, every output queue with its read
    cursor inside its buffer, every input queue with its write cursor inside
    its buffer and every length [n]: both routines return;
    [otg_fifo_write_from_queue] writes [ceil(n/4)] words to the TX FIFO,
    and [otg_fifo_read_to_queue], fed those words, pops them all and stores
    at its write cursor, byte by byte and in order, exactly the [n] bytes
    that were found at the read cursor of the output queue; both cursors
    end [n] bytes further round their buffers.  When [n] does not exceed
    the capacity of the input queue, the [n] bytes read back from its
    buffer are the original byte sequence. *)
Theorem queue_round_trip (Q_OK : Z) (fuel : nat) (m : mem) (k1 k2 : kernel)
  (oqp : OutputQueue) (iqp : InputQueue) (n : Z) :
  rd_ok oqp -> wr_ok iqp -> 0 <= n < 2 ^ 32 -> (Z.to_nat n < fuel)%nat ->
  exists ws oqp' k1' rx' m' iqp' k2',
    otg_fifo_write_from_queue Q_OK fuel m k1 oqp n = Some (ws, oqp', k1') /\
    otg_fifo_read_to_queue Q_OK fuel (mirror ws) m k2 iqp n
    = Some (rx', m', iqp', k2') /\
    Z.of_nat (length ws) = (n + 3) / 4 /\
    rx_pos rx' = length ws /\
    (m', q_wrptr iqp') =
    byte_copy (circ_read m (q_buffer oqp) (q_top oqp) (q_rdptr oqp)
                         (Z.to_nat n))
              m (q_buffer iqp) (q_top iqp) (q_wrptr iqp) /\
    q_rdptr oqp' =
    circ_advance (q_buffer oqp) (q_top oqp) (q_rdptr oqp) (Z.to_nat n) /\
    q_wrptr iqp' =
    circ_advance (q_buffer iqp) (q_top iqp) (q_wrptr iqp) (Z.to_nat n) /\
    q_buffer iqp' = q_buffer iqp /\ q_top iqp' = q_top iqp /\
    (n <= q_top iqp - q_buffer iqp ->
     circ_read m' (q_buffer iqp) (q_top iqp) (q_wrptr iqp) (Z.to_nat n) =
     circ_read m (q_buffer oqp) (q_top oqp) (q_rdptr oqp) (Z.to_nat n)).
Proof.
  intros Hrd Hwr Hn Hfuel.
  destruct (otg_fifo_write_from_queue_spec Q_OK m fuel k1 oqp n)
    as (ws & Hw & Hch); [now right | assumption | assumption |].
  pose proof (otg_fifo_read_to_queue_spec Q_OK fuel (mirror ws) m k2 iqp n
                Hwr Hn Hfuel) as Hr.
  unfold read_to_queue_bytewise in Hr.
  rewrite (packet_bytes_mirror m ws (Z.to_nat n) oqp Hch) in Hr.
  set (src := circ_read m (q_buffer oqp) (q_top oqp) (q_rdptr oqp)
                        (Z.to_nat n)) in *.
  assert (Hsrc : length src = Z.to_nat n) by apply length_circ_read.
  pose proof (byte_copy_cursor src m (q_buffer iqp) (q_top iqp) (q_wrptr iqp))
    as Hcur.
  pose proof (circ_read_byte_copy (q_buffer iqp) (q_top iqp) src m
                (q_wrptr iqp) Hwr) as Hback.
  destruct (byte_copy src m (q_buffer iqp) (q_top iqp) (q_wrptr iqp))
    as [m' p] eqn:Ecopy.
  cbn [fst snd] in Hcur, Hback. rewrite Hsrc in Hcur, Hback.
  pose proof (queue_update_spec Q_OK (set_wrptr iqp p) n k2)
    as (_ & _ & Hb & Ht & Hwp & _).
  pose proof (queue_update_spec Q_OK (rd_advance oqp (Z.to_nat n)) n k1)
    as (_ & _ & _ & _ & _ & Hrp & _).
  destruct (queue_update Q_OK (set_wrptr iqp p) n k2) as [iqp' k2'].
  cbn [fst snd set_wrptr q_buffer q_top q_wrptr] in Hb, Ht, Hwp.
  destruct Hch as (Hlen & _).
  do 7 eexists.
  split; [exact Hw|]. split; [exact Hr|].
  split; [rewrite Hlen; div4 (Z.to_nat n + 3)%nat; zdiv4 (n + 3); lia|].
  split.
  { cbn [rx_pos mirror]. rewrite Nat.add_0_r, Hlen.
    div4 (Z.to_nat n + 3)%nat. zdiv4 (n + 3). lia. }
  split; [now rewrite Hwp|].
  split; [exact Hrp|].
  split; [now rewrite Hwp|].
  split; [exact Hb|]. split; [exact Ht|].
  intros Hcap. apply Hback. lia.
Qed.

Lemma queue_round_trip_witness :
  exists ws oqp' k1' rx' m' iqp' k2',
    otg_fifo_write_from_queue 0 11 (fun a => byte.of_Z (a * 7))
      (mkKernel [] (fun _ => 7)) (mkQueue [] 0 100 110 100 107) 10
    = Some (ws, oqp', k1') /\
    otg_fifo_read_to_queue 0 11 (mirror ws) (fun a => byte.of_Z (a * 7))
      (mkKernel [] (fun _ => 7)) (mkQueue [] 0 200 213 211 200) 10
    = Some (rx', m', iqp', k2') /\
    Z.of_nat (length ws) = 3 /\
    circ_read m' 200 213 211 10 =
    circ_read (fun a => byte.of_Z (a * 7)) 100 110 107 10.
Proof.
  destruct (queue_round_trip 0 11 (fun a => byte.of_Z (a * 7))
              (mkKernel [] (fun _ => 7)) (mkKernel [] (fun _ => 7))
              (mkQueue [] 0 100 110 100 107)
              (mkQueue [] 0 200 213 211 200) 10)
    as (ws & oqp' & k1' & rx' & m' & iqp' & k2' & Hw & Hr & Hlen & _ & _ & _ &
        _ & _ & _ & Hback).
  - unfold rd_ok. cbn. lia.
  - unfold wr_ok. cbn. lia.
  - vm_compute. split; [discriminate | reflexivity].
  - vm_compute. lia.
  - exists ws, oqp', k1', rx', m', iqp', k2'.
    split; [exact Hw|]. split; [exact Hr|]. split; [exact Hlen|].
    apply Hback. cbn. lia.
Defined.

(** ** [otg_fifo_read_to_buffer] *)

Lemma rb_loop_spec n : forall rx m buf max,
  0 <= max < 2 ^ 32 ->
  fst (rb_loop n rx m buf max) = rx_skip rx n /\
  snd (rb_loop n rx m buf max) =
  snd (fst (otg_do_pop rx m buf (Nat.min n (Z.to_nat max)))).
Proof.
  induction n as [|n IH]; intros rx m buf max Hmax.
  - cbn [rb_loop Nat.min otg_do_pop fst snd]. unfold rx_skip. now destruct rx.
  - cbn [rb_loop]. unfold rx_pop.
    destruct (Z.eqb_spec max 0) as [-> | Hnz]; cbn [negb].
    + destruct (IH (mkRx (rx_words rx) (Datatypes.S (rx_pos rx))) m buf 0
                  ltac:(lia)) as (Hrx & Hm).
      rewrite Hrx, Hm. cbn [Z.to_nat]. rewrite !Nat.min_0_r.
      cbn [otg_do_pop fst snd]. unfold rx_skip. cbn [rx_words rx_pos].
      now rewrite Nat.add_succ_r.
    + rewrite (u32_small (max - 1)) by lia.
      destruct (IH (mkRx (rx_words rx) (Datatypes.S (rx_pos rx)))
                  (store32 m buf (u32 (rx_words rx (rx_pos rx)))) (buf + 4)
                  (max - 1) ltac:(lia)) as (Hrx & Hm).
      rewrite Hrx, Hm.
      replace (Z.to_nat max) with (Datatypes.S (Z.to_nat (max - 1))) by lia.
      cbn [Nat.min otg_do_pop]. unfold rx_pop, rx_skip. cbn [rx_words rx_pos].
      now rewrite Nat.add_succ_r.
Qed.

(** What [otg_fifo_read_to_buffer] does for a packet of [n] bytes and room
    for [max]: it pops [ceil(n/4)] words and stores the first
    [min(ceil(n/4), ceil(max/4))] of them whole. *)
Lemma otg_fifo_read_to_buffer_spec rx m buf n max :
  0 <= n -> n + 3 < 2 ^ 32 -> 0 <= max -> max + 3 < 2 ^ 32 ->
  fst (otg_fifo_read_to_buffer rx m buf n max)
  = rx_skip rx (Z.to_nat ((n + 3) / 4)) /\
  snd (otg_fifo_read_to_buffer rx m buf n max)
  = snd (fst (otg_do_pop rx m buf
                (Nat.min (Z.to_nat ((n + 3) / 4)) (Z.to_nat ((max + 3) / 4))))).
Proof.
  intros Hn Hn3 Hmax Hmax3. unfold otg_fifo_read_to_buffer.
  rewrite !u32_small by lia.
  apply rb_loop_spec. zdiv4 (max + 3). lia.
Qed.

(** C6, the defect.  A 5 byte packet read with [max = 5]: the two words
    of the packet are popped, and both are stored whole, so the three
    bytes after the first [max] bytes of the buffer are overwritten. *)
Lemma otg_fifo_read_to_buffer_overrun :
  let rx := mkRx (fun i => nth i [1144201745; 2289526357] 0) 0 in
  let m : mem := fun _ => Byte.x00 in
  let r := otg_fifo_read_to_buffer rx m 300 5 5 in
  rx_pos (fst r) = 2%nat /\
  map (snd r) [300; 301; 302; 303; 304] =
  [Byte.x11; Byte.x22; Byte.x33; Byte.x44; Byte.x55] /\
  map (snd r) [305; 306; 307] = [Byte.x66; Byte.x77; Byte.x88] /\
  map m [305; 306; 307] = [Byte.x00; Byte.x00; Byte.x00].
Proof. vm_compute. repeat split. Qed.

(** * Further properties of the transfer primitives *)

(** ** Linear buffers *)

Lemma length_linear_read m n : forall p, length (linear_read m p n) = n.
Proof. induction n; intros p; cbn [linear_read length]; auto. Qed.

Lemma linear_read_app m a : forall b p,
  linear_read m p (a + b) =
  linear_read m p a ++ linear_read m (p + Z.of_nat a) b.
Proof.
  induction a as [|a IH]; intros b p; cbn [linear_read Nat.add app].
  - now rewrite Z.add_0_r.
  - f_equal. rewrite IH. do 2 f_equal. lia.
Qed.

Lemma firstn_linear_read m a b p :
  (a <= b)%nat -> firstn a (linear_read m p b) = linear_read m p a.
Proof.
  intros H. replace b with (a + (b - a))%nat by lia.
  rewrite linear_read_app, firstn_app, length_linear_read.
  replace (a - a)%nat with 0%nat by lia.
  rewrite firstn_O, app_nil_r.
  apply firstn_all2. rewrite length_linear_read. lia.
Qed.

Lemma linear_read_ext m1 m2 n : forall p,
  (forall a, p <= a < p + Z.of_nat n -> m1 a = m2 a) ->
  linear_read m1 p n = linear_read m2 p n.
Proof.
  induction n as [|n IH]; intros p H; cbn [linear_read]; [reflexivity|].
  f_equal; [apply H; lia | apply IH; intros a Ha; apply H; lia].
Qed.

Lemma store32_frame m p w a :
  a < p \/ p + 4 <= a -> store32 m p w a = m a.
Proof.
  intros H. unfold store32, mem_store.
  destruct (Z.eqb_spec a (p + 3)); [lia|].
  destruct (Z.eqb_spec a (p + 2)); [lia|].
  destruct (Z.eqb_spec a (p + 1)); [lia|].
  destruct (Z.eqb_spec a p); [lia | reflexivity].
Qed.

Lemma linear_read_store32 m p w :
  linear_read (store32 m p w) p 4 = le_split 4 w.
Proof.
  rewrite le_split_nth. cbn [seq map linear_read].
  unfold store32, mem_store.
  replace (p + 1 + 1) with (p + 2) by lia.
  replace (p + 2 + 1) with (p + 3) by lia.
  repeat match goal with
         | |- context [?x =? ?y] =>
             destruct (Z.eqb_spec x y); [try lia | try lia]
         end.
  reflexivity.
Qed.

(** [otg_do_pop]: [k] words leave the FIFO, their bytes lie LSB first from
    [buf] on, the pointer returned is [buf + 4k], and no other byte of
    memory changes. *)
Lemma otg_do_pop_spec k : forall rx m buf,
  fst (fst (otg_do_pop rx m buf k)) = rx_skip rx k /\
  snd (otg_do_pop rx m buf k) = buf + 4 * Z.of_nat k /\
  linear_read (snd (fst (otg_do_pop rx m buf k))) buf (4 * k)
  = bytes_of (fifo_words rx k) /\
  (forall a, a < buf \/ buf + 4 * Z.of_nat k <= a ->
             snd (fst (otg_do_pop rx m buf k)) a = m a).
Proof.
  induction k as [|k IH]; intros rx m buf.
  - cbn [otg_do_pop fst snd]. unfold rx_skip. cbn [Nat.add].
    repeat split; [now destruct rx | lia].
  - cbn [otg_do_pop]. unfold rx_pop.
    set (w := u32 (rx_words rx (rx_pos rx))).
    set (rx1 := mkRx (rx_words rx) (Datatypes.S (rx_pos rx))).
    destruct (IH rx1 (store32 m buf w) (buf + 4)) as (Hrx & Hp & Hb & Hfr).
    split; [|split; [|split]].
    + rewrite Hrx. unfold rx_skip, rx1. cbn [rx_words rx_pos].
      now rewrite Nat.add_succ_r.
    + rewrite Hp. lia.
    + replace (4 * Datatypes.S k)%nat with (4 + 4 * k)%nat by lia.
      rewrite linear_read_app. change (Z.of_nat 4) with 4. rewrite Hb.
      unfold fifo_words. cbn [seq map]. unfold bytes_of. cbn [flat_map].
      f_equal.
      * cbn [Nat.add]. fold w.
        rewrite <- (linear_read_store32 m buf w).
        apply linear_read_ext. intros a Ha.
        rewrite Hfr by lia. reflexivity.
      * unfold fifo_words in Hb. unfold bytes_of in Hb.
        rewrite <- seq_shift, map_map. f_equal. apply map_ext. intros i.
        unfold rx1. cbn [rx_words rx_pos]. now rewrite Nat.add_succ_r.
    + intros a Ha. rewrite Hfr by lia. apply store32_frame. lia.
Qed.

Lemma fifo_words_mirror ws : fifo_words (mirror ws) (length ws) = map u32 ws.
Proof.
  unfold fifo_words, mirror. cbn [rx_words rx_pos].
  induction ws as [|w ws IH]; [reflexivity|].
  cbn [length seq map nth Nat.add]. f_equal.
  rewrite <- seq_shift, map_map. rewrite <- IH.
  apply map_ext. intros i. now rewrite !Nat.add_0_r.
Qed.

Lemma bytes_of_u32 ws : bytes_of (map u32 ws) = bytes_of ws.
Proof.
  unfold bytes_of. induction ws as [|w ws IH]; [reflexivity|].
  cbn [map flat_map]. now rewrite IH, le_split_u32 by lia.
Qed.

Lemma otg_fifo_write_from_buffer_spec m buf n :
  0 <= n -> n + 3 < 2 ^ 32 ->
  length (otg_fifo_write_from_buffer m buf n) = Z.to_nat ((n + 3) / 4) /\
  bytes_of (otg_fifo_write_from_buffer m buf n)
  = linear_read m buf (4 * Z.to_nat ((n + 3) / 4)).
Proof.
  intros Hn Hn3. unfold otg_fifo_write_from_buffer.
  rewrite u32_small by lia.
  destruct (otg_do_push_spec m (Z.to_nat ((n + 3) / 4)) buf) as (_ & Hl & Hb).
  now split.
Qed.

(** X1.  [otg_fifo_write_from_buffer] pushes [ceil(n/4)] words, and the
    bytes of those words, LSB first, are the bytes of memory from [buf] on:
    the [n] bytes asked for, followed in the last word by the bytes that
    lie after them in memory. *)
Theorem otg_fifo_write_from_buffer_bytes (m : mem) (buf n : Z) :
  0 <= n -> n + 3 < 2 ^ 32 ->
  Z.of_nat (length (otg_fifo_write_from_buffer m buf n)) = (n + 3) / 4 /\
  bytes_of (otg_fifo_write_from_buffer m buf n)
  = linear_read m buf (4 * Z.to_nat ((n + 3) / 4)) /\
  firstn (Z.to_nat n) (bytes_of (otg_fifo_write_from_buffer m buf n))
  = linear_read m buf (Z.to_nat n).
Proof.
  intros Hn Hn3.
  destruct (otg_fifo_write_from_buffer_spec m buf n Hn Hn3) as (Hl & Hb).
  zdiv4 (n + 3).
  split; [rewrite Hl; lia|]. split; [exact Hb|].
  rewrite Hb. apply firstn_linear_read. lia.
Qed.

Lemma otg_fifo_write_from_buffer_bytes_witness :
  Z.of_nat (length (otg_fifo_write_from_buffer (fun a => byte.of_Z a) 100 5))
  = (5 + 3) / 4 /\
  firstn (Z.to_nat 5)
         (bytes_of (otg_fifo_write_from_buffer (fun a => byte.of_Z a) 100 5))
  = linear_read (fun a => byte.of_Z a) 100 (Z.to_nat 5).
Proof.
  destruct (otg_fifo_write_from_buffer_bytes (fun a => byte.of_Z a) 100 5)
    as (Hl & _ & Hb).
  - lia.
  - vm_compute. reflexivity.
  - split; assumption.
Defined.



(** X3.  Round trip through linear buffers: what
    [otg_fifo_write_from_buffer] pushes for [n] bytes at [src], read back
    by [otg_fifo_read_to_buffer] with room for at least [n] bytes, leaves at
    [dst] the [n] bytes found at [src] (indeed all [4 * ceil(n/4)] bytes
    read from [src] on), and uses up every word pushed. *)
Theorem buffer_round_trip (m : mem) (src dst n max : Z) :
  0 <= n <= max -> max + 3 < 2 ^ 32 ->
  let ws := otg_fifo_write_from_buffer m src n in
  let r := otg_fifo_read_to_buffer (mirror ws) m dst n max in
  rx_pos (fst r) = length ws /\
  linear_read (snd r) dst (4 * length ws) = linear_read m src (4 * length ws) /\
  linear_read (snd r) dst (Z.to_nat n) = linear_read m src (Z.to_nat n).
Proof.
  intros Hn Hmax ws r.
  destruct (otg_fifo_write_from_buffer_spec m src n) as (Hlen & Hb);
    [lia | lia |]. fold ws in Hlen, Hb.
  destruct (otg_fifo_read_to_buffer_spec (mirror ws) m dst n max)
    as (Hrx & Hm); try lia.
  destruct (otg_do_pop_spec (length ws) (mirror ws) m dst)
    as (_ & _ & Hpop & _).
  assert (Hmin : Nat.min (Z.to_nat ((n + 3) / 4)) (Z.to_nat ((max + 3) / 4))
                 = length ws).
  { assert ((n + 3) / 4 <= (max + 3) / 4)
      by (apply Z.div_le_mono; lia).
    lia. }
  rewrite Hmin in Hm. fold r in Hrx, Hm.
  assert (Hfull : linear_read (snd r) dst (4 * length ws)
                  = linear_read m src (4 * length ws)).
  { rewrite Hm, Hpop, fifo_words_mirror, bytes_of_u32, Hb.
    now rewrite Hlen. }
  split; [rewrite Hrx; unfold rx_skip, mirror; cbn [rx_pos]; lia|].
  split; [exact Hfull|].
  zdiv4 (n + 3).
  rewrite <- (firstn_linear_read (snd r) (Z.to_nat n) (4 * length ws) dst)
    by lia.
  rewrite <- (firstn_linear_read m (Z.to_nat n) (4 * length ws) src) by lia.
  now rewrite Hfull.
Qed.

Lemma buffer_round_trip_witness :
  linear_read
    (snd (otg_fifo_read_to_buffer
            (mirror (otg_fifo_write_from_buffer (fun a => byte.of_Z (a * 3))
                       100 6))
            (fun a => byte.of_Z (a * 3)) 200 6 64))
    200 (Z.to_nat 6)
  = linear_read (fun a => byte.of_Z (a * 3)) 100 (Z.to_nat 6).
Proof.
  destruct (buffer_round_trip (fun a => byte.of_Z (a * 3)) 100 200 6 64)
    as (_ & _ & H).
  - lia.
  - vm_compute. reflexivity.
  - exact H.
Defined.

(** ** Circular queues *)

Lemma circ_next_mod B T p :
  B <= p < T -> circ_next B T p = B + (p - B + 1) mod (T - B).
Proof.
  intros H. unfold circ_next. destruct (Z.leb_spec T (p + 1)).
  - replace (p - B + 1) with (T - B) by lia.
    rewrite Z_mod_same_full. lia.
  - rewrite Z.mod_small by lia. lia.
Qed.

Lemma circ_advance_mod B T n : forall p,
  B <= p < T ->
  circ_advance B T p n = B + (p - B + Z.of_nat n) mod (T - B).
Proof.
  induction n as [|n IH]; intros p H; cbn [circ_advance].
  - rewrite Z.add_0_r, Z.mod_small by lia. lia.
  - rewrite IH by now apply circ_next_ok.
    rewrite circ_next_mod by assumption. f_equal.
    replace (B + (p - B + 1) mod (T - B) - B) with ((p - B + 1) mod (T - B))
      by lia.
    rewrite Zplus_mod_idemp_l. f_equal. lia.
Qed.

Lemma byte_copy_inside B T bs : forall m p a,
  B <= p < T -> a < B \/ T <= a ->
  fst (byte_copy bs m B T p) a = m a.
Proof.
  induction bs as [|b bs IH]; intros m p a Hp Ha; [reflexivity|].
  cbn [byte_copy]. rewrite IH; [|now apply circ_next_ok | assumption].
  unfold mem_store. destruct (Z.eqb_spec a p); [lia | reflexivity].
Qed.

(** X4.  [otg_fifo_read_to_queue] on a queue whose write cursor lies in
    its buffer: it returns, having popped [ceil(n/4)] words; it changes no
    byte outside the buffer of the queue; the queue keeps its buffer and its
    read cursor, its write cursor ends at
    [buffer + (offset + n) mod capacity] and so stays inside the buffer, its
    counter has grown by [n] and its waiting list is empty; and when [n]
    fits the capacity, the [n] bytes of the packet are found, in order, from
    the old write cursor on. *)
Theorem otg_fifo_read_to_queue_safe (Q_OK : Z) (fuel : nat) (rx : rxfifo)
  (m : mem) (k : kernel) (iqp : InputQueue) (n : Z) :
  wr_ok iqp -> 0 <= n < 2 ^ 32 -> (Z.to_nat n < fuel)%nat ->
  exists rx' m' iqp' k',
    otg_fifo_read_to_queue Q_OK fuel rx m k iqp n = Some (rx', m', iqp', k') /\
    rx' = rx_skip rx (Z.to_nat ((n + 3) / 4)) /\
    (forall a, a < q_buffer iqp \/ q_top iqp <= a -> m' a = m a) /\
    q_buffer iqp' = q_buffer iqp /\ q_top iqp' = q_top iqp /\
    q_rdptr iqp' = q_rdptr iqp /\
    q_wrptr iqp' =
    q_buffer iqp + (q_wrptr iqp - q_buffer iqp + n)
                   mod (q_top iqp - q_buffer iqp) /\
    wr_ok iqp' /\
    q_counter iqp' = u32 (q_counter iqp + n) /\
    q_waiting iqp' = [] /\
    (n <= q_top iqp - q_buffer iqp ->
     circ_read m' (q_buffer iqp) (q_top iqp) (q_wrptr iqp) (Z.to_nat n)
     = packet_bytes rx (Z.to_nat n)).
Proof.
  intros Hwr Hn Hfuel.
  pose proof (otg_fifo_read_to_queue_spec Q_OK fuel rx m k iqp n Hwr Hn Hfuel)
    as Hr.
  unfold read_to_queue_bytewise in Hr.
  set (bs := packet_bytes rx (Z.to_nat n)) in *.
  assert (Hlen : length bs = Z.to_nat n) by apply length_packet_bytes.
  pose proof (byte_copy_cursor bs m (q_buffer iqp) (q_top iqp) (q_wrptr iqp))
    as Hcur.
  pose proof (fun a => byte_copy_inside (q_buffer iqp) (q_top iqp) bs m
                         (q_wrptr iqp) a Hwr) as Hin.
  pose proof (circ_read_byte_copy (q_buffer iqp) (q_top iqp) bs m
                (q_wrptr iqp) Hwr) as Hback.
  destruct (byte_copy bs m (q_buffer iqp) (q_top iqp) (q_wrptr iqp))
    as [m' p] eqn:Ecopy.
  cbn [fst snd] in Hcur, Hin, Hback. rewrite Hlen in Hcur, Hback.
  pose proof (queue_update_spec Q_OK (set_wrptr iqp p) n k)
    as (Hc & Hw & Hb & Ht & Hwp & Hrp & _).
  destruct (queue_update Q_OK (set_wrptr iqp p) n k) as [iqp' k'].
  cbn [fst snd set_wrptr q_buffer q_top q_wrptr q_rdptr q_counter] in *.
  assert (Hmod : p = q_buffer iqp + (q_wrptr iqp - q_buffer iqp + n)
                                    mod (q_top iqp - q_buffer iqp)).
  { rewrite Hcur, circ_advance_mod by assumption. do 3 f_equal. lia. }
  exists (rx_skip rx (Z.to_nat ((n + 3) / 4))), m', iqp', k'.
  split; [exact Hr|]. split; [reflexivity|]. split; [exact Hin|].
  split; [exact Hb|]. split; [exact Ht|]. split; [exact Hrp|].
  split; [now rewrite Hwp|].
  split.
  { unfold wr_ok in *. rewrite Hb, Ht, Hwp, Hcur.
    now apply circ_advance_ok. }
  split; [exact Hc|]. split; [exact Hw|].
  intros Hcap. apply Hback. lia.
Qed.

Lemma otg_fifo_read_to_queue_safe_witness :
  exists rx' m' iqp' k',
    otg_fifo_read_to_queue 0 11 (mkRx (fun i => Z.of_nat i + 4278255360) 0)
      (fun a => byte.of_Z a) (mkKernel [] (fun _ => 7))
      (mkQueue [3%nat] 0 200 216 214 200) 10 = Some (rx', m', iqp', k') /\
    q_wrptr iqp' = 200 + (214 - 200 + 10) mod (216 - 200) /\
    (forall a, a < 200 \/ 216 <= a -> m' a = byte.of_Z a).
Proof.
  destruct (otg_fifo_read_to_queue_safe 0 11
              (mkRx (fun i => Z.of_nat i + 4278255360) 0)
              (fun a => byte.of_Z a) (mkKernel [] (fun _ => 7))
              (mkQueue [3%nat] 0 200 216 214 200) 10)
    as (rx' & m' & iqp' & k' & Hr & _ & Hin & _ & _ & _ & Hw & _).
  - unfold wr_ok. cbn. lia.
  - vm_compute. split; [discriminate | reflexivity].
  - vm_compute. lia.
  - exists rx', m', iqp', k'. split; [exact Hr|]. split; [exact Hw|].
    exact Hin.
Defined.

(** ** The exact words [otg_fifo_write_from_queue] pushes *)

Lemma le_words_app4 j : forall a b,
  length a = (4 * j)%nat -> le_words (a ++ b) = le_words a ++ le_words b.
Proof.
  induction j as [|j IH]; intros a b Ha.
  - destruct a; [reflexivity | discriminate].
  - destruct a as [|b0 [|b1 [|b2 [|b3 a]]]]; cbn [length] in Ha; try lia.
    cbn [app le_words]. f_equal. apply IH. lia.
Qed.

Lemma le_words_short bs :
  (1 <= length bs <= 4)%nat -> le_words bs = [le_combine bs].
Proof.
  intros H.
  destruct bs as [|b0 [|b1 [|b2 [|b3 [|b4 bs]]]]]; cbn [length] in H;
    try lia; reflexivity.
Qed.

Lemma otg_do_push_words m k : forall p,
  fst (otg_do_push m p k) = le_words (linear_read m p (4 * k)).
Proof.
  induction k as [|k IH]; intros p; [reflexivity|].
  cbn [otg_do_push].
  destruct (otg_do_push m (p + 4) k) as [ws p'] eqn:E.
  specialize (IH (p + 4)). rewrite E in IH. cbn [fst] in *.
  replace (4 * Datatypes.S k)%nat
    with (Datatypes.S (Datatypes.S (Datatypes.S (Datatypes.S (4 * k)))))
    by lia.
  cbn [linear_read le_words].
  replace (p + 1 + 1 + 1 + 1) with (p + 4) by lia.
  replace (p + 1 + 1) with (p + 2) by lia.
  replace (p + 2 + 1) with (p + 3) by lia.
  now rewrite load32_le_combine, IH.
Qed.

Section WriteExact.

Variable m : mem.

(** The words for the [c] bytes at the read cursor of [q]. *)
Local Abbreviation words_at q c :=
  (le_words (circ_read m (q_buffer q) (q_top q) (q_rdptr q) c)).

Lemma words_at_app q c1 c2 :
  (c1 mod 4 = 0)%nat ->
  words_at q (c1 + c2) = words_at q c1 ++ words_at (rd_advance q c1) c2.
Proof.
  intros Hc. rewrite circ_read_app.
  unfold rd_advance. cbn [set_rdptr q_buffer q_top q_rdptr].
  apply (le_words_app4 (c1 / 4)).
  rewrite length_circ_read. div4 c1. lia.
Qed.

Lemma wq_bytes_exact q ntogo :
  0 < ntogo < 2 ^ 32 ->
  wq_bytes 4 m q ntogo 0 0 =
  (rd_advance q (Nat.min 4 (Z.to_nat ntogo)),
   ntogo - Z.of_nat (Nat.min 4 (Z.to_nat ntogo)),
   le_combine (circ_read m (q_buffer q) (q_top q) (q_rdptr q)
                         (Nat.min 4 (Z.to_nat ntogo)))).
Proof.
  intros Hn. rewrite wq_bytes_spec by lia.
  change (0 * 8) with 0. now rewrite Z.shiftl_0_r, Z.lor_0_l.
Qed.

Lemma wq_body_step_exact q ntogo fifo :
  rd_ok q -> 0 < ntogo < 2 ^ 32 ->
  exists c r,
    (0 < c <= Z.to_nat ntogo)%nat /\
    (c mod 4 = 0 \/ c = Z.to_nat ntogo)%nat /\
    wq_body m (q, ntogo, fifo) = Some r /\
    (r = Next (rd_advance q c, ntogo - Z.of_nat c, fifo ++ words_at q c) \/
     (c = Z.to_nat ntogo /\
      r = Exit (rd_advance q c, ntogo - Z.of_nat c, fifo ++ words_at q c))).
Proof.
  intros Hq Hn. unfold wq_body.
  assert (Hpos : (0 <? ntogo) = true) by (apply Z.ltb_lt; lia).
  rewrite Hpos. cbn [negb].
  destruct (Z.ltb_spec 0 (ntogo / 4)) as [Hnw | Hnw].
  - destruct (wq_streak_bounds q ntogo Hq ltac:(lia)) as (Hs0 & Hs4 & Hst & _).
    set (s := wq_streak q ntogo) in *.
    destruct (otg_do_push_chunk m q s Hq Hs0 Hst) as (_ & Hadv).
    pose proof (otg_do_push_spec m (Z.to_nat s) (q_rdptr q)) as (Hp & _ & _).
    pose proof (otg_do_push_words m (Z.to_nat s) (q_rdptr q)) as Hws.
    rewrite <- (circ_read_linear m (q_buffer q) (q_top q)) in Hws by lia.
    destruct (otg_do_push m (q_rdptr q) (Z.to_nat s)) as [ws p'] eqn:E.
    cbn [fst snd] in *.
    replace (Z.of_nat (Z.to_nat s)) with s in Hp by lia. subst p' ws.
    rewrite (u32_small (ntogo - s * 4)) by lia.
    cbn [set_rdptr q_top q_rdptr q_buffer].
    destruct (Z.leb_spec (q_top q) (q_rdptr q + 4 * s)) as [Hw | Hw].
    + exists (4 * Z.to_nat s)%nat. eexists.
      unfold rd_ok in Hq.
      split; [lia|]. split; [left; div4 (4 * Z.to_nat s)%nat; lia|].
      split; [reflexivity|]. left.
      rewrite Hadv. do 3 f_equal. lia.
    + destruct (Z.leb_spec (ntogo - s * 4) 0) as [Hz | Hnz].
      * exists (4 * Z.to_nat s)%nat. eexists.
        split; [lia|]. split; [right; lia|].
        split; [reflexivity|]. right.
        split; [lia|]. rewrite Hadv. do 3 f_equal. lia.
      * rewrite wq_bytes_exact by lia.
        set (k := Nat.min 4 (Z.to_nat (ntogo - s * 4))) in *.
        exists (4 * Z.to_nat s + k)%nat. eexists.
        split; [lia|].
        split; [div4 (4 * Z.to_nat s + k)%nat; lia|].
        split; [reflexivity|]. left.
        rewrite <- Hadv.
        rewrite rd_advance_add, <- app_assoc.
        rewrite words_at_app by (div4 (4 * Z.to_nat s)%nat; lia).
        rewrite (le_words_short
                   (circ_read m (q_buffer (rd_advance q (4 * Z.to_nat s)))
                      (q_top (rd_advance q (4 * Z.to_nat s)))
                      (q_rdptr (rd_advance q (4 * Z.to_nat s))) k))
          by (rewrite length_circ_read; lia).
        do 3 f_equal. lia.
  - assert (Hlt : ntogo < 4) by (zdiv4 ntogo; lia).
    destruct (Z.leb_spec ntogo 0) as [Hz | Hnz]; [lia|].
    rewrite wq_bytes_exact by lia.
    set (k := Nat.min 4 (Z.to_nat ntogo)) in *.
    exists k. eexists.
    split; [lia|]. split; [right; lia|].
    split; [reflexivity|]. left.
    rewrite le_words_short by (rewrite length_circ_read; lia).
    reflexivity.
Qed.

Lemma wq_loop_exact N : forall fuel q ntogo fifo,
  (Z.to_nat ntogo <= N)%nat ->
  rd_ok q -> 0 <= ntogo < 2 ^ 32 -> (Z.to_nat ntogo < fuel)%nat ->
  exists n',
    iterate fuel (wq_body m) (q, ntogo, fifo) =
    Some (rd_advance q (Z.to_nat ntogo), n',
          fifo ++ words_at q (Z.to_nat ntogo)).
Proof.
  assert (Hbase : forall fuel q fifo, (0 < fuel)%nat ->
    exists n', iterate fuel (wq_body m) (q, 0, fifo) =
               Some (rd_advance q (Z.to_nat 0), n',
                     fifo ++ words_at q (Z.to_nat 0))).
  { intros fuel q fifo Hf. destruct fuel as [|fuel]; [lia|].
    exists 0. cbn [iterate wq_body Z.ltb Z.compare negb Z.to_nat].
    unfold rd_advance. cbn [circ_advance circ_read le_words].
    now rewrite set_rdptr_same, app_nil_r. }
  induction N as [|N IH]; intros fuel q ntogo fifo HN Hq Hn Hfuel.
  - assert (ntogo = 0) by lia. subst ntogo. apply Hbase. lia.
  - destruct (Z.eq_dec ntogo 0) as [-> | Hnz]; [apply Hbase; lia|].
    destruct fuel as [|fuel]; [lia|].
    destruct (wq_body_step_exact q ntogo fifo Hq ltac:(lia))
      as (c & r & Hc & Hmod & Hbody & Hr).
    cbn [iterate]. rewrite Hbody.
    destruct Hr as [-> | [Hall ->]].
    + destruct (IH fuel (rd_advance q c) (ntogo - Z.of_nat c)
                  (fifo ++ words_at q c)) as (n' & Hit); try lia.
      { now apply rd_advance_ok. }
      exists n'. rewrite Hit, rd_advance_add, <- app_assoc.
      replace (c + Z.to_nat (ntogo - Z.of_nat c))%nat with (Z.to_nat ntogo)
        by lia.
      destruct Hmod as [Hmod | Hmod].
      * rewrite <- words_at_app by assumption.
        replace (c + Z.to_nat (ntogo - Z.of_nat c))%nat with (Z.to_nat ntogo)
          by lia.
        reflexivity.
      * replace (Z.to_nat (ntogo - Z.of_nat c)) with 0%nat by lia.
        cbn [circ_read le_words]. rewrite app_nil_r. now subst c.
    + exists (ntogo - Z.of_nat c). now subst c.
Qed.

End WriteExact.

Lemma circ_read_ext m1 m2 B T n : forall p,
  B <= p < T ->
  (forall a, B <= a < T -> m2 a = m1 a) ->
  circ_read m2 B T p n = circ_read m1 B T p n.
Proof.
  induction n as [|n IH]; intros p Hp H; cbn [circ_read]; [reflexivity|].
  f_equal; [now apply H | apply IH; [now apply circ_next_ok | assumption]].
Qed.

Lemma le_words_last j : forall bs r,
  length bs = (4 * j + r)%nat -> (1 <= r <= 3)%nat ->
  0 <= last (le_words bs) 0 < 2 ^ (8 * Z.of_nat r).
Proof.
  induction j as [|j IH]; intros bs r Hl Hr.
  - rewrite le_words_short by lia. cbn [last].
    replace r with (length bs) by lia. apply le_combine_bound.
  - destruct bs as [|b0 [|b1 [|b2 [|b3 bs]]]]; cbn [length] in Hl; try lia.
    cbn [le_words].
    assert (Hne : le_words bs <> []).
    { destruct bs as [|c0 [|c1 [|c2 [|c3 bs]]]]; cbn [length] in Hl;
        try lia; discriminate. }
    destruct (le_words bs) as [|w ws] eqn:E; [contradiction|].
    change (last (le_combine [b0; b1; b2; b3] :: w :: ws) 0)
      with (last (w :: ws) 0).
    rewrite <- E. apply IH; lia.
Qed.

(** X5.  [otg_fifo_write_from_queue] on a queue whose read cursor lies in
    its buffer returns, and the words it writes to the TX FIFO are exactly
    the [n] bytes found from the read cursor on, going round the buffer,
    packed four to a word LSB first; a last word of fewer than four bytes
    has zeros above them.  The result depends on memory only inside the
    buffer of the queue.  The queue keeps its buffer and write cursor, and
    its read cursor ends at [buffer + (offset + n) mod capacity], inside the
    buffer. *)
Theorem otg_fifo_write_from_queue_words (Q_OK : Z) (fuel : nat) (m : mem)
  (k : kernel) (oqp : OutputQueue) (n : Z) :
  rd_ok oqp -> 0 <= n < 2 ^ 32 -> (Z.to_nat n < fuel)%nat ->
  exists oqp' k',
    otg_fifo_write_from_queue Q_OK fuel m k oqp n =
    Some (le_words (circ_read m (q_buffer oqp) (q_top oqp) (q_rdptr oqp)
                              (Z.to_nat n)), oqp', k') /\
    (n mod 4 <> 0 ->
     0 <= last (le_words (circ_read m (q_buffer oqp) (q_top oqp) (q_rdptr oqp)
                                    (Z.to_nat n))) 0
       < 2 ^ (8 * (n mod 4))) /\
    (forall m2, (forall a, q_buffer oqp <= a < q_top oqp -> m2 a = m a) ->
                otg_fifo_write_from_queue Q_OK fuel m2 k oqp n =
                otg_fifo_write_from_queue Q_OK fuel m k oqp n) /\
    q_buffer oqp' = q_buffer oqp /\ q_top oqp' = q_top oqp /\
    q_wrptr oqp' = q_wrptr oqp /\
    q_rdptr oqp' =
    q_buffer oqp + (q_rdptr oqp - q_buffer oqp + n)
                   mod (q_top oqp - q_buffer oqp) /\
    rd_ok oqp'.
Proof.
  intros Hrd Hn Hfuel.
  assert (Hrun : forall m0,
    otg_fifo_write_from_queue Q_OK fuel m0 k oqp n =
    Some (le_words (circ_read m0 (q_buffer oqp) (q_top oqp) (q_rdptr oqp)
                              (Z.to_nat n)),
          fst (queue_update Q_OK (rd_advance oqp (Z.to_nat n)) n k),
          snd (queue_update Q_OK (rd_advance oqp (Z.to_nat n)) n k))).
  { intros m0. unfold otg_fifo_write_from_queue.
    destruct (wq_loop_exact m0 (Z.to_nat n) fuel oqp n [])
      as (n' & Hit); try assumption; try lia.
    rewrite Hit. cbn [app].
    now destruct (queue_update Q_OK (rd_advance oqp (Z.to_nat n)) n k). }
  pose proof (queue_update_spec Q_OK (rd_advance oqp (Z.to_nat n)) n k)
    as (_ & _ & Hb & Ht & Hwp & Hrp & _).
  change (q_buffer (rd_advance oqp (Z.to_nat n))) with (q_buffer oqp) in Hb.
  change (q_top (rd_advance oqp (Z.to_nat n))) with (q_top oqp) in Ht.
  change (q_wrptr (rd_advance oqp (Z.to_nat n))) with (q_wrptr oqp) in Hwp.
  change (q_rdptr (rd_advance oqp (Z.to_nat n)))
    with (circ_advance (q_buffer oqp) (q_top oqp) (q_rdptr oqp) (Z.to_nat n))
    in Hrp.
  do 2 eexists. split; [apply Hrun|].
  split.
  { intros Hmod. zdiv4 n.
    replace (8 * (n mod 4)) with (8 * Z.of_nat (Z.to_nat (n mod 4))) by lia.
    apply (le_words_last (Z.to_nat (n / 4))); [|lia].
    rewrite length_circ_read. lia. }
  split.
  { intros m2 Hagree. rewrite !Hrun.
    now rewrite (circ_read_ext m m2) by assumption. }
  split; [exact Hb|]. split; [exact Ht|]. split; [exact Hwp|].
  split.
  { rewrite Hrp, circ_advance_mod by assumption. do 3 f_equal. lia. }
  unfold rd_ok in *. rewrite Hb, Ht, Hrp. now apply circ_advance_ok.
Qed.

Lemma otg_fifo_write_from_queue_words_witness :
  exists oqp' k',
    otg_fifo_write_from_queue 0 11 (fun a => byte.of_Z (a * 7))
      (mkKernel [] (fun _ => 7)) (mkQueue [] 0 100 110 100 107) 10 =
    Some (le_words (circ_read (fun a => byte.of_Z (a * 7)) 100 110 107
                              (Z.to_nat 10)), oqp', k') /\
    q_rdptr oqp' = 100 + (107 - 100 + 10) mod (110 - 100).
Proof.
  destruct (otg_fifo_write_from_queue_words 0 11 (fun a => byte.of_Z (a * 7))
              (mkKernel [] (fun _ => 7)) (mkQueue [] 0 100 110 100 107) 10)
    as (oqp' & k' & Hrun & _ & _ & _ & _ & _ & Hrp & _).
  - unfold rd_ok. cbn. lia.
  - vm_compute. split; [discriminate | reflexivity].
  - vm_compute. lia.
  - exists oqp', k'. split; assumption.
Defined.

(** * Further properties of the transmit fill engine *)

Lemma packet_sizes_shape M T : 0 < M -> forall new c,
  Forall (fun p => 0 < pk_size p <= M /\ (pk_size p < M -> pk_txcnt p = T))
         new ->
  counted c new -> c + pushed new = T ->
  map pk_size new =
  repeat M (Z.to_nat ((T - c) / M)) ++
  (if (T - c) mod M =? 0 then [] else [(T - c) mod M]).
Proof.
  intros HM. induction new as [|p new IH]; intros c Hall Hctd Hsum.
  - cbn [pushed fold_right] in Hsum.
    replace (T - c) with 0 by lia.
    rewrite Z.div_0_l, Z.mod_0_l by lia. reflexivity.
  - cbn [pushed fold_right counted map] in *. fold (pushed new) in Hsum.
    destruct Hctd as (Ecnt & Hctd).
    apply Forall_cons_iff in Hall. destruct Hall as ((Hp & Hshort) & Hrest).
    assert (Hpos : Forall (fun p => 0 < pk_size p) new)
      by (eapply Forall_impl; [|exact Hrest]; cbn; intros ? (? & _); lia).
    assert (Hnn : 0 <= pushed new).
    { clear - Hpos. induction Hpos as [|q new Hq _ IHn];
        cbn [pushed fold_right]; [lia | fold (pushed new); lia]. }
    destruct (Z.eq_dec (pk_size p) M) as [E | E].
    + rewrite (IH (pk_txcnt p)) by (assumption || lia).
      replace (T - c) with (T - pk_txcnt p + 1 * M) by lia.
      rewrite Z.div_add, Z.mod_add by lia.
      replace (Z.to_nat ((T - pk_txcnt p) / M + 1))
        with (Datatypes.S (Z.to_nat ((T - pk_txcnt p) / M)))
        by (assert (0 <= (T - pk_txcnt p) / M) by (apply Z.div_pos; lia); lia).
      cbn [repeat app]. now rewrite E.
    + assert (Hlast : pk_txcnt p = T) by (apply Hshort; lia).
      assert (new = []) by (apply pushed_positive; [assumption | lia]).
      subst new. cbn [map].
      replace (T - c) with (pk_size p) by lia.
      rewrite Z.div_small, Z.mod_small by lia.
      destruct (Z.eqb_spec (pk_size p) 0); [lia | reflexivity].
Qed.

(** X6.  With room in the TX FIFO for a full packet at every look, the
    packets [otg_txfifo_handler] pushes for the [R] bytes that remain are
    [R / M] packets of the maximum size [M] followed, when [M] does not
    divide [R], by one packet of [R mod M] bytes. *)
Theorem txfifo_packet_sizes (Q_OK MASK : Z) (DTXFSTS : nat -> Z) (M : Z)
  (m : mem) (fuel : nat) (s : fill) :
  fill_ok s -> 0 < M ->
  (forall k, M <= txfifo_space MASK (DTXFSTS k)) ->
  (Z.to_nat (remaining s) < fuel)%nat ->
  exists s' new,
    otg_txfifo_handler Q_OK MASK DTXFSTS M m fuel s = Some (true, s') /\
    f_packets s' = f_packets s ++ new /\
    map pk_size new =
    repeat M (Z.to_nat (remaining s / M)) ++
    (if remaining s mod M =? 0 then [] else [remaining s mod M]).
Proof.
  intros Hok HM Hunl Hfuel.
  destruct (fill_run Q_OK MASK DTXFSTS M m (Z.to_nat (remaining s)) fuel fuel s)
    as (b & s' & new & Hrun & Hpk & Hsz & Hcnt & Hall & Ht & _ & Hun & _ &
        Hctd); try assumption; try lia.
  destruct (Hun Hunl) as (-> & _). specialize (Ht eq_refl).
  exists s', new. split; [exact Hrun|]. split; [exact Hpk|].
  unfold remaining.
  apply packet_sizes_shape; try assumption. lia.
Qed.

Lemma txfifo_packet_sizes_witness :
  exists s' new,
    otg_txfifo_handler 0 65535 (fun _ => 100) 64 (fun a => byte.of_Z a) 131
      (mkFill (mkInState 130 0 (Linear 100)) (mkKernel [] (fun _ => 0))
              0 [] []) = Some (true, s') /\
    f_packets s' = new /\
    map pk_size new = [64; 64; 2].
Proof.
  destruct (txfifo_packet_sizes 0 65535 (fun _ => 100) 64
              (fun a => byte.of_Z a) 131
              (mkFill (mkInState 130 0 (Linear 100))
                      (mkKernel [] (fun _ => 0)) 0 [] []))
    as (s' & new & Hrun & Hpk & Hsizes).
  - unfold fill_ok. cbn. repeat split; lia.
  - lia.
  - intros k. vm_compute. discriminate.
  - vm_compute. lia.
  - exists s', new. split; [exact Hrun|]. split; [exact Hpk|]. exact Hsizes.
Defined.

Lemma carry_app (ws1 ws2 : list Z) (c1 c2 : nat) (l1 l2 : list byte) :
  length ws1 = ((c1 + 3) / 4)%nat -> firstn c1 (bytes_of ws1) = l1 ->
  length ws2 = ((c2 + 3) / 4)%nat -> firstn c2 (bytes_of ws2) = l2 ->
  (c1 mod 4 = 0 \/ c2 = 0)%nat ->
  length (ws1 ++ ws2) = ((c1 + c2 + 3) / 4)%nat /\
  firstn (c1 + c2) (bytes_of (ws1 ++ ws2)) = l1 ++ l2.
Proof.
  intros Hl1 Hb1 Hl2 Hb2 [Hc | ->].
  - div4 c1. div4 (c1 + 3)%nat. div4 (c2 + 3)%nat. div4 (c1 + c2 + 3)%nat.
    assert (Hlen : length (bytes_of ws1) = c1)
      by (rewrite length_bytes_of, Hl1; lia).
    split; [rewrite length_app, Hl1, Hl2; lia|].
    rewrite bytes_of_app. rewrite <- Hlen at 1. rewrite firstn_app_2, Hb2.
    f_equal. rewrite <- Hb1. rewrite <- Hlen at 1. now rewrite firstn_all.
  - assert (ws2 = []) by (destruct ws2; [reflexivity | discriminate]).
    subst ws2. cbn [firstn] in Hb2. subst l2.
    rewrite !app_nil_r, Nat.add_0_r. now split.
Qed.

Lemma tx_source_nil m md : tx_source m md 0 = [].
Proof. now destruct md. Qed.

Lemma tx_source_app m md c1 md1 c2 :
  0 <= c1 -> tx_mode_after md c1 md1 ->
  tx_source m md (Z.to_nat c1 + c2) =
  tx_source m md (Z.to_nat c1) ++ tx_source m md1 c2.
Proof.
  intros Hc Hafter.
  destruct md as [b | q], md1 as [b1 | q1]; cbn [tx_mode_after] in Hafter;
    try contradiction; cbn [tx_source].
  - subst b1. rewrite linear_read_app. do 2 f_equal. lia.
  - destruct Hafter as (Hb & Ht & _ & Hr & _). rewrite Hb, Ht, Hr.
    apply circ_read_app.
Qed.

Lemma tx_mode_after_trans md c1 md1 c2 md2 :
  0 <= c1 -> 0 <= c2 ->
  tx_mode_after md c1 md1 -> tx_mode_after md1 c2 md2 ->
  tx_mode_after md (c1 + c2) md2.
Proof.
  intros Hc1 Hc2 H1 H2.
  destruct md as [b | q], md1 as [b1 | q1], md2 as [b2 | q2];
    cbn [tx_mode_after] in *; try contradiction.
  - lia.
  - destruct H1 as (Hb1 & Ht1 & Hw1 & Hr1 & Hc1' & _).
    destruct H2 as (Hb2 & Ht2 & Hw2 & Hr2 & Hc2' & Hq2).
    rewrite Hb2, Ht2, Hw2, Hr2, Hc2', Hb1, Ht1, Hw1, Hr1, Hc1'.
    repeat split; try assumption.
    + rewrite Z2Nat.inj_add by lia. symmetry. apply circ_advance_add.
    + unfold u32. rewrite Zplus_mod_idemp_l. f_equal. lia.
Qed.

Section FillContent.

Variable Q_OK : Z.
Variable MASK : Z.
Variable DTXFSTS : nat -> Z.
Variable M : Z.
Variable m : mem.

Local Abbreviation body := (txfifo_body Q_OK MASK DTXFSTS M m).
Local Abbreviation space := (txfifo_space MASK).
Local Abbreviation packet_size := (next_packet M).

(** One packet is pushed: its words carry the next bytes of the source,
    and the source has moved on. *)
Lemma txfifo_body_push_content fuel s :
  fill_ok s -> 0 < M < 2 ^ 16 ->
  txcnt (f_isp s) < txsize (f_isp s) ->
  packet_size (f_isp s) <= space (DTXFSTS (f_reads s)) ->
  (Z.to_nat (remaining s) < fuel)%nat ->
  exists s1 ws,
    body fuel s = Some (Next s1) /\
    fill_ok s1 /\
    txsize (f_isp s1) = txsize (f_isp s) /\
    txcnt (f_isp s1) = txcnt (f_isp s) + packet_size (f_isp s) /\
    f_fifo s1 = f_fifo s ++ ws /\
    length ws = ((Z.to_nat (packet_size (f_isp s)) + 3) / 4)%nat /\
    firstn (Z.to_nat (packet_size (f_isp s))) (bytes_of ws)
    = tx_source m (mode (f_isp s)) (Z.to_nat (packet_size (f_isp s))) /\
    tx_mode_after (mode (f_isp s)) (packet_size (f_isp s)) (mode (f_isp s1)).
Proof.
  intros Hok HM Hlt Hsp Hfuel.
  destruct (next_packet_spec M s Hok ltac:(lia) Hlt) as (Hn & Hrem & _).
  destruct Hok as (Hc & Hs & Hq).
  unfold remaining in *. unfold txfifo_body.
  apply Z.leb_gt in Hlt. rewrite Hlt. apply Z.leb_gt in Hlt.
  apply Z.ltb_ge in Hsp. rewrite Hsp.
  cbn [f_kernel f_reads f_fifo f_packets].
  set (n := packet_size (f_isp s)) in *.
  rewrite (u32_small (txcnt (f_isp s) + n)) by lia.
  assert (Hconv : ((Z.to_nat n + 3) / 4)%nat = Z.to_nat ((n + 3) / 4)).
  { zdiv4 (n + 3). div4 (Z.to_nat n + 3)%nat. lia. }
  destruct (mode (f_isp s)) as [txbuf | q] eqn:Emode.
  - destruct (otg_fifo_write_from_buffer_spec m txbuf n) as (Hl & Hb);
      [lia | change (2 ^ 32) with 4294967296;
             change (2 ^ 16) with 65536 in HM; lia |].
    do 2 eexists. split; [reflexivity|].
    unfold fill_ok. cbn [f_isp txcnt txsize mode f_fifo tx_source].
    split; [repeat split; lia|]. split; [reflexivity|].
    split; [reflexivity|]. split; [reflexivity|].
    split; [now rewrite Hl, Hconv|].
    split; [|reflexivity].
    rewrite Hb. apply firstn_linear_read. zdiv4 (n + 3). lia.
  - destruct (otg_fifo_write_from_queue_spec Q_OK m fuel (f_kernel s) q n)
      as (ws & Hrun & Hl & Hb); [now right | lia | lia |].
    rewrite Hrun.
    pose proof (queue_update_spec Q_OK (rd_advance q (Z.to_nat n)) n
                  (f_kernel s)) as (Hcn & Hw & Hqb & Hqt & Hwp & Hr & _).
    pose proof (rd_advance_ok q (Z.to_nat n) Hq) as Hadv.
    change (q_buffer (rd_advance q (Z.to_nat n))) with (q_buffer q) in *.
    change (q_top (rd_advance q (Z.to_nat n))) with (q_top q) in *.
    change (q_wrptr (rd_advance q (Z.to_nat n))) with (q_wrptr q) in *.
    change (q_counter (rd_advance q (Z.to_nat n))) with (q_counter q) in *.
    change (q_rdptr (rd_advance q (Z.to_nat n)))
      with (circ_advance (q_buffer q) (q_top q) (q_rdptr q) (Z.to_nat n)) in *.
    do 2 eexists. split; [reflexivity|].
    unfold fill_ok.
    cbn [f_isp txcnt txsize mode f_fifo tx_source tx_mode_after].
    split.
    { repeat split; try lia; unfold rd_ok in *; rewrite ?Hqb, ?Hqt, ?Hr;
        unfold rd_ok in Hadv; cbn [rd_advance set_rdptr q_buffer q_top q_rdptr]
          in Hadv; lia. }
    split; [reflexivity|]. split; [reflexivity|]. split; [reflexivity|].
    split; [exact Hl|]. split; [exact Hb|].
    repeat split; assumption.
Qed.

(** Whatever the FIFO status register says, the words the handler has
    written when it returns carry exactly the bytes it has counted, in
    source order. *)
Lemma fill_run_content N : forall fuel f s,
  fill_ok s -> 0 < M < 2 ^ 16 -> M mod 4 = 0 ->
  (Z.to_nat (remaining s) <= N)%nat ->
  (Z.to_nat (remaining s) < f)%nat ->
  (Z.to_nat (remaining s) < fuel)%nat ->
  exists b s' ws,
    iterate f (body fuel) s = Some (b, s') /\
    f_fifo s' = f_fifo s ++ ws /\
    txsize (f_isp s') = txsize (f_isp s) /\
    txcnt (f_isp s) <= txcnt (f_isp s') <= txsize (f_isp s) /\
    length ws
    = ((Z.to_nat (txcnt (f_isp s') - txcnt (f_isp s)) + 3) / 4)%nat /\
    firstn (Z.to_nat (txcnt (f_isp s') - txcnt (f_isp s))) (bytes_of ws)
    = tx_source m (mode (f_isp s))
                (Z.to_nat (txcnt (f_isp s') - txcnt (f_isp s))) /\
    tx_progress (mode (f_isp s)) (txcnt (f_isp s') - txcnt (f_isp s))
                (mode (f_isp s')) /\
    (b = true -> txcnt (f_isp s') = txsize (f_isp s)).
Proof.
  assert (Hstop : forall b s s', fill_ok s ->
    f_fifo s' = f_fifo s -> f_isp s' = f_isp s ->
    (b = true -> txcnt (f_isp s) = txsize (f_isp s)) ->
    f_fifo s' = f_fifo s ++ [] /\
    txsize (f_isp s') = txsize (f_isp s) /\
    txcnt (f_isp s) <= txcnt (f_isp s') <= txsize (f_isp s) /\
    length (@nil Z)
    = ((Z.to_nat (txcnt (f_isp s') - txcnt (f_isp s)) + 3) / 4)%nat /\
    firstn (Z.to_nat (txcnt (f_isp s') - txcnt (f_isp s))) (bytes_of [])
    = tx_source m (mode (f_isp s))
                (Z.to_nat (txcnt (f_isp s') - txcnt (f_isp s))) /\
    tx_progress (mode (f_isp s)) (txcnt (f_isp s') - txcnt (f_isp s))
                (mode (f_isp s')) /\
    (b = true -> txcnt (f_isp s') = txsize (f_isp s))).
  { intros b s s' (Hc & _) Hf Hi Hb. rewrite Hi, Hf, app_nil_r, Z.sub_diag.
    cbn [Z.to_nat]. rewrite tx_source_nil.
    repeat split; try lia; try assumption. now left. }
  induction N as [|N IH]; intros fuel f s Hok HM H4 HN Hf Hfuel.
  - destruct f as [|f]; [lia|].
    assert (Hdone : txsize (f_isp s) <= txcnt (f_isp s))
      by (unfold remaining in HN; lia).
    exists true, s, []. cbn [iterate].
    rewrite txfifo_body_done by assumption.
    split; [reflexivity|]. apply Hstop; try reflexivity; try assumption.
    destruct Hok as (Hc & _). lia.
  - destruct f as [|f]; [lia|].
    destruct (Z.le_gt_cases (txsize (f_isp s)) (txcnt (f_isp s)))
      as [Hdone | Hlt].
    + exists true, s, []. cbn [iterate].
      rewrite txfifo_body_done by assumption.
      split; [reflexivity|]. apply Hstop; try reflexivity; try assumption.
      destruct Hok as (Hc & _). lia.
    + destruct (next_packet_spec M s Hok ltac:(lia) Hlt)
        as (Hn & Hrem & Hlast).
      destruct (Z.lt_ge_cases (space (DTXFSTS (f_reads s)))
                              (packet_size (f_isp s))) as [Hbusy | Hfits].
      * eexists false, _, []. cbn [iterate].
        rewrite txfifo_body_busy by assumption.
        split; [reflexivity|].
        apply Hstop; try reflexivity; try assumption. discriminate.
      * destruct (txfifo_body_push_content fuel s Hok HM Hlt Hfits Hfuel)
          as (s1 & ws1 & Hbody & Hok1 & Hsz1 & Hcnt1 & Hfifo1 & Hl1 & Hb1 &
              Hafter).
        set (n := packet_size (f_isp s)) in *.
        assert (Hrem1 : remaining s1 = remaining s - n)
          by (unfold remaining; lia).
        destruct (IH fuel f s1 Hok1 HM H4) as
          (b & s' & ws2 & Hit & Hfifo & Hsz & Hcnt & Hl2 & Hb2 & Hprog & Ht);
          try lia.
        set (c2 := txcnt (f_isp s') - txcnt (f_isp s1)) in *.
        assert (Hc2 : 0 <= c2) by (subst c2; lia).
        assert (Hc : txcnt (f_isp s') - txcnt (f_isp s) = n + c2)
          by (subst c2; lia).
        assert (Hcond : ((Z.to_nat n) mod 4 = 0 \/ Z.to_nat c2 = 0)%nat).
        { destruct (Z.eq_dec n M) as [E | E].
          - left. rewrite E. zdiv4 M. div4 (Z.to_nat M). lia.
          - right. specialize (Hlast ltac:(lia)). unfold remaining in Hlast.
            subst c2. lia. }
        destruct (carry_app ws1 ws2 (Z.to_nat n) (Z.to_nat c2) _ _
                    Hl1 Hb1 Hl2 Hb2 Hcond) as (Hl & Hb).
        exists b, s', (ws1 ++ ws2). cbn [iterate]. rewrite Hbody, Hit.
        rewrite Hc, Z2Nat.inj_add by lia.
        split; [reflexivity|].
        split; [rewrite Hfifo, Hfifo1, <- app_assoc; reflexivity|].
        split; [lia|]. split; [lia|].
        split; [exact Hl|].
        split; [rewrite Hb; symmetry; apply tx_source_app;
                [lia | exact Hafter]|].
        split.
        { right. split; [lia|].
          destruct Hprog as [(Hz & Hsame) | (Hpos & Hafter2)].
          - rewrite Hz, Z.add_0_r, Hsame. exact Hafter.
          - eapply tx_mode_after_trans; eauto. lia. }
        intros Hb'. specialize (Ht Hb'). lia.
Qed.

End FillContent.

(** X7.  Linear transfers, with a maximum packet size that is a multiple
    of four: whenever [otg_txfifo_handler] returns, [TRUE] or [FALSE], the
    words it has written to the TX FIFO carry, packed LSB first and in
    order, exactly the bytes of the transfer buffer it has counted in
    [txcnt]; the buffer pointer has moved on by that many bytes; and with
    [TRUE] that is all that remained. *)
Theorem txfifo_linear_content (Q_OK MASK : Z) (DTXFSTS : nat -> Z) (M : Z)
  (m : mem) (fuel : nat) (s : fill) (txbuf : Z) :
  fill_ok s -> mode (f_isp s) = Linear txbuf ->
  0 < M < 2 ^ 16 -> M mod 4 = 0 ->
  (Z.to_nat (remaining s) < fuel)%nat ->
  exists b s' ws,
    otg_txfifo_handler Q_OK MASK DTXFSTS M m fuel s = Some (b, s') /\
    f_fifo s' = f_fifo s ++ ws /\
    0 <= txcnt (f_isp s') - txcnt (f_isp s) <= remaining s /\
    Z.of_nat (length ws) = (txcnt (f_isp s') - txcnt (f_isp s) + 3) / 4 /\
    firstn (Z.to_nat (txcnt (f_isp s') - txcnt (f_isp s))) (bytes_of ws)
    = linear_read m txbuf (Z.to_nat (txcnt (f_isp s') - txcnt (f_isp s))) /\
    mode (f_isp s') = Linear (txbuf + (txcnt (f_isp s') - txcnt (f_isp s))) /\
    (b = true -> txcnt (f_isp s') - txcnt (f_isp s) = remaining s).
Proof.
  intros Hok Hmode HM H4 Hfuel.
  destruct (fill_run_content Q_OK MASK DTXFSTS M m (Z.to_nat (remaining s))
              fuel fuel s)
    as (b & s' & ws & Hrun & Hfifo & Hsz & Hcnt & Hl & Hb & Hprog & Ht);
    try assumption; try lia.
  set (c := txcnt (f_isp s') - txcnt (f_isp s)) in *.
  rewrite Hmode in Hb, Hprog. cbn [tx_source] in Hb.
  assert (Hc0 : 0 <= c) by (subst c; lia).
  exists b, s', ws. unfold otg_txfifo_handler, remaining. fold c.
  split; [exact Hrun|]. split; [exact Hfifo|]. split; [subst c; lia|].
  split; [rewrite Hl; zdiv4 (c + 3); div4 (Z.to_nat c + 3)%nat; lia|].
  split; [exact Hb|].
  split.
  - destruct Hprog as [(Hz & Hsame) | (Hpos & Hafter)].
    + now rewrite Hsame, Hz, Z.add_0_r.
    + destruct (mode (f_isp s')) as [b' | q']; cbn [tx_mode_after] in Hafter;
        [now subst b' | contradiction].
  - intros Hb'. specialize (Ht Hb'). subst c. lia.
Qed.

Lemma txfifo_linear_content_witness :
  exists b s' ws,
    otg_txfifo_handler 0 65535 (fun k => if (k <? 2)%nat then 100 else 0) 64
      (fun a => byte.of_Z a) 131
      (mkFill (mkInState 130 0 (Linear 100)) (mkKernel [] (fun _ => 0))
              0 [] []) = Some (b, s') /\
    f_fifo s' = ws /\
    firstn (Z.to_nat (txcnt (f_isp s') - 0)) (bytes_of ws)
    = linear_read (fun a => byte.of_Z a) 100
                  (Z.to_nat (txcnt (f_isp s') - 0)).
Proof.
  destruct (txfifo_linear_content 0 65535
              (fun k => if (k <? 2)%nat then 100 else 0) 64
              (fun a => byte.of_Z a) 131
              (mkFill (mkInState 130 0 (Linear 100))
                      (mkKernel [] (fun _ => 0)) 0 [] []) 100)
    as (b & s' & ws & Hrun & Hfifo & _ & _ & Hb & _).
  - unfold fill_ok. cbn. repeat split; lia.
  - reflexivity.
  - vm_compute. split; reflexivity.
  - reflexivity.
  - vm_compute. lia.
  - exists b, s', ws. split; [exact Hrun|]. split; [exact Hfifo|]. exact Hb.
Defined.

(** X8.  Queue transfers, with a maximum packet size that is a multiple of
    four: whenever [otg_txfifo_handler] returns, the words it has written
    to the TX FIFO carry, in order, exactly the bytes found from the read
    cursor of the queue on, as many as it has counted in [txcnt]; the read
    cursor has moved on that many bytes round the buffer; and once a packet
    has gone the counter of the queue has grown by the same number and no
    thread is left waiting on the queue. *)
Theorem txfifo_queue_content (Q_OK MASK : Z) (DTXFSTS : nat -> Z) (M : Z)
  (m : mem) (fuel : nat) (s : fill) (q : OutputQueue) :
  fill_ok s -> mode (f_isp s) = Queue q ->
  0 < M < 2 ^ 16 -> M mod 4 = 0 ->
  (Z.to_nat (remaining s) < fuel)%nat ->
  exists b s' ws q',
    otg_txfifo_handler Q_OK MASK DTXFSTS M m fuel s = Some (b, s') /\
    f_fifo s' = f_fifo s ++ ws /\
    0 <= txcnt (f_isp s') - txcnt (f_isp s) <= remaining s /\
    Z.of_nat (length ws) = (txcnt (f_isp s') - txcnt (f_isp s) + 3) / 4 /\
    firstn (Z.to_nat (txcnt (f_isp s') - txcnt (f_isp s))) (bytes_of ws)
    = circ_read m (q_buffer q) (q_top q) (q_rdptr q)
                (Z.to_nat (txcnt (f_isp s') - txcnt (f_isp s))) /\
    mode (f_isp s') = Queue q' /\
    q_buffer q' = q_buffer q /\ q_top q' = q_top q /\
    q_wrptr q' = q_wrptr q /\
    q_rdptr q' =
    circ_advance (q_buffer q) (q_top q) (q_rdptr q)
                 (Z.to_nat (txcnt (f_isp s') - txcnt (f_isp s))) /\
    (0 < txcnt (f_isp s') - txcnt (f_isp s) ->
     q_counter q' = u32 (q_counter q + (txcnt (f_isp s') - txcnt (f_isp s)))
     /\ q_waiting q' = []) /\
    (b = true -> txcnt (f_isp s') - txcnt (f_isp s) = remaining s).
Proof.
  intros Hok Hmode HM H4 Hfuel.
  destruct (fill_run_content Q_OK MASK DTXFSTS M m (Z.to_nat (remaining s))
              fuel fuel s)
    as (b & s' & ws & Hrun & Hfifo & Hsz & Hcnt & Hl & Hb & Hprog & Ht);
    try assumption; try lia.
  set (c := txcnt (f_isp s') - txcnt (f_isp s)) in *.
  rewrite Hmode in Hb, Hprog. cbn [tx_source] in Hb.
  assert (Hq' : exists q', mode (f_isp s') = Queue q' /\
              q_buffer q' = q_buffer q /\ q_top q' = q_top q /\
              q_wrptr q' = q_wrptr q /\
              q_rdptr q' = circ_advance (q_buffer q) (q_top q) (q_rdptr q)
                                        (Z.to_nat c) /\
              (0 < c -> q_counter q' = u32 (q_counter q + c) /\
                        q_waiting q' = [])).
  { destruct Hprog as [(Hz & Hsame) | (Hpos & Hafter)].
    - exists q. rewrite Hsame, Hz. cbn [Z.to_nat circ_advance].
      repeat split; lia.
    - destruct (mode (f_isp s')) as [b' | q']; cbn [tx_mode_after] in Hafter;
        [contradiction|].
      destruct Hafter as (H1 & H2 & H3 & H5 & H6 & H7).
      exists q'. repeat split; assumption. }
  destruct Hq' as (q' & Hm' & H1 & H2 & H3 & H5 & H6).
  assert (Hc0 : 0 <= c) by (subst c; lia).
  exists b, s', ws, q'. unfold otg_txfifo_handler, remaining. fold c.
  split; [exact Hrun|]. split; [exact Hfifo|]. split; [subst c; lia|].
  split; [rewrite Hl; zdiv4 (c + 3); div4 (Z.to_nat c + 3)%nat; lia|].
  split; [exact Hb|].
  repeat (split; [assumption|]).
  intros Hb'. specialize (Ht Hb'). subst c. lia.
Qed.

Lemma txfifo_queue_content_witness :
  exists b s' ws q',
    otg_txfifo_handler 0 65535 (fun _ => 100) 8 (fun a => byte.of_Z a) 21
      (mkFill (mkInState 20 0 (Queue (mkQueue [5%nat] 0 100 116 100 110)))
              (mkKernel [] (fun _ => 0)) 0 [] []) = Some (b, s') /\
    f_fifo s' = ws /\ mode (f_isp s') = Queue q' /\
    firstn (Z.to_nat (txcnt (f_isp s') - 0)) (bytes_of ws)
    = circ_read (fun a => byte.of_Z a) 100 116 110
                (Z.to_nat (txcnt (f_isp s') - 0)).
Proof.
  destruct (txfifo_queue_content 0 65535 (fun _ => 100) 8
              (fun a => byte.of_Z a) 21
              (mkFill (mkInState 20 0
                         (Queue (mkQueue [5%nat] 0 100 116 100 110)))
                      (mkKernel [] (fun _ => 0)) 0 [] [])
              (mkQueue [5%nat] 0 100 116 100 110))
    as (b & s' & ws & q' & Hrun & Hfifo & _ & _ & Hb & Hm & _).
  - unfold fill_ok, rd_ok. cbn. repeat split; lia.
  - reflexivity.
  - vm_compute. split; reflexivity.
  - reflexivity.
  - vm_compute. lia.
  - exists b, s', ws, q'. split; [exact Hrun|]. split; [exact Hfifo|].
    split; [exact Hm | exact Hb].
Defined.

(** X9.  The packet count [usb_lld_prepare_transmit] programs into
    [DIEPTSIZ] agrees with the fill engine: for a transfer of [T > 0] bytes
    it is the number of packets [otg_txfifo_handler] pushes when the FIFO
    always has room, and the size field is [T]; for [T = 0] the register
    asks for one packet of size zero, for which the handler pushes
    nothing. *)
Theorem prepare_transmit_packet_count (PKTCNT XFRSIZ : Z -> Z)
  (Q_OK MASK : Z) (DTXFSTS : nat -> Z) (M : Z) (m : mem) (fuel : nat)
  (s : fill) :
  fill_ok s -> txcnt (f_isp s) = 0 -> 0 < M ->
  txsize (f_isp s) + M - 1 < 2 ^ 32 ->
  (forall k, M <= txfifo_space MASK (DTXFSTS k)) ->
  (Z.to_nat (txsize (f_isp s)) < fuel)%nat ->
  exists s' new,
    otg_txfifo_handler Q_OK MASK DTXFSTS M m fuel s = Some (true, s') /\
    f_packets s' = f_packets s ++ new /\
    usb_lld_prepare_transmit PKTCNT XFRSIZ M (f_isp s) =
    Z.lor (PKTCNT (if txsize (f_isp s) =? 0 then 1
                   else Z.of_nat (length new)))
          (XFRSIZ (txsize (f_isp s))) /\
    (txsize (f_isp s) = 0 -> new = []).
Proof.
  intros Hok H0 HM Hwrap Hunl Hfuel.
  assert (Hrem : remaining s = txsize (f_isp s)) by (unfold remaining; lia).
  destruct (fill_run Q_OK MASK DTXFSTS M m (Z.to_nat (remaining s)) fuel fuel s)
    as (b & s' & new & Hrun & Hpk & _ & _ & _ & _ & _ & Hun & _);
    try assumption; try lia.
  destruct (Hun Hunl) as (-> & Hlen). rewrite Hrem in Hlen.
  exists s', new. unfold otg_txfifo_handler.
  split; [exact Hrun|]. split; [exact Hpk|].
  destruct Hok as (Hc & _).
  unfold usb_lld_prepare_transmit.
  destruct (Z.eqb_spec (txsize (f_isp s)) 0) as [E | E].
  - split; [now rewrite E|]. intros _.
    rewrite E in Hlen. rewrite Z.div_small in Hlen by lia.
    destruct new; [reflexivity | discriminate].
  - split; [|contradiction].
    rewrite u32_small by lia. now rewrite Hlen.
Qed.

Lemma prepare_transmit_packet_count_witness :
  exists s' new,
    otg_txfifo_handler 0 65535 (fun _ => 100) 64 (fun a => byte.of_Z a) 131
      (mkFill (mkInState 130 0 (Linear 100)) (mkKernel [] (fun _ => 0))
              0 [] []) = Some (true, s') /\
    f_packets s' = new /\
    usb_lld_prepare_transmit (fun n => Z.shiftl n 19) (fun n => n) 64
      (mkInState 130 0 (Linear 100)) =
    Z.lor (Z.shiftl (Z.of_nat (length new)) 19) 130.
Proof.
  destruct (prepare_transmit_packet_count (fun n => Z.shiftl n 19) (fun n => n)
              0 65535 (fun _ => 100) 64 (fun a => byte.of_Z a) 131
              (mkFill (mkInState 130 0 (Linear 100))
                      (mkKernel [] (fun _ => 0)) 0 [] []))
    as (s' & new & Hrun & Hpk & Hreg & _).
  - unfold fill_ok. cbn. repeat split; lia.
  - reflexivity.
  - lia.
  - vm_compute. reflexivity.
  - intros k. vm_compute. discriminate.
  - vm_compute. lia.
  - exists s', new. split; [exact Hrun|]. split; [exact Hpk|]. exact Hreg.
Defined.

(** * Further properties of the FIFO RAM allocator *)

Lemma total_nonneg0 sizes : Forall (fun s => 0 <= s) sizes -> 0 <= total sizes.
Proof.
  induction 1 as [|s sizes Hs _ IH]; cbn [total fold_right]; [lia|].
  fold (total sizes). lia.
Qed.

Lemma alloc_seq_nonneg MEM ASSERTS sizes : forall usbp,
  Forall (fun s => 0 <= s) sizes ->
  0 <= pmnext usbp ->
  pmnext usbp + total sizes < 2 ^ 32 ->
  ASSERTS = false \/ pmnext usbp + total sizes <= MEM ->
  alloc_seq MEM ASSERTS usbp sizes =
  Ret (offsets_from (pmnext usbp) sizes)
      {| pmnext := pmnext usbp + total sizes |}.
Proof.
  induction sizes as [|s sizes IH]; intros usbp Hpos H0 Hsum Hfit;
    cbn [alloc_seq offsets_from total fold_right].
  - destruct usbp; cbn [pmnext]. now rewrite Z.add_0_r.
  - fold (total sizes) in *.
    apply Forall_cons_iff in Hpos. destruct Hpos as (Hs & Hrest).
    pose proof (total_nonneg0 sizes Hrest) as Ht.
    cbn [total fold_right] in Hsum, Hfit. fold (total sizes) in Hsum, Hfit.
    rewrite otg_ram_alloc_fits
      by (rewrite u32_small by lia; destruct Hfit; [now left | right; lia]).
    rewrite u32_small by lia.
    rewrite IH; cbn [pmnext]; try assumption; try lia.
    + now rewrite Z.add_assoc.
    + destruct Hfit; [now left | right; lia].
Qed.

Lemma offsets_from_nth sizes : forall base i,
  (i < length sizes)%nat ->
  nth i (offsets_from base sizes) 0 = base + total (firstn i sizes).
Proof.
  induction sizes as [|s sizes IH]; intros base i Hi; cbn [length] in Hi;
    [lia|].
  destruct i as [|i]; cbn [offsets_from nth firstn total fold_right].
  - lia.
  - fold (total (firstn i sizes)). rewrite IH by lia. lia.
Qed.

Lemma total_firstn_succ sizes : forall i,
  (i < length sizes)%nat ->
  total (firstn (Datatypes.S i) sizes) = total (firstn i sizes) + nth i sizes 0.
Proof.
  induction sizes as [|s sizes IH]; intros i Hi; cbn [length] in Hi; [lia|].
  destruct i as [|i].
  - cbn [firstn nth total fold_right]. lia.
  - change (total (firstn (Datatypes.S (Datatypes.S i)) (s :: sizes)))
      with (s + total (firstn (Datatypes.S i) sizes)).
    change (total (firstn (Datatypes.S i) (s :: sizes)))
      with (s + total (firstn i sizes)).
    change (nth (Datatypes.S i) (s :: sizes) 0) with (nth i sizes 0).
    rewrite IH by lia. lia.
Qed.

Lemma total_firstn_mono sizes :
  Forall (fun s => 0 <= s) sizes ->
  forall b a, (a <= b)%nat -> total (firstn a sizes) <= total (firstn b sizes).
Proof.
  intros Hpos. induction b as [|b IH]; intros a Hab.
  - assert (a = 0%nat) by lia. subst a. lia.
  - destruct (Nat.eq_dec a (Datatypes.S b)) as [-> | Hne]; [lia|].
    specialize (IH a ltac:(lia)).
    destruct (Nat.lt_ge_cases b (length sizes)) as [Hb | Hb].
    + rewrite total_firstn_succ by assumption.
      assert (0 <= nth b sizes 0).
      { rewrite Forall_forall in Hpos. apply Hpos. now apply nth_In. }
      lia.
    + rewrite (firstn_all2 (n := Datatypes.S b)) by lia.
      rewrite (firstn_all2 (n := b)) in IH by lia. exact IH.
Qed.

(** X10.  A run of allocations (sizes not negative, running total below
    2^32, and either no assertions or a total that fits the FIFO RAM)
    returns one offset per request, and the regions handed out never
    overlap: each region ends at or before the start of every later one,
    and all of them lie between the starting [pmnext] and the final one. *)
Theorem alloc_regions_disjoint (MEM : Z) (ASSERTS : bool) (usbp : USBDriver)
  (sizes : list Z) :
  Forall (fun s => 0 <= s) sizes ->
  0 <= pmnext usbp ->
  pmnext usbp + total sizes < 2 ^ 32 ->
  ASSERTS = false \/ pmnext usbp + total sizes <= MEM ->
  exists offs usbp',
    alloc_seq MEM ASSERTS usbp sizes = Ret offs usbp' /\
    length offs = length sizes /\
    pmnext usbp' = pmnext usbp + total sizes /\
    (forall i j, (i < j < length sizes)%nat ->
                 nth i offs 0 + nth i sizes 0 <= nth j offs 0) /\
    (forall i, (i < length sizes)%nat ->
               pmnext usbp <= nth i offs 0 /\
               nth i offs 0 + nth i sizes 0 <= pmnext usbp').
Proof.
  intros Hpos H0 Hsum Hfit.
  exists (offsets_from (pmnext usbp) sizes),
         {| pmnext := pmnext usbp + total sizes |}.
  split; [now apply alloc_seq_nonneg|].
  split.
  { clear. generalize (pmnext usbp). induction sizes as [|s sizes IH];
      intros base; cbn [offsets_from length]; [reflexivity | now rewrite IH]. }
  split; [reflexivity|].
  cbn [pmnext]. split.
  - intros i j Hij. rewrite !offsets_from_nth by lia.
    pose proof (total_firstn_succ sizes i ltac:(lia)) as Hsucc.
    pose proof (total_firstn_mono sizes Hpos j (Datatypes.S i) ltac:(lia)).
    lia.
  - intros i Hi. rewrite offsets_from_nth by lia.
    pose proof (total_firstn_mono sizes Hpos i 0%nat ltac:(lia)) as Hlo.
    cbn [firstn total fold_right] in Hlo.
    pose proof (total_firstn_mono sizes Hpos (length sizes) (Datatypes.S i)
                  ltac:(lia)) as Hhi.
    rewrite firstn_all in Hhi. rewrite total_firstn_succ in Hhi by lia.
    lia.
Qed.

Lemma alloc_regions_disjoint_witness :
  exists offs usbp',
    alloc_seq 384 true (otg_ram_reset 128 (mkUSBDriver 0)) [16; 0; 32]
    = Ret offs usbp' /\
    forall i j, (i < j < 3)%nat ->
                nth i offs 0 + nth i [16; 0; 32] 0 <= nth j offs 0.
Proof.
  destruct (alloc_regions_disjoint 384 true (otg_ram_reset 128 (mkUSBDriver 0))
              [16; 0; 32])
    as (offs & usbp' & Hrun & _ & _ & Hdis & _).
  - repeat constructor; lia.
  - vm_compute. discriminate.
  - vm_compute. reflexivity.
  - right. vm_compute. discriminate.
  - exists offs, usbp'. split; [exact Hrun | exact Hdis].
Defined.



(** * Properties of the receive side *)

Lemma land_bounded a b : 0 <= b -> 0 <= Z.land a b <= b.
Proof.
  intros Hb. apply Z.ldiff_le; [assumption|].
  apply Z.bits_inj'. intros i Hi.
  rewrite Z.ldiff_spec, Z.land_spec, Z.bits_0.
  destruct (Z.testbit a i), (Z.testbit b i); reflexivity.
Qed.

Lemma shiftr_bounded a n : 0 <= a -> 0 <= n -> 0 <= Z.shiftr a n <= a.
Proof.
  intros Ha Hn. split; [now apply Z.shiftr_nonneg|].
  rewrite Z.shiftr_div_pow2 by assumption.
  apply Z.div_le_upper_bound; [apply Z.pow_pos_nonneg; lia|].
  assert (1 <= 2 ^ n) by (apply (Z.pow_le_mono_r 2 0 n); lia).
  nia.
Qed.

(** The byte count field of a status word lies within its mask. *)
Lemma grxstsp_cnt_range MASK OFF sts :
  0 <= MASK -> 0 <= OFF -> 0 <= grxstsp_cnt MASK OFF sts <= MASK.
Proof.
  intros HM HO. unfold grxstsp_cnt.
  pose proof (land_bounded sts MASK HM).
  pose proof (shiftr_bounded (Z.land sts MASK) OFF ltac:(lia) HO). lia.
Qed.

Lemma packet_bytes_fifo_words rx k n :
  (n <= 4 * k)%nat ->
  firstn n (bytes_of (fifo_words rx k)) = packet_bytes rx n.
Proof.
  intros Hn.
  set (ws := map (fun i => rx_words rx (i + rx_pos rx)%nat) (seq 0 k)).
  assert (Hlen : length ws = k)
    by (unfold ws; now rewrite length_map, length_seq).
  assert (Hfw : fifo_words rx k = map u32 ws)
    by (unfold fifo_words, ws; now rewrite map_map).
  rewrite Hfw, bytes_of_u32. symmetry. apply packet_bytes_of_words.
  - intros i Hi. rewrite Hlen in Hi. unfold ws.
    rewrite (nth_indep _ 0 (rx_words rx (0 + rx_pos rx)%nat))
      by (rewrite length_map, length_seq; exact Hi).
    rewrite (map_nth (fun i => rx_words rx (i + rx_pos rx)%nat)).
    now rewrite seq_nth by exact Hi.
  - now rewrite Hlen.
Qed.

(** [otg_fifo_read_to_buffer] seen from its caller: [ceil(n/4)] words
    leave the FIFO, nothing changes outside the [ceil(max/4)] words of the
    buffer, and a packet that fits them is found at [buf]. *)
Lemma otg_fifo_read_to_buffer_packet rx m buf n max :
  0 <= n -> n + 3 < 2 ^ 32 -> 0 <= max -> max + 3 < 2 ^ 32 ->
  fst (otg_fifo_read_to_buffer rx m buf n max)
  = rx_skip rx (Z.to_nat ((n + 3) / 4)) /\
  (forall a, a < buf \/ buf + 4 * ((max + 3) / 4) <= a ->
             snd (otg_fifo_read_to_buffer rx m buf n max) a = m a) /\
  (n <= 4 * ((max + 3) / 4) ->
   linear_read (snd (otg_fifo_read_to_buffer rx m buf n max)) buf (Z.to_nat n)
   = packet_bytes rx (Z.to_nat n)).
Proof.
  intros Hn Hn3 Hmax Hmax3.
  destruct (otg_fifo_read_to_buffer_spec rx m buf n max Hn Hn3 Hmax Hmax3)
    as (Hrx & Hm).
  set (k := Nat.min (Z.to_nat ((n + 3) / 4)) (Z.to_nat ((max + 3) / 4))) in *.
  destruct (otg_do_pop_spec k rx m buf) as (_ & _ & Hb & Hfr).
  rewrite Hm. zdiv4 (max + 3). zdiv4 (n + 3).
  split; [exact Hrx|]. split.
  - intros a Ha. apply Hfr. lia.
  - intros Hfit.
    rewrite <- (firstn_linear_read _ (Z.to_nat n) (4 * k)) by lia.
    rewrite Hb. apply packet_bytes_fifo_words. lia.
Qed.

Lemma memcpy_spec n : forall m dst src,
  dst + Z.of_nat n <= src \/ src + Z.of_nat n <= dst ->
  linear_read (memcpy m dst src n) dst n = linear_read m src n /\
  (forall a, a < dst \/ dst + Z.of_nat n <= a -> memcpy m dst src n a = m a).
Proof.
  induction n as [|n IH]; intros m dst src Hdis.
  - cbn [memcpy linear_read]. split; [reflexivity | intros; reflexivity].
  - cbn [memcpy linear_read].
    destruct (IH (mem_store m dst (m src)) (dst + 1) (src + 1) ltac:(lia))
      as (Hb & Hfr).
    assert (Hst : forall a, a <> dst -> mem_store m dst (m src) a = m a).
    { intros a Ha. unfold mem_store.
      destruct (Z.eqb_spec a dst); [contradiction | reflexivity]. }
    split.
    + rewrite Hb, Hfr by lia. f_equal.
      * unfold mem_store. now rewrite Z.eqb_refl.
      * apply linear_read_ext. intros a Ha. apply Hst. lia.
    + intros a Ha. rewrite Hfr by lia. apply Hst. lia.
Qed.

Section RxFacts.

Variable Q_OK : Z.
Variables PKTSTS_MASK SETUP_COMP SETUP_DATA OUT_DATA : Z.
Variables BCNT_MASK BCNT_OFF EPNUM_MASK EPNUM_OFF : Z.
Variable setup_buf : Z -> Z.

Local Abbreviation handler :=
  (otg_rxfifo_handler Q_OK PKTSTS_MASK SETUP_COMP SETUP_DATA OUT_DATA
     BCNT_MASK BCNT_OFF EPNUM_MASK EPNUM_OFF setup_buf).
Local Abbreviation cnt_of := (grxstsp_cnt BCNT_MASK BCNT_OFF).
Local Abbreviation ep_of := (grxstsp_ep EPNUM_MASK EPNUM_OFF).

(** X12.  A SETUP data status, whatever byte count it carries: the
    handler pops the [ceil(cnt/4)] words of the packet and writes to the
    eight bytes of the endpoint's setup buffer only; endpoint states and
    kernel are left alone.  When the packet has its eight bytes,
    [usb_lld_read_setup] then hands exactly those to the caller. *)
Theorem rxfifo_setup_packet (fuel : nat) (sts : Z) (s : rxside) :
  Z.land sts PKTSTS_MASK = SETUP_DATA -> SETUP_DATA <> SETUP_COMP ->
  0 <= BCNT_MASK -> BCNT_MASK + 3 < 2 ^ 32 -> 0 <= BCNT_OFF ->
  exists s',
    handler fuel sts s = Some s' /\
    r_fifo s' = rx_skip (r_fifo s) (Z.to_nat ((cnt_of sts + 3) / 4)) /\
    (forall a, a < setup_buf (ep_of sts) \/ setup_buf (ep_of sts) + 8 <= a ->
               r_mem s' a = r_mem s a) /\
    r_out s' = r_out s /\ r_kernel s' = r_kernel s /\
    (cnt_of sts = 8 ->
     forall buf,
       buf + 8 <= setup_buf (ep_of sts) \/ setup_buf (ep_of sts) + 8 <= buf ->
       linear_read (usb_lld_read_setup (r_mem s') (setup_buf (ep_of sts)) buf)
                   buf 8
       = packet_bytes (r_fifo s) 8).
Proof.
  intros Hsel Hne HM HM3 HO.
  pose proof (grxstsp_cnt_range BCNT_MASK BCNT_OFF sts HM HO) as Hcnt.
  unfold otg_rxfifo_handler. rewrite Hsel.
  destruct (Z.eqb_spec SETUP_DATA SETUP_COMP) as [|_]; [contradiction|].
  rewrite Z.eqb_refl.
  destruct (otg_fifo_read_to_buffer_packet (r_fifo s) (r_mem s)
              (setup_buf (ep_of sts)) (cnt_of sts) 8)
    as (Hrx & Hfr & Hdata); try lia.
  destruct (otg_fifo_read_to_buffer (r_fifo s) (r_mem s)
              (setup_buf (ep_of sts)) (cnt_of sts) 8) as [rx' m'].
  cbn [fst snd] in Hrx, Hfr, Hdata.
  eexists. split; [reflexivity|]. cbn [r_fifo r_mem r_out r_kernel].
  split; [exact Hrx|]. split.
  { intros a Ha. apply Hfr. change ((8 + 3) / 4) with 2. lia. }
  split; [reflexivity|]. split; [reflexivity|].
  intros H8 buf Hdis. rewrite H8 in Hdata.
  unfold usb_lld_read_setup.
  destruct (memcpy_spec 8 m' buf (setup_buf (ep_of sts))) as (Hcopy & _);
    [change (Z.of_nat 8) with 8; lia|].
  rewrite Hcopy. apply Hdata. change ((8 + 3) / 4) with 2. lia.
Qed.

(** X13.  An OUT data status for an endpoint that receives into a linear
    buffer, with [rxcnt <= rxsize]: the handler pops the packet, writes
    only to the words that cover the [rxsize - rxcnt] bytes still
    expected, moves [rxbuf] on by the byte count and adds it to [rxcnt];
    the other endpoints and the kernel are untouched, and a packet that
    fits is found, byte for byte, where [rxbuf] pointed. *)
Theorem rxfifo_out_linear (fuel : nat) (sts : Z) (s : rxside) (rxbuf : Z) :
  let osp := r_out s (ep_of sts) in
  let room := rxsize osp - rxcnt osp in
  Z.land sts PKTSTS_MASK = OUT_DATA ->
  OUT_DATA <> SETUP_COMP -> OUT_DATA <> SETUP_DATA ->
  0 <= BCNT_MASK -> BCNT_MASK + 3 < 2 ^ 32 -> 0 <= BCNT_OFF ->
  rx_md osp = RxLinear rxbuf ->
  0 <= rxcnt osp <= rxsize osp -> rxsize osp + 3 < 2 ^ 32 ->
  exists s',
    handler fuel sts s = Some s' /\
    r_fifo s' = rx_skip (r_fifo s) (Z.to_nat ((cnt_of sts + 3) / 4)) /\
    r_out s' (ep_of sts)
    = mkOutState (rxsize osp) (u32 (rxcnt osp + cnt_of sts))
                 (RxLinear (rxbuf + cnt_of sts)) /\
    (forall e, e <> ep_of sts -> r_out s' e = r_out s e) /\
    r_kernel s' = r_kernel s /\
    (forall a, a < rxbuf \/ rxbuf + 4 * ((room + 3) / 4) <= a ->
               r_mem s' a = r_mem s a) /\
    (cnt_of sts <= room ->
     linear_read (r_mem s') rxbuf (Z.to_nat (cnt_of sts))
     = packet_bytes (r_fifo s) (Z.to_nat (cnt_of sts))).
Proof.
  intros osp room Hsel Hne1 Hne2 HM HM3 HO Hmd Hcntsz Hsz.
  pose proof (grxstsp_cnt_range BCNT_MASK BCNT_OFF sts HM HO) as Hcnt.
  unfold otg_rxfifo_handler. rewrite Hsel.
  destruct (Z.eqb_spec OUT_DATA SETUP_COMP) as [|_]; [contradiction|].
  destruct (Z.eqb_spec OUT_DATA SETUP_DATA) as [|_]; [contradiction|].
  rewrite Z.eqb_refl. fold osp. rewrite Hmd.
  rewrite (u32_small (rxsize osp - rxcnt osp)) by lia. fold room.
  destruct (otg_fifo_read_to_buffer_packet (r_fifo s) (r_mem s) rxbuf
              (cnt_of sts) room)
    as (Hrx & Hfr & Hdata); try (subst room; lia).
  destruct (otg_fifo_read_to_buffer (r_fifo s) (r_mem s) rxbuf (cnt_of sts)
              room) as [rx' m'].
  cbn [fst snd] in Hrx, Hfr, Hdata.
  eexists. split; [reflexivity|]. cbn [r_fifo r_mem r_out r_kernel].
  split; [exact Hrx|]. split.
  { unfold set_out. now rewrite Z.eqb_refl. }
  split.
  { intros e He. unfold set_out.
    destruct (Z.eqb_spec e (ep_of sts)); [contradiction | reflexivity]. }
  split; [reflexivity|]. split; [exact Hfr|].
  intros Hfit. apply Hdata. zdiv4 (room + 3). lia.
Qed.

(** X14.  An OUT data status for an endpoint that receives into a queue
    whose write cursor lies in its buffer: the handler returns, having
    popped the packet; no byte outside the buffer of the queue changes; the
    byte count is added to [rxcnt] and to the counter of the queue, whose
    write cursor moves round by as much; the threads that waited on the
    queue are made ready in their order; the other endpoints are untouched;
    and a packet that fits the capacity is found from the old write cursor
    on. *)
Theorem rxfifo_out_queue (fuel : nat) (sts : Z) (s : rxside)
  (q : InputQueue) :
  let osp := r_out s (ep_of sts) in
  Z.land sts PKTSTS_MASK = OUT_DATA ->
  OUT_DATA <> SETUP_COMP -> OUT_DATA <> SETUP_DATA ->
  0 <= BCNT_MASK < 2 ^ 32 -> 0 <= BCNT_OFF ->
  rx_md osp = RxQueue q -> wr_ok q ->
  (Z.to_nat (cnt_of sts) < fuel)%nat ->
  exists s' q',
    handler fuel sts s = Some s' /\
    r_fifo s' = rx_skip (r_fifo s) (Z.to_nat ((cnt_of sts + 3) / 4)) /\
    r_out s' (ep_of sts)
    = mkOutState (rxsize osp) (u32 (rxcnt osp + cnt_of sts)) (RxQueue q') /\
    (forall e, e <> ep_of sts -> r_out s' e = r_out s e) /\
    (forall a, a < q_buffer q \/ q_top q <= a -> r_mem s' a = r_mem s a) /\
    q_buffer q' = q_buffer q /\ q_top q' = q_top q /\
    q_rdptr q' = q_rdptr q /\
    q_wrptr q' = circ_advance (q_buffer q) (q_top q) (q_wrptr q)
                              (Z.to_nat (cnt_of sts)) /\
    wr_ok q' /\
    q_counter q' = u32 (q_counter q + cnt_of sts) /\
    q_waiting q' = [] /\
    rlist (r_kernel s') = rlist (r_kernel s) ++ q_waiting q /\
    (cnt_of sts <= q_top q - q_buffer q ->
     circ_read (r_mem s') (q_buffer q) (q_top q) (q_wrptr q)
               (Z.to_nat (cnt_of sts))
     = packet_bytes (r_fifo s) (Z.to_nat (cnt_of sts))).
Proof.
  intros osp Hsel Hne1 Hne2 HM HO Hmd Hwr Hfuel.
  pose proof (grxstsp_cnt_range BCNT_MASK BCNT_OFF sts ltac:(lia) HO) as Hcnt.
  set (n := cnt_of sts) in *.
  unfold otg_rxfifo_handler. rewrite Hsel.
  destruct (Z.eqb_spec OUT_DATA SETUP_COMP) as [|_]; [contradiction|].
  destruct (Z.eqb_spec OUT_DATA SETUP_DATA) as [|_]; [contradiction|].
  rewrite Z.eqb_refl. fold osp. rewrite Hmd. fold n.
  rewrite (otg_fifo_read_to_queue_spec Q_OK fuel (r_fifo s) (r_mem s)
             (r_kernel s) q n Hwr ltac:(lia) Hfuel).
  unfold read_to_queue_bytewise.
  set (bs := packet_bytes (r_fifo s) (Z.to_nat n)).
  assert (Hlen : length bs = Z.to_nat n) by apply length_packet_bytes.
  pose proof (byte_copy_cursor bs (r_mem s) (q_buffer q) (q_top q) (q_wrptr q))
    as Hcur.
  pose proof (fun a => byte_copy_inside (q_buffer q) (q_top q) bs (r_mem s)
                         (q_wrptr q) a Hwr) as Hin.
  pose proof (circ_read_byte_copy (q_buffer q) (q_top q) bs (r_mem s)
                (q_wrptr q) Hwr) as Hback.
  destruct (byte_copy bs (r_mem s) (q_buffer q) (q_top q) (q_wrptr q))
    as [m' p].
  cbn [fst snd] in Hcur, Hin, Hback. rewrite Hlen in Hcur, Hback.
  pose proof (queue_update_spec Q_OK (set_wrptr q p) n (r_kernel s))
    as (Hc & Hw & Hb & Ht & Hwp & Hrp & Hrl & _).
  destruct (queue_update Q_OK (set_wrptr q p) n (r_kernel s)) as [q' k'].
  cbn [fst snd set_wrptr q_buffer q_top q_wrptr q_rdptr q_counter q_waiting]
    in *.
  exists (mkRxSide (mkRx (rx_words (r_fifo s))
                         (Z.to_nat ((n + 3) / 4) + rx_pos (r_fifo s)))
                   m' k'
                   (set_out (r_out s) (ep_of sts)
                      (mkOutState (rxsize osp) (u32 (rxcnt osp + n))
                                  (RxQueue q')))), q'.
  split; [reflexivity|]. cbn [r_fifo r_mem r_out r_kernel].
  split; [reflexivity|]. split.
  { unfold set_out. now rewrite Z.eqb_refl. }
  split.
  { intros e He. unfold set_out.
    destruct (Z.eqb_spec e (ep_of sts)); [contradiction | reflexivity]. }
  split; [exact Hin|].
  split; [exact Hb|]. split; [exact Ht|]. split; [exact Hrp|].
  split; [now rewrite Hwp|].
  split.
  { unfold wr_ok in *. rewrite Hb, Ht, Hwp, Hcur. now apply circ_advance_ok. }
  split; [exact Hc|]. split; [exact Hw|]. split; [exact Hrl|].
  intros Hcap. apply Hback. lia.
Qed.

(** X15.  Whatever the status word, a call of the handler that returns
    has changed no endpoint but the one the status names, no [rxsize], and
    no endpoint's kind of destination; and a status that is neither SETUP
    data nor OUT data changes nothing at all and pops no word. *)
Theorem rxfifo_handler_frame (fuel : nat) (sts : Z) (s s' : rxside) :
  handler fuel sts s = Some s' ->
  (forall e, e <> ep_of sts -> r_out s' e = r_out s e) /\
  (forall e, rxsize (r_out s' e) = rxsize (r_out s e)) /\
  (forall e, rxqueued (r_out s' e) = rxqueued (r_out s e)) /\
  (Z.land sts PKTSTS_MASK <> SETUP_DATA ->
   Z.land sts PKTSTS_MASK <> OUT_DATA -> s' = s).
Proof.
  unfold otg_rxfifo_handler. intros H.
  destruct (Z.eqb_spec (Z.land sts PKTSTS_MASK) SETUP_COMP) as [_|_].
  { injection H as <-. repeat split; intros; reflexivity. }
  destruct (Z.eqb_spec (Z.land sts PKTSTS_MASK) SETUP_DATA) as [Hs|_].
  { destruct (otg_fifo_read_to_buffer _ _ _ _ _) as [rx' m'].
    injection H as <-. cbn [r_out].
    repeat split; intros; try reflexivity. contradiction. }
  destruct (Z.eqb_spec (Z.land sts PKTSTS_MASK) OUT_DATA) as [Ho|_].
  2:{ injection H as <-. repeat split; intros; reflexivity. }
  assert (Hset : forall osp',
    rxsize osp' = rxsize (r_out s (ep_of sts)) ->
    rxqueued osp' = rxqueued (r_out s (ep_of sts)) ->
    (forall e, e <> ep_of sts ->
               set_out (r_out s) (ep_of sts) osp' e = r_out s e) /\
    (forall e, rxsize (set_out (r_out s) (ep_of sts) osp' e)
               = rxsize (r_out s e)) /\
    (forall e, rxqueued (set_out (r_out s) (ep_of sts) osp' e)
               = rxqueued (r_out s e))).
  { intros osp' Hsz Hq. unfold set_out.
    repeat split; intros e; destruct (Z.eqb_spec e (ep_of sts)) as [-> | He];
      try reflexivity; try assumption. intros Hc. now contradiction Hc. }
  unfold rxqueued in *.
  destruct (rx_md (r_out s (ep_of sts))) as [rxbuf | rxqueue] eqn:Hmd.
  - destruct (otg_fifo_read_to_buffer _ _ _ _ _) as [rx' m'].
    injection H as <-. cbn [r_out].
    destruct (Hset (mkOutState (rxsize (r_out s (ep_of sts)))
                      (u32 (rxcnt (r_out s (ep_of sts)) + cnt_of sts))
                      (RxLinear (rxbuf + cnt_of sts))))
      as (H1 & H2 & H3); try reflexivity.
    repeat split; try assumption. intros _ Hc. now contradiction Hc.
  - destruct (otg_fifo_read_to_queue _ _ _ _ _ _ _)
      as [[[[rx' m'] q'] k']|]; [|discriminate].
    injection H as <-. cbn [r_out].
    destruct (Hset (mkOutState (rxsize (r_out s (ep_of sts)))
                      (u32 (rxcnt (r_out s (ep_of sts)) + cnt_of sts))
                      (RxQueue q')))
      as (H1 & H2 & H3); try reflexivity.
    repeat split; try assumption. intros _ Hc. now contradiction Hc.
Qed.

End RxFacts.


Lemma rxfifo_setup_packet_witness :
  exists s',
    otg_rxfifo_handler 0 1966080 524288 786432 262144 32752 4 15 0
      (fun _ => 300) 1 786560
      (mkRxSide (mkRx (fun i => Z.of_nat i + 4278255360) 0)
                (fun a => byte.of_Z a) (mkKernel [] (fun _ => 0))
                (fun _ => mkOutState 8 0 (RxLinear 400)))
    = Some s' /\
    forall a, a < 300 \/ 308 <= a -> r_mem s' a = byte.of_Z a.
Proof.
  destruct (rxfifo_setup_packet 0 1966080 524288 786432 262144 32752 4 15 0
              (fun _ => 300) 1%nat 786560
              (mkRxSide (mkRx (fun i => Z.of_nat i + 4278255360) 0)
                        (fun a => byte.of_Z a) (mkKernel [] (fun _ => 0))
                        (fun _ => mkOutState 8 0 (RxLinear 400))))
    as (s' & Hr & _ & Hfr & _).
  - reflexivity.
  - discriminate.
  - lia.
  - vm_compute. reflexivity.
  - lia.
  - exists s'. split; [exact Hr | exact Hfr].
Defined.

Lemma rxfifo_out_linear_witness :
  exists s',
    otg_rxfifo_handler 0 1966080 524288 786432 262144 32752 4 15 0
      (fun _ => 300) 1 262225
      (mkRxSide (mkRx (fun i => Z.of_nat i + 4278255360) 0)
                (fun a => byte.of_Z a) (mkKernel [] (fun _ => 0))
                (fun _ => mkOutState 8 0 (RxLinear 400)))
    = Some s' /\
    r_out s' 1 = mkOutState 8 (u32 (0 + 5)) (RxLinear (400 + 5)) /\
    forall a, a < 400 \/ 408 <= a -> r_mem s' a = byte.of_Z a.
Proof.
  destruct (rxfifo_out_linear 0 1966080 524288 786432 262144 32752 4 15 0
              (fun _ => 300) 1%nat 262225
              (mkRxSide (mkRx (fun i => Z.of_nat i + 4278255360) 0)
                        (fun a => byte.of_Z a) (mkKernel [] (fun _ => 0))
                        (fun _ => mkOutState 8 0 (RxLinear 400))) 400)
    as (s' & Hr & _ & Ho & _ & _ & Hfr & _).
  - reflexivity.
  - discriminate.
  - discriminate.
  - lia.
  - vm_compute. reflexivity.
  - lia.
  - reflexivity.
  - cbn. lia.
  - vm_compute. reflexivity.
  - exists s'. split; [exact Hr|]. split; [exact Ho | exact Hfr].
Defined.

Lemma rxfifo_out_queue_witness :
  exists s' q',
    otg_rxfifo_handler 0 1966080 524288 786432 262144 32752 4 15 0
      (fun _ => 300) 6 262225
      (mkRxSide (mkRx (fun i => Z.of_nat i + 4278255360) 0)
                (fun a => byte.of_Z a) (mkKernel [] (fun _ => 0))
                (fun _ => mkOutState 8 0
                            (RxQueue (mkQueue [3%nat] 0 200 216 214 200))))
    = Some s' /\
    r_out s' 1 = mkOutState 8 (u32 (0 + 5)) (RxQueue q') /\
    rlist (r_kernel s') = [] ++ [3%nat].
Proof.
  destruct (rxfifo_out_queue 0 1966080 524288 786432 262144 32752 4 15 0
              (fun _ => 300) 6%nat 262225
              (mkRxSide (mkRx (fun i => Z.of_nat i + 4278255360) 0)
                        (fun a => byte.of_Z a) (mkKernel [] (fun _ => 0))
                        (fun _ => mkOutState 8 0
                            (RxQueue (mkQueue [3%nat] 0 200 216 214 200))))
              (mkQueue [3%nat] 0 200 216 214 200))
    as (s' & q' & Hr & _ & Ho & _ & _ & _ & _ & _ & _ & _ & _ & _ & Hrl & _).
  - reflexivity.
  - discriminate.
  - discriminate.
  - lia.
  - lia.
  - reflexivity.
  - unfold wr_ok. cbn. lia.
  - vm_compute. lia.
  - exists s', q'. split; [exact Hr|]. split; [exact Ho | exact Hrl].
Defined.

Lemma rxfifo_handler_frame_witness :
  exists s',
    otg_rxfifo_handler 0 1966080 524288 786432 262144 32752 4 15 0
      (fun _ => 300) 6 262225
      (mkRxSide (mkRx (fun i => Z.of_nat i + 4278255360) 0)
                (fun a => byte.of_Z a) (mkKernel [] (fun _ => 0))
                (fun _ => mkOutState 8 0 (RxLinear 400)))
    = Some s' /\
    forall e, e <> 1 -> r_out s' e = mkOutState 8 0 (RxLinear 400).
Proof.
  eexists. split; [reflexivity|].
  pose proof (rxfifo_handler_frame 0 1966080 524288 786432 262144 32752 4 15 0
                (fun _ => 300) 6%nat 262225
                (mkRxSide (mkRx (fun i => Z.of_nat i + 4278255360) 0)
                          (fun a => byte.of_Z a) (mkKernel [] (fun _ => 0))
                          (fun _ => mkOutState 8 0 (RxLinear 400)))
                _ eq_refl) as (Hfr & _).
  exact Hfr.
Defined.


(** * Properties of the TX FIFO empty handshake *)

Lemma epmask_value ep : 0 <= ep < 32 -> u32 (Z.shiftl 1 ep) = 2 ^ ep.
Proof.
  intros Hep. rewrite Z.shiftl_1_l. apply u32_small.
  split; [apply Z.pow_nonneg; lia | apply Z.pow_lt_mono_r; lia].
Qed.

(** [x |= (1 << ep)] sets bit [ep] and no other. *)
Lemma bit_set x ep i :
  0 <= ep < 32 ->
  Z.testbit (Z.lor x (u32 (Z.shiftl 1 ep))) i = Z.testbit x i || (i =? ep).
Proof.
  intros Hep. rewrite epmask_value by assumption.
  rewrite Z.lor_spec, Z.pow2_bits_eqb by lia. now rewrite Z.eqb_sym.
Qed.

(** [x &= ~(1 << ep)] on a 32 bit value clears bit [ep] and no other. *)
Lemma bit_clear x y ep i :
  0 <= x < 2 ^ 32 -> 0 <= ep < 32 -> y = 2 ^ ep ->
  Z.testbit (Z.land x (u32 (Z.lnot y))) i = Z.testbit x i && negb (i =? ep).
Proof.
  intros Hx Hep ->. rewrite Z.land_spec. unfold u32.
  rewrite Z.testbit_mod_pow2 by lia.
  destruct (Z.ltb_spec i 0) as [Hneg | Hi].
  { rewrite !(Z.testbit_neg_r _ i) by assumption. reflexivity. }
  rewrite Z.lnot_spec, Z.pow2_bits_eqb by lia. rewrite (Z.eqb_sym ep i).
  destruct (Z.ltb_spec i 32) as [_ | Hhi]; [reflexivity|].
  replace (Z.testbit x i) with false; [reflexivity|].
  symmetry. rewrite <- (Z.mod_small x (2 ^ 32)) by assumption.
  apply Z.mod_pow2_bits_high. lia.
Qed.

Lemma bit_pending x ep :
  0 <= ep < 32 -> Z.testbit x ep = true ->
  Z.land x (u32 (Z.shiftl 1 ep)) <> 0.
Proof.
  intros Hep Hbit H0. rewrite epmask_value in H0 by assumption.
  assert (Hb : Z.testbit (Z.land x (2 ^ ep)) ep = true)
    by (rewrite Z.land_spec, Z.pow2_bits_true, Hbit by lia; reflexivity).
  rewrite H0, Z.bits_0 in Hb. discriminate.
Qed.

Section HandshakeFacts.

Variable Q_OK : Z.
Variable MASK : Z.
Variable DTXFSTS : nat -> Z.
Variable M : Z.
Variable m : mem.
Variable TXFE : Z.
Variable INEPTXFEM : Z -> Z.
Variable GINTMSK : Z.

(** X16.  The pump serving an endpoint whose pending bit is set: the fill
    engine runs once; on return the pending bit of that endpoint alone has
    been cleared and the global interrupt mask bits are set again; and
    either the whole transfer has been pushed and the TX FIFO empty
    interrupt mask is as it was, or bytes remain and the mask bit of that
    endpoint, and no other, has been set, so that the next FIFO empty
    interrupt resumes the filling. *)
Theorem usb_lld_pump_service_rearms (fuel : nat) (ep : Z) (t : txside)
  (s : fill) :
  fill_ok s -> 0 < M ->
  (Z.to_nat (remaining s) < fuel)%nat ->
  0 <= ep < 32 -> 0 <= txpending t < 2 ^ 32 ->
  Z.testbit (txpending t) ep = true ->
  exists done t' s',
    usb_lld_pump_service Q_OK MASK DTXFSTS M m GINTMSK fuel ep t s
    = Some (t', s') /\
    otg_txfifo_handler Q_OK MASK DTXFSTS M m fuel s = Some (done, s') /\
    (forall i, Z.testbit (txpending t') i
               = Z.testbit (txpending t) i && negb (i =? ep)) /\
    Z.land (GAHBCFG t') GINTMSK = GINTMSK /\
    thd_wait t' = thd_wait t /\
    (done = true ->
     txcnt (f_isp s') = txsize (f_isp s') /\ DIEPEMPMSK t' = DIEPEMPMSK t) /\
    (done = false ->
     txcnt (f_isp s') < txsize (f_isp s') /\
     forall i, Z.testbit (DIEPEMPMSK t') i
               = Z.testbit (DIEPEMPMSK t) i || (i =? ep)).
Proof.
  intros Hok HM Hfuel Hep Hpend Hbit.
  destruct (fill_run Q_OK MASK DTXFSTS M m (Z.to_nat (remaining s)) fuel fuel s
              Hok HM ltac:(lia) Hfuel Hfuel)
    as (done & s' & new & Hrun & _ & _ & _ & _ & Htrue & Hfalse & _).
  unfold usb_lld_pump_service, otg_txfifo_handler.
  destruct (Z.eqb_spec (Z.land (txpending t) (u32 (Z.shiftl 1 ep))) 0)
    as [H0 | _]; [now apply bit_pending in H0|].
  rewrite Hrun.
  assert (Hgint : forall g, Z.land (Z.lor g GINTMSK) GINTMSK = GINTMSK).
  { intros g. rewrite Z.land_lor_distr_l, Z.land_diag.
    apply Z.bits_inj'. intros i Hi. rewrite Z.lor_spec, Z.land_spec.
    destruct (Z.testbit g i), (Z.testbit GINTMSK i); reflexivity. }
  assert (Hclr : forall i,
    Z.testbit (Z.land (txpending t) (u32 (Z.lnot (u32 (Z.shiftl 1 ep))))) i
    = Z.testbit (txpending t) i && negb (i =? ep)).
  { intros i. apply bit_clear; try assumption.
    now apply epmask_value. }
  exists done. destruct done; cbn [negb]; eexists; eexists;
    (split; [reflexivity|]); (split; [reflexivity|]);
    cbn [txpending GAHBCFG thd_wait DIEPEMPMSK];
    (split; [exact Hclr|]); (split; [apply Hgint|]);
    (split; [reflexivity|]).
  - split; [|discriminate]. intros _. split; [now apply Htrue | reflexivity].
  - split; [discriminate|]. intros _. split; [now apply Hfalse|].
    intros i. now apply bit_set.
Qed.

(** X17.  From [usb_lld_start_in] to the pump: once the endpoint has been
    started, a TX FIFO empty interrupt of that endpoint is always taken; the
    handler sets the endpoint's pending bit and clears its interrupt mask
    bit, leaving the bits of the other endpoints alone, makes the waiting
    pump thread ready (once) and forgets it. *)
Theorem otg_epin_handler_txfe_latches (ep epint : Z) (t : txside) (k : kernel) :
  0 <= ep < 16 -> 0 <= DIEPEMPMSK t < 2 ^ 32 ->
  0 <= INEPTXFEM ep < 2 ^ 32 -> INEPTXFEM ep <> 0 ->
  Z.land epint TXFE <> 0 ->
  let t1 := usb_lld_start_in INEPTXFEM ep t in
  let r := otg_epin_handler_txfe TXFE INEPTXFEM ep epint t1 k in
  (forall i, Z.testbit (txpending (fst r)) i
             = Z.testbit (txpending t) i || (i =? ep)) /\
  (forall i, Z.testbit (DIEPEMPMSK (fst r)) i
             = Z.testbit (DIEPEMPMSK t1) i && negb (i =? ep)) /\
  thd_wait (fst r) = None /\
  rlist (snd r)
  = rlist k ++ match thd_wait t with Some tp => [tp] | None => [] end /\
  GAHBCFG (fst r) = GAHBCFG t.
Proof.
  intros Hep16 Hmsk Hx Hnz Hint t1 r.
  assert (Hep : 0 <= ep < 32) by lia.
  assert (Harm : Z.land (DIEPEMPMSK t1) (INEPTXFEM ep) <> 0).
  { subst t1. unfold usb_lld_start_in. cbn [DIEPEMPMSK].
    rewrite Z.land_lor_distr_l, Z.land_diag. intros H0.
    apply Z.lor_eq_0_iff in H0. now destruct H0. }
  assert (Hrange : 0 <= DIEPEMPMSK t1 < 2 ^ 32).
  { subst t1. unfold usb_lld_start_in. cbn [DIEPEMPMSK].
    split; [apply Z.lor_nonneg; lia|].
    destruct (Z.eq_dec (Z.lor (DIEPEMPMSK t) (INEPTXFEM ep)) 0) as [-> | Hne];
      [lia|].
    apply Z.log2_lt_pow2; [pose proof (Z.lor_nonneg (DIEPEMPMSK t)
                                         (INEPTXFEM ep)); lia|].
    rewrite Z.log2_lor by lia.
    destruct (Z.eq_dec (DIEPEMPMSK t) 0) as [Ha | Ha];
      destruct (Z.eq_dec (INEPTXFEM ep) 0) as [Hb | Hb]; try contradiction.
    - rewrite Ha. change (Z.log2 0) with 0.
      pose proof (proj1 (Z.log2_lt_pow2 (INEPTXFEM ep) 32 ltac:(lia))
                    ltac:(lia)). lia.
    - pose proof (proj1 (Z.log2_lt_pow2 (INEPTXFEM ep) 32 ltac:(lia))
                    ltac:(lia)).
      pose proof (proj1 (Z.log2_lt_pow2 (DIEPEMPMSK t) 32 ltac:(lia))
                    ltac:(lia)). lia. }
  subst r. unfold otg_epin_handler_txfe.
  destruct (Z.eqb_spec (Z.land epint TXFE) 0) as [|_]; [contradiction|].
  destruct (Z.eqb_spec (Z.land (DIEPEMPMSK t1) (INEPTXFEM ep)) 0) as [|_];
    [contradiction|].
  cbn [negb andb].
  assert (Hclr : forall i,
    Z.testbit (Z.land (DIEPEMPMSK t1) (u32 (Z.lnot (Z.shiftl 1 ep)))) i
    = Z.testbit (DIEPEMPMSK t1) i && negb (i =? ep)).
  { intros i. apply bit_clear; try assumption. apply Z.shiftl_1_l. }
  assert (Hwait : thd_wait t1 = thd_wait t) by reflexivity.
  assert (Hpend : txpending t1 = txpending t) by reflexivity.
  assert (Hg : GAHBCFG t1 = GAHBCFG t) by reflexivity.
  rewrite Hwait. destruct (thd_wait t) as [tp|];
    cbn [fst snd txpending DIEPEMPMSK thd_wait GAHBCFG];
    rewrite Hpend;
    (split; [intros i; now apply bit_set|]); (split; [exact Hclr|]);
    (split; [reflexivity|]); (split; [|exact Hg]).
  - reflexivity.
  - now rewrite app_nil_r.
Qed.

End HandshakeFacts.

Lemma usb_lld_pump_service_rearms_witness :
  exists done t' s',
    usb_lld_pump_service 0 65535 (fun k => if (k <? 1)%nat then 16 else 0) 64
      (fun a => byte.of_Z a) 1 200 1 (mkTxSide 2 None 0 0)
      (mkFill (mkInState 100 0 (Linear 500)) (mkKernel [] (fun _ => 0))
              0 [] [])
    = Some (t', s') /\
    otg_txfifo_handler 0 65535 (fun k => if (k <? 1)%nat then 16 else 0) 64
      (fun a => byte.of_Z a) 200
      (mkFill (mkInState 100 0 (Linear 500)) (mkKernel [] (fun _ => 0))
              0 [] [])
    = Some (done, s') /\
    Z.land (GAHBCFG t') 1 = 1.
Proof.
  destruct (usb_lld_pump_service_rearms 0 65535
              (fun k => if (k <? 1)%nat then 16 else 0) 64
              (fun a => byte.of_Z a) 1 200%nat 1 (mkTxSide 2 None 0 0)
              (mkFill (mkInState 100 0 (Linear 500))
                      (mkKernel [] (fun _ => 0)) 0%nat [] []))
    as (done & t' & s' & Hr & Hh & _ & Hg & _).
  - unfold fill_ok. cbn. lia.
  - lia.
  - vm_compute. lia.
  - lia.
  - cbn. lia.
  - reflexivity.
  - exists done, t', s'. split; [exact Hr|]. split; [exact Hh | exact Hg].
Defined.

Lemma otg_epin_handler_txfe_latches_witness :
  thd_wait (fst (otg_epin_handler_txfe 128 (fun n => Z.shiftl 1 n) 1 128
                   (usb_lld_start_in (fun n => Z.shiftl 1 n) 1
                      (mkTxSide 0 (Some 5%nat) 1 0))
                   (mkKernel [] (fun _ => 0)))) = None /\
  rlist (snd (otg_epin_handler_txfe 128 (fun n => Z.shiftl 1 n) 1 128
                (usb_lld_start_in (fun n => Z.shiftl 1 n) 1
                   (mkTxSide 0 (Some 5%nat) 1 0))
                (mkKernel [] (fun _ => 0)))) = [] ++ [5%nat].
Proof.
  destruct (otg_epin_handler_txfe_latches 128 (fun n => Z.shiftl 1 n) 1 128
              (mkTxSide 0 (Some 5%nat) 1 0) (mkKernel [] (fun _ => 0)))
    as (_ & _ & Hw & Hr & _).
  - lia.
  - cbn. lia.
  - cbn. lia.
  - discriminate.
  - discriminate.
  - split; [exact Hw | exact Hr].
Defined.


(** ** Reassembly of a transfer received in several packets *)

Section RxDrain.

Variable Q_OK : Z.
Variables PKTSTS_MASK SETUP_COMP SETUP_DATA OUT_DATA : Z.
Variables BCNT_MASK BCNT_OFF EPNUM_MASK EPNUM_OFF : Z.
Variable setup_buf : Z -> Z.

Local Abbreviation handler :=
  (otg_rxfifo_handler Q_OK PKTSTS_MASK SETUP_COMP SETUP_DATA OUT_DATA
     BCNT_MASK BCNT_OFF EPNUM_MASK EPNUM_OFF setup_buf).
Local Abbreviation drain :=
  (rx_drain Q_OK PKTSTS_MASK SETUP_COMP SETUP_DATA OUT_DATA
     BCNT_MASK BCNT_OFF EPNUM_MASK EPNUM_OFF setup_buf).
Local Abbreviation cnt_of := (grxstsp_cnt BCNT_MASK BCNT_OFF).
Local Abbreviation ep_of := (grxstsp_ep EPNUM_MASK EPNUM_OFF).

Lemma handler_out_linear fuel sts s rxbuf :
  Z.land sts PKTSTS_MASK = OUT_DATA ->
  OUT_DATA <> SETUP_COMP -> OUT_DATA <> SETUP_DATA ->
  rx_md (r_out s (ep_of sts)) = RxLinear rxbuf ->
  handler fuel sts s =
  let osp := r_out s (ep_of sts) in
  let r := otg_fifo_read_to_buffer (r_fifo s) (r_mem s) rxbuf (cnt_of sts)
                                   (u32 (rxsize osp - rxcnt osp)) in
  Some (mkRxSide (fst r) (snd r) (r_kernel s)
          (set_out (r_out s) (ep_of sts)
             (mkOutState (rxsize osp) (u32 (rxcnt osp + cnt_of sts))
                         (RxLinear (rxbuf + cnt_of sts))))).
Proof.
  intros Hsel Hne1 Hne2 Hmd. unfold otg_rxfifo_handler. rewrite Hsel.
  destruct (Z.eqb_spec OUT_DATA SETUP_COMP) as [|_]; [contradiction|].
  destruct (Z.eqb_spec OUT_DATA SETUP_DATA) as [|_]; [contradiction|].
  rewrite Z.eqb_refl, Hmd. cbv zeta.
  now destruct (otg_fifo_read_to_buffer _ _ _ _ _).
Qed.

(** X18.  A transfer received into a linear buffer in several packets.
    When the statuses the pump drains are OUT data statuses of one
    endpoint and their byte counts add up to no more than the bytes still
    expected, the packets end up one after the other from [rxbuf] on,
    whatever their sizes (a packet that does not end on a word leaves
    stray bytes that the next one overwrites); [rxcnt] and [rxbuf] have
    moved on by the total; the other endpoints and the kernel are
    untouched; and no byte before the buffer, or three or more bytes past
    the end of the expected data, has changed. *)
Theorem rx_drain_reassembles (fuel : nat) (ep : Z) (stss : list Z) :
  forall (s : rxside) (rxbuf : Z),
  Forall (fun sts => Z.land sts PKTSTS_MASK = OUT_DATA /\ ep_of sts = ep)
         stss ->
  OUT_DATA <> SETUP_COMP -> OUT_DATA <> SETUP_DATA ->
  0 <= BCNT_MASK -> 0 <= BCNT_OFF ->
  rx_md (r_out s ep) = RxLinear rxbuf ->
  0 <= rxcnt (r_out s ep) ->
  rxcnt (r_out s ep) + total (map cnt_of stss) <= rxsize (r_out s ep) ->
  rxsize (r_out s ep) + 3 < 2 ^ 32 ->
  exists s',
    drain fuel stss s = Some s' /\
    r_out s' ep
    = mkOutState (rxsize (r_out s ep))
                 (rxcnt (r_out s ep) + total (map cnt_of stss))
                 (RxLinear (rxbuf + total (map cnt_of stss))) /\
    (forall e, e <> ep -> r_out s' e = r_out s e) /\
    r_kernel s' = r_kernel s /\
    (forall a, a < rxbuf \/
               rxbuf + (rxsize (r_out s ep) - rxcnt (r_out s ep)) + 3 <= a ->
               r_mem s' a = r_mem s a) /\
    linear_read (r_mem s') rxbuf (Z.to_nat (total (map cnt_of stss)))
    = rx_packets (r_fifo s) (map cnt_of stss).
Proof.
  induction stss as [|sts rest IH];
    intros s rxbuf Hall Hne1 Hne2 HM HO Hmd Hcnt0 Hsum Hsz.
  - exists s. cbn [rx_drain map total fold_right Z.to_nat linear_read
                   rx_packets].
    rewrite !Z.add_0_r.
    split; [reflexivity|]. split; [|repeat split; reflexivity].
    destruct (r_out s ep) as [sz c md]. cbn [rx_md] in Hmd. now subst md.
  - apply Forall_cons_iff in Hall. destruct Hall as ((Hsel & Hep) & Hrest).
    cbn [map total fold_right] in *.
    fold (total (map cnt_of rest)) in *.
    set (c := cnt_of sts) in *. set (T := total (map cnt_of rest)) in *.
    assert (Hc : 0 <= c)
      by (subst c; now apply (grxstsp_cnt_range BCNT_MASK BCNT_OFF sts)).
    assert (HT : 0 <= T).
    { subst T. apply total_nonneg0. apply Forall_forall. intros x Hx.
      apply in_map_iff in Hx. destruct Hx as (y & <- & _).
      now apply (grxstsp_cnt_range BCNT_MASK BCNT_OFF y). }
    set (osp := r_out s ep) in *.
    set (room := rxsize osp - rxcnt osp).
    cbn [rx_drain]. rewrite (handler_out_linear fuel sts s rxbuf);
      try assumption; [|now rewrite Hep].
    cbv zeta. rewrite Hep. fold osp. fold c.
    rewrite (u32_small (rxsize osp - rxcnt osp)) by lia. fold room.
    rewrite (u32_small (rxcnt osp + c)) by lia.
    destruct (otg_fifo_read_to_buffer_packet (r_fifo s) (r_mem s) rxbuf c room)
      as (Hrx & Hfr & Hdata); try (subst room; lia).
    destruct (otg_fifo_read_to_buffer (r_fifo s) (r_mem s) rxbuf c room)
      as [rx1 m1].
    cbn [fst snd] in Hrx, Hfr, Hdata |- *.
    set (s1 := mkRxSide rx1 m1 (r_kernel s)
                 (set_out (r_out s) ep
                    (mkOutState (rxsize osp) (rxcnt osp + c)
                                (RxLinear (rxbuf + c))))).
    assert (Hout1 : r_out s1 ep
                    = mkOutState (rxsize osp) (rxcnt osp + c)
                                 (RxLinear (rxbuf + c))).
    { subst s1. cbn [r_out]. unfold set_out. now rewrite Z.eqb_refl. }
    destruct (IH s1 (rxbuf + c) Hrest Hne1 Hne2 HM HO)
      as (s' & Hrun & Hout & Hoth & Hk & Hfr' & Hdata').
    { now rewrite Hout1. }
    { rewrite Hout1. cbn [rxcnt]. lia. }
    { rewrite Hout1. cbn [rxcnt rxsize]. fold T. lia. }
    { rewrite Hout1. cbn [rxsize]. lia. }
    fold T in Hout, Hdata'. rewrite Hout1 in Hout, Hfr'.
    cbn [rxsize rxcnt] in Hout, Hfr'.
    exists s'. split; [exact Hrun|]. split.
    { rewrite Hout. f_equal; [lia | f_equal; lia]. }
    split.
    { intros e He. rewrite Hoth by assumption. subst s1. cbn [r_out].
      unfold set_out. destruct (Z.eqb_spec e ep); [contradiction|].
      reflexivity. }
    split; [exact Hk|].
    assert (Hceil : 4 * ((room + 3) / 4) <= room + 3)
      by (zdiv4 (room + 3); lia).
    split.
    { intros a Ha. rewrite Hfr' by (subst room; lia).
      subst s1. cbn [r_mem]. apply Hfr. lia. }
    replace (Z.to_nat (c + T)) with (Z.to_nat c + Z.to_nat T)%nat by lia.
    rewrite linear_read_app. rewrite Z2Nat.id by lia.
    cbn [rx_packets]. fold c. f_equal.
    + rewrite <- Hdata by (zdiv4 (room + 3); lia).
      apply linear_read_ext. intros a Ha. rewrite Hfr' by lia.
      reflexivity.
    + rewrite Hdata'. subst s1. cbn [r_fifo]. now rewrite Hrx.
Qed.

End RxDrain.

Lemma rx_drain_reassembles_witness :
  exists s',
    rx_drain 0 1966080 524288 786432 262144 32752 4 15 0 (fun _ => 300) 1
      [262225; 262193]
      (mkRxSide (mkRx (fun i => Z.of_nat i + 4278255360) 0)
                (fun a => byte.of_Z a) (mkKernel [] (fun _ => 0))
                (fun _ => mkOutState 8 0 (RxLinear 400)))
    = Some s' /\
    linear_read (r_mem s') 400 (Z.to_nat 8)
    = rx_packets (mkRx (fun i => Z.of_nat i + 4278255360) 0) [5; 3].
Proof.
  destruct (rx_drain_reassembles 0 1966080 524288 786432 262144 32752 4 15 0
              (fun _ => 300) 1%nat 1 [262225; 262193]
              (mkRxSide (mkRx (fun i => Z.of_nat i + 4278255360) 0)
                        (fun a => byte.of_Z a) (mkKernel [] (fun _ => 0))
                        (fun _ => mkOutState 8 0 (RxLinear 400))) 400)
    as (s' & Hr & _ & _ & _ & _ & Hd).
  - repeat constructor.
  - discriminate.
  - discriminate.
  - lia.
  - lia.
  - reflexivity.
  - cbn. lia.
  - vm_compute. discriminate.
  - vm_compute. reflexivity.
  - exists s'. split; [exact Hr | exact Hd].
Defined.


(** * Endpoint initialization and the fill engine *)

Section ShortFifo.

Variable Q_OK : Z.
Variable MASK : Z.
Variable DTXFSTS : nat -> Z.
Variable M : Z.
Variable m : mem.

(** X19.  The TX FIFO that [usb_lld_init_endpoint] sets up holds
    [in_maxsize] rounded down to whole words, times the multiplier.  So for
    an endpoint whose [in_maxsize] is not a multiple of four (multiplier at
    most one) the FIFO is shorter than one full packet, and as long as the
    core reports no more free words than that FIFO has, the fill engine
    never pushes a full packet: with [in_maxsize] bytes or more to go it
    returns FALSE having pushed nothing. *)
Theorem short_fifo_starves (MEM : Z) (ASSERTS : bool) (usbp : USBDriver)
  (mult : Z) (fuel : nat) (s : fill) :
  0 < M < 2 ^ 16 -> 0 <= mult < 2 ^ 16 ->
  let fsize := fst (usb_lld_init_endpoint_fifo MEM ASSERTS usbp M mult) in
  4 * fsize = (M - M mod 4) * Z.max 1 mult /\
  (M mod 4 <> 0 -> mult <= 1 ->
   fill_ok s -> M <= remaining s -> (0 < fuel)%nat ->
   (forall k, 0 <= Z.land (DTXFSTS k) MASK <= fsize) ->
   otg_txfifo_handler Q_OK MASK DTXFSTS M m fuel s
   = Some (false, mkFill (f_isp s) (f_kernel s) (Datatypes.S (f_reads s))
                         (f_fifo s) (f_packets s))).
Proof.
  intros HM Hmult fsize. subst fsize.
  unfold usb_lld_init_endpoint_fifo, in_fifo_words. cbn [fst].
  zdiv4 M.
  split.
  - destruct (Z.ltb_spec 1 mult) as [Hgt | Hle].
    + assert (Hq : 0 <= M / 4 <= 16383) by lia.
      assert (Hp : 0 <= M / 4 * mult <= 16383 * 65535)
        by (split; [apply Z.mul_nonneg_nonneg | apply Z.mul_le_mono_nonneg];
            lia).
      rewrite u32_small by lia.
      replace (Z.max 1 mult) with mult by lia.
      replace (M - M mod 4) with (4 * (M / 4)) by lia. ring.
    + replace (Z.max 1 mult) with 1 by lia. lia.
  - intros Hmod Hle (Hc & Hs & Hq) Hrem Hfuel Hhw.
    destruct (Z.ltb_spec 1 mult) as [Hgt | _]; [lia|].
    unfold remaining in Hrem.
    destruct fuel as [|fuel]; [lia|].
    unfold otg_txfifo_handler. cbn [iterate].
    rewrite txfifo_body_busy; [reflexivity | lia |].
    unfold txfifo_space, next_packet.
    specialize (Hhw (f_reads s)).
    rewrite !u32_small by lia.
    destruct (Z.ltb_spec M (txsize (f_isp s) - txcnt (f_isp s))); lia.
Qed.

End ShortFifo.

Lemma short_fifo_starves_witness :
  otg_txfifo_handler 0 65535 (fun _ => 47) 190 (fun a => byte.of_Z a) 5
    (mkFill (mkInState 400 0 (Linear 500)) (mkKernel [] (fun _ => 0))
            0 [] [])
  = Some (false,
          mkFill (mkInState 400 0 (Linear 500)) (mkKernel [] (fun _ => 0))
                 1 [] []).
Proof.
  destruct (short_fifo_starves 0 65535 (fun _ => 47) 190
              (fun a => byte.of_Z a) 384 false (mkUSBDriver 48) 1 5%nat
              (mkFill (mkInState 400 0 (Linear 500))
                      (mkKernel [] (fun _ => 0)) 0%nat [] []))
    as (_ & Hst).
  - lia.
  - lia.
  - apply Hst.
    + vm_compute. discriminate.
    + lia.
    + unfold fill_ok. cbn. lia.
    + vm_compute. discriminate.
    + lia.
    + intros k. vm_compute. split; discriminate.
Defined.
